(** * yToolkit: the rate limiters, embedded and verified

    The development follows [src/api/call-deduplicator.ts] (class
    [ApiCallLimiter], three priority lanes, and class [ApiCallDeduplicator],
    one call in flight per key), and the two older variants of the limiter,
    [CallLimiter] and [RateLimiter].

    JavaScript numbers are modelled as [Z]: the rates, durations and
    [Date.now()] readings the limiter handles are integers, and integer
    arithmetic is the arithmetic of doubles as long as the operands stay
    within [MAX_SAFE_INTEGER]; the theorems that state the value of a
    computation on rates carry that bound. The [Set] of running requests is
    the insertion-ordered list of its object references into a heap of
    [RequestRunning] records, promises are cells of a promise table, and the
    event loop of node is an explicit timer list and microtask queue. *)

From Stdlib Require Import ZArith Lia Bool List.
From stdpp Require Import base list strings gmap.

Local Open Scope Z_scope.

(** ** JavaScript values that may reach [options.priority] at run time *)

Inductive JsValue :=
| JUndefined
| JNull
| JBool (b : bool)
| JNumber (n : Z)
| JString (s : string).

#[global] Instance JsValue_eq_dec : EqDecision JsValue.
Proof. solve_decision. Defined.

(** ToBoolean: [undefined], [null], [false], [0] and the empty string are
    falsy, every other value is truthy. *)
Definition truthy (v : JsValue) : bool :=
  match v with
  | JUndefined | JNull => false
  | JBool b => b
  | JNumber n => negb (n =? 0)
  | JString s => negb (String.eqb s "")
  end.

(** [a || b] on values. *)
Definition js_or (a b : JsValue) : JsValue := if truthy a then a else b.

(** [===] against a string literal. *)
Definition strict_eq_string (v : JsValue) (lit : string) : bool :=
  match v with
  | JString s => String.eqb s lit
  | _ => false
  end.

(** Truthiness of a [number | null] field such as [endedAt]. *)
Definition truthy_time (t : option Z) : bool :=
  match t with
  | Some n => negb (n =? 0)
  | None => false
  end.

(** A call either returns or throws [new Error(msg)]. *)
Inductive Result (A : Type) :=
| Ok (a : A)
| Throw (msg : string).
Arguments Ok {A} a.
Arguments Throw {A} msg.

(** ** Numbers and timers of the runtime *)

(** [Number.MAX_SAFE_INTEGER]: up to it every integer is a double, and
    sums, differences and floored quotients of such integers are exact. *)
Definition MAX_SAFE_INTEGER : Z := 2 ^ 53 - 1.

(** The longest delay of a node timer. *)
Definition TIMEOUT_MAX : Z := 2 ^ 31 - 1.

(** The delay node gives a timer: [setTimeout(cb, after)] replaces an
    [after] that is not within [1, TIMEOUT_MAX] by 1. *)
Definition timerDelay (after : Z) : Z :=
  if (1 <=? after) && (after <=? TIMEOUT_MAX) then after else 1.

(** ** The older variants: rate control of [CallLimiter] and [RateLimiter] *)

Module CallLimiter.

Record Rate := {
  maxRequestsPerSecond : Z;
  reductionNumber : Z;
  requestsPerSecond : Z;
  reduceLimitTimestamp : Z
}.

(** [Math.floor(maxRequestsPerSecond * (reductionPercentage / 100))] on
    integer arguments. With the default percentage 25 the quotient 0.25 and
    the product are exact in floating point, so the integer formula is the
    value the code computes. For other percentages the quotient is rounded
    and the code can fall one short of the integer formula (100 and 29 give
    28, not 29); when [maxRequestsPerSecond * reductionPercentage < 100]
    both are 0. The properties below use the formula at 25, below 100, or
    where the amount plays no role. *)
Definition constructor (maxRequestsPerSecond reductionPercentage : Z) : Result Rate :=
  if maxRequestsPerSecond <=? 0 then Throw "maxRequestsPerSecond must be > 0"
  else Ok {| maxRequestsPerSecond := maxRequestsPerSecond;
             reductionNumber := maxRequestsPerSecond * reductionPercentage / 100;
             requestsPerSecond := maxRequestsPerSecond;
             reduceLimitTimestamp := 0 |}.

Definition reduceLimitTemporary (now durationMs : Z) (r : Rate) : Result Rate :=
  if durationMs <=? 0 then Throw "durationMs must be > 0"
  else if now - reduceLimitTimestamp r <? 1000 then Ok r
  else Ok {| maxRequestsPerSecond := maxRequestsPerSecond r;
             reductionNumber := reductionNumber r;
             requestsPerSecond := Z.max 1 (requestsPerSecond r - reductionNumber r);
             reduceLimitTimestamp := now |}.

(** The callback of the restoration timer. *)
Definition restore (r : Rate) : Rate :=
  {| maxRequestsPerSecond := maxRequestsPerSecond r;
     reductionNumber := reductionNumber r;
     requestsPerSecond := maxRequestsPerSecond r;
     reduceLimitTimestamp := reduceLimitTimestamp r |}.

Inductive Op := Reduce (now durationMs : Z) | Elapse.

Definition step (r : Rate) (o : Op) : Rate :=
  match o with
  | Reduce now d => match reduceLimitTemporary now d r with Ok r' => r' | Throw _ => r end
  | Elapse => restore r
  end.

(** The [for] loop of [processQueue], which counts [i] up and
    [availableSlots] down in every round: it returns the requests it has
    resolved, in order, and those left in [requestsWaiting]. An empty queue
    ([shift()] returns [undefined]) ends it. *)
Fixpoint grantLoop {A : Type} (i availableSlots : Z) (requestsWaiting : list A)
    : list A * list A :=
  if i <? availableSlots then
    match requestsWaiting with
    | [] => ([], [])
    | request :: rest =>
        let '(resolved, remaining) := grantLoop (i + 1) (availableSlots - 1) rest in
        (request :: resolved, remaining)
    end
  else ([], requestsWaiting).

End CallLimiter.

Module RateLimiter.

Record Rate := {
  maxRequestsPerSecond : Z;
  requestsPerSecond : Z
}.

Definition constructor (requestsPerSecond : Z) : Result Rate :=
  if requestsPerSecond <=? 0 then Throw "requestsPerSecond must be > 0"
  else Ok {| maxRequestsPerSecond := requestsPerSecond;
             requestsPerSecond := requestsPerSecond |}.

(** [Math.ceil] of an integer is the integer itself. *)
Definition reduceTemporaryRateLimit (r : Rate) : Rate :=
  let reductionNumber := maxRequestsPerSecond r / 4 in
  let newRequestsPerSecond := requestsPerSecond r - reductionNumber in
  {| maxRequestsPerSecond := maxRequestsPerSecond r;
     requestsPerSecond := Z.max 1 newRequestsPerSecond |}.

Definition restore (r : Rate) : Rate :=
  {| maxRequestsPerSecond := maxRequestsPerSecond r;
     requestsPerSecond := maxRequestsPerSecond r |}.

Inductive Op := Reduce | Elapse.

Definition step (r : Rate) (o : Op) : Rate :=
  match o with
  | Reduce => reduceTemporaryRateLimit r
  | Elapse => restore r
  end.

Record RequestRunning := {
  startedAt : Z;
  endedAt : option Z
}.

(** The queue side of the class: the waiting promises (by identity), the
    [Map] of running requests under their random keys, and the promises
    resolved so far, each with the key its release callback closes over. *)
Record Limiter := {
  rate : Rate;
  requestsWaiting : list nat;
  requestsRunning : gmap string RequestRunning;
  granted : list (nat * string)
}.

Definition expired (now : Z) (q : RequestRunning) : bool :=
  let oneSecondAgo := now - 1000 in
  let oneMinuteAgo := now - 60 * 1000 in
  (truthy_time (endedAt q) && (default 0 (endedAt q) <? oneSecondAgo))
  || (negb (startedAt q =? 0) && (startedAt q <? oneMinuteAgo)).

(** [getAvailableSlots]: the stale entries are deleted from the map, then
    the rate minus the size of the map is returned, or 0. *)
Definition getAvailableSlots (now : Z) (l : Limiter) : Z * Limiter :=
  let running := filter (fun kv => expired now (snd kv) = false) (requestsRunning l) in
  let available := requestsPerSecond (rate l) - Z.of_nat (size running) in
  (Z.max 0 available,
   {| rate := rate l; requestsWaiting := requestsWaiting l;
      requestsRunning := running; granted := granted l |}).

(** The batch loop. [keys] are the successive values of
    [Math.random().toString(36)]; a round whose [shift()] finds the queue
    empty draws no key. *)
Fixpoint grantBatch (batchSize : nat) (keys : list string) (now : Z) (l : Limiter)
    : Limiter :=
  match batchSize with
  | O => l
  | S n =>
      match requestsWaiting l with
      | [] => grantBatch n keys now l
      | request :: rest =>
          match keys with
          | [] => l
          | key :: keys' =>
              grantBatch n keys' now
                {| rate := rate l;
                   requestsWaiting := rest;
                   requestsRunning :=
                     <[key := {| startedAt := now; endedAt := None |}]> (requestsRunning l);
                   granted := granted l ++ [(request, key)] |}
          end
      end
  end.

(** One round of the [while] loop of [processQueue] with a non-empty
    queue: no slot, nothing happens (the loop sleeps); otherwise a batch of
    [min(availableSlots, requestsWaiting.length)] is granted. *)
Definition processRound (keys : list string) (now : Z) (l : Limiter) : Limiter :=
  let '(availableSlots, l1) := getAvailableSlots now l in
  if availableSlots =? 0 then l1
  else
    let batchSize := Z.min availableSlots (Z.of_nat (length (requestsWaiting l1))) in
    grantBatch (Z.to_nat batchSize) keys now l1.

(** The release callback of the request stored under [key]:
    [this.requestsRunning.get(key)!.endedAt = Date.now()], a [TypeError]
    when the entry is gone. *)
Definition release (key : string) (now : Z) (l : Limiter) : Result Limiter :=
  match requestsRunning l !! key with
  | Some q =>
      Ok {| rate := rate l; requestsWaiting := requestsWaiting l;
            requestsRunning :=
              <[key := {| startedAt := startedAt q; endedAt := Some now |}]>
                (requestsRunning l);
            granted := granted l |}
  | None => Throw "TypeError: Cannot set properties of undefined (setting 'endedAt')"
  end.

(** [requestSlot]: the promise is pushed on the queue. *)
Definition requestSlot (p : nat) (l : Limiter) : Limiter :=
  {| rate := rate l; requestsWaiting := requestsWaiting l ++ [p];
     requestsRunning := requestsRunning l; granted := granted l |}.

End RateLimiter.

(** ** [ApiCallLimiter]: the limiter with three priority lanes *)

Module ApiCallLimiter.

(** [RequestOptions]: both fields are optional; [priority] is typed
    ['high' | 'normal' | 'low'] but is an arbitrary value at run time. *)
Record RequestOptions := {
  priority : JsValue;
  timeoutMs : option Z
}.

(** [RequestWaiting = { resolve, reject }]: the two closures of one
    promise, identified by its index in the promise table. *)
Record RequestWaiting := { promise : nat }.

Record RequestRunning := {
  startedAt : Z;
  endedAt : option Z
}.

(** A promise created by [requestSlot]. While pending it remembers
    whether [requestSlot] is already suspended on it ([await]) and with
    which [timeoutHandle]. *)
Inductive PromiseState :=
| Pending (awaiting : option nat)
| Fulfilled
| Rejected (msg : string).

(** Callbacks handed to [setTimeout] and [setImmediate]. *)
Inductive Callback :=
| RejectTimeout (p : nat)
| RestoreLimit
| WakeQueue
| RestartQueue.

Record Timer := {
  handle : nat;
  due : Z;
  callback : Callback
}.

(** Microtasks: the continuations of the two [await]s. *)
Inductive Job :=
| ResumeRequestSlot (p : nat) (timeoutHandle : nat)
| ResumeProcessQueue.

(** What the promise returned by [requestSlot] settles to: the release
    callback of a running request, or an error. *)
Inductive Outcome :=
| Granted (request : nat)
| Failed (msg : string).

(** The fields of the class. [requestsRunning] is the [Set] of running
    requests, in insertion order (the order a [for ... of] visits it). *)
Record Limiter := {
  maxRequestsPerSecond : Z;
  reductionNumber : Z;
  requestsPerSecond : Z;
  reduceLimitTimeout : option nat;
  reduceLimitTimestamp : Z;
  requestsHigh : list RequestWaiting;
  requestsNormal : list RequestWaiting;
  requestsLow : list RequestWaiting;
  requestsRunning : list nat;
  isProcessing : bool
}.

(** The part of the JavaScript runtime the limiter relies on: the reading
    of [Date.now()], the promises created by [requestSlot], the
    [RequestRunning] objects (an entry of [requestsRunning] is an index
    into [heap], so that a release callback and the set share the object),
    the armed timers, the microtask queue, and what the promises returned
    by [requestSlot] have settled to. *)
Record Runtime := {
  clock : Z;
  promises : list PromiseState;
  heap : list RequestRunning;
  timers : list Timer;
  nextHandle : nat;
  jobs : list Job;
  outcomes : list (nat * Outcome)
}.

Record World := {
  limiter : Limiter;
  runtime : Runtime
}.

#[global] Instance PromiseState_eq_dec : EqDecision PromiseState.
Proof. solve_decision. Defined.
#[global] Instance RequestWaiting_eq_dec : EqDecision RequestWaiting.
Proof. solve_decision. Defined.
#[global] Instance Outcome_eq_dec : EqDecision Outcome.
Proof. solve_decision. Defined.

(** *** Field updates *)

Definition with_rate (rate : Z) (timeout : option nat) (stamp : Z) (l : Limiter) : Limiter :=
  {| maxRequestsPerSecond := maxRequestsPerSecond l;
     reductionNumber := reductionNumber l;
     requestsPerSecond := rate;
     reduceLimitTimeout := timeout;
     reduceLimitTimestamp := stamp;
     requestsHigh := requestsHigh l;
     requestsNormal := requestsNormal l;
     requestsLow := requestsLow l;
     requestsRunning := requestsRunning l;
     isProcessing := isProcessing l |}.

Definition with_lanes (high normal low : list RequestWaiting) (l : Limiter) : Limiter :=
  {| maxRequestsPerSecond := maxRequestsPerSecond l;
     reductionNumber := reductionNumber l;
     requestsPerSecond := requestsPerSecond l;
     reduceLimitTimeout := reduceLimitTimeout l;
     reduceLimitTimestamp := reduceLimitTimestamp l;
     requestsHigh := high;
     requestsNormal := normal;
     requestsLow := low;
     requestsRunning := requestsRunning l;
     isProcessing := isProcessing l |}.

Definition with_running (running : list nat) (l : Limiter) : Limiter :=
  {| maxRequestsPerSecond := maxRequestsPerSecond l;
     reductionNumber := reductionNumber l;
     requestsPerSecond := requestsPerSecond l;
     reduceLimitTimeout := reduceLimitTimeout l;
     reduceLimitTimestamp := reduceLimitTimestamp l;
     requestsHigh := requestsHigh l;
     requestsNormal := requestsNormal l;
     requestsLow := requestsLow l;
     requestsRunning := running;
     isProcessing := isProcessing l |}.

Definition with_processing (flag : bool) (l : Limiter) : Limiter :=
  {| maxRequestsPerSecond := maxRequestsPerSecond l;
     reductionNumber := reductionNumber l;
     requestsPerSecond := requestsPerSecond l;
     reduceLimitTimeout := reduceLimitTimeout l;
     reduceLimitTimestamp := reduceLimitTimestamp l;
     requestsHigh := requestsHigh l;
     requestsNormal := requestsNormal l;
     requestsLow := requestsLow l;
     requestsRunning := requestsRunning l;
     isProcessing := flag |}.

Definition with_clock (t : Z) (r : Runtime) : Runtime :=
  {| clock := t; promises := promises r; heap := heap r; timers := timers r;
     nextHandle := nextHandle r; jobs := jobs r; outcomes := outcomes r |}.

Definition with_promises (ps : list PromiseState) (r : Runtime) : Runtime :=
  {| clock := clock r; promises := ps; heap := heap r; timers := timers r;
     nextHandle := nextHandle r; jobs := jobs r; outcomes := outcomes r |}.

Definition with_heap (h : list RequestRunning) (r : Runtime) : Runtime :=
  {| clock := clock r; promises := promises r; heap := h; timers := timers r;
     nextHandle := nextHandle r; jobs := jobs r; outcomes := outcomes r |}.

Definition with_timers (ts : list Timer) (next : nat) (r : Runtime) : Runtime :=
  {| clock := clock r; promises := promises r; heap := heap r; timers := ts;
     nextHandle := next; jobs := jobs r; outcomes := outcomes r |}.

Definition with_jobs (js : list Job) (r : Runtime) : Runtime :=
  {| clock := clock r; promises := promises r; heap := heap r; timers := timers r;
     nextHandle := nextHandle r; jobs := js; outcomes := outcomes r |}.

Definition with_outcomes (os : list (nat * Outcome)) (r : Runtime) : Runtime :=
  {| clock := clock r; promises := promises r; heap := heap r; timers := timers r;
     nextHandle := nextHandle r; jobs := jobs r; outcomes := os |}.

Definition on_limiter (f : Limiter -> Limiter) (w : World) : World :=
  {| limiter := f (limiter w); runtime := runtime w |}.

Definition on_runtime (f : Runtime -> Runtime) (w : World) : World :=
  {| limiter := limiter w; runtime := f (runtime w) |}.

(** *** The runtime primitives *)

(** [setTimeout(cb, delay)]: returns the new handle. The timer is due
    after the delay node gives it. *)
Definition setTimeout (cb : Callback) (delay : Z) (r : Runtime) : nat * Runtime :=
  let h := nextHandle r in
  (h, with_timers (timers r ++ [{| handle := h; due := clock r + timerDelay delay;
                                   callback := cb |}])
                  (S h) r).

(** [setImmediate(cb)]: due at once, run when no microtask is left. *)
Definition setImmediate (cb : Callback) (r : Runtime) : nat * Runtime :=
  let h := nextHandle r in
  (h, with_timers (timers r ++ [{| handle := h; due := clock r; callback := cb |}])
                  (S h) r).

Definition clearTimeout (h : nat) (r : Runtime) : Runtime :=
  with_timers (List.filter (fun t => negb (Nat.eqb (handle t) h)) (timers r)) (nextHandle r) r.

(** [new Promise(...)]: a fresh pending cell. *)
Definition newPromise (r : Runtime) : nat * Runtime :=
  (length (promises r), with_promises (promises r ++ [Pending None]) r).

(** Settling a promise: only a pending one changes, and if [requestSlot]
    is already suspended on it its continuation becomes a microtask. *)
Definition settle (p : nat) (s : PromiseState) (r : Runtime) : Runtime :=
  match promises r !! p with
  | Some (Pending k) =>
      let r' := with_promises (<[p := s]> (promises r)) r in
      match k with
      | Some h => with_jobs (jobs r' ++ [ResumeRequestSlot p h]) r'
      | None => r'
      end
  | _ => r
  end.

Definition resolve (q : RequestWaiting) : Runtime -> Runtime :=
  settle (promise q) Fulfilled.

Definition reject (p : nat) (msg : string) : Runtime -> Runtime :=
  settle p (Rejected msg).

(** [await promise] inside [requestSlot]: suspend on a pending promise,
    or queue the continuation at once when it is already settled. *)
Definition await (p : nat) (h : nat) (r : Runtime) : Runtime :=
  match promises r !! p with
  | Some (Pending _) => with_promises (<[p := Pending (Some h)]> (promises r)) r
  | _ => with_jobs (jobs r ++ [ResumeRequestSlot p h]) r
  end.

(** *** The class *)

(** [Math.max(1, Math.floor(requestsPerSecond / 10))] is the integer
    quotient for every integer rate up to [MAX_SAFE_INTEGER]. *)
Definition constructor (requestsPerSecond : Z) : Result Limiter :=
  if requestsPerSecond <=? 0 then Throw "requestsPerSecond must be > 0"
  else Ok {| maxRequestsPerSecond := requestsPerSecond;
             reductionNumber := Z.max 1 (requestsPerSecond / 10);
             requestsPerSecond := requestsPerSecond;
             reduceLimitTimeout := None;
             reduceLimitTimestamp := 0;
             requestsHigh := [];
             requestsNormal := [];
             requestsLow := [];
             requestsRunning := [];
             isProcessing := false |}.

Definition boot (t : Z) : Runtime :=
  {| clock := t; promises := []; heap := []; timers := []; nextHandle := 1;
     jobs := []; outcomes := [] |}.

(** [new ApiCallLimiter({ requestsPerSecond })] at time [t]. *)
Definition create (t requestsPerSecond : Z) : Result World :=
  match constructor requestsPerSecond with
  | Ok l => Ok {| limiter := l; runtime := boot t |}
  | Throw msg => Throw msg
  end.

Definition reduceLimitTemporary (durationMs : Z) (w : World) : Result World :=
  let l := limiter w in
  let now := clock (runtime w) in
  if durationMs <=? 0 then Throw "durationMs must be > 0"
  else
    let timeSinceLastReduction := now - reduceLimitTimestamp l in
    if timeSinceLastReduction <? 1000 then Ok w
    else
      let r1 := match reduceLimitTimeout l with
                | Some h => clearTimeout h (runtime w)
                | None => runtime w
                end in
      let '(h, r2) := setTimeout RestoreLimit durationMs r1 in
      let newRequestsPerSecond := requestsPerSecond l - reductionNumber l in
      Ok {| limiter := with_rate (Z.max 1 newRequestsPerSecond) (Some h) now l;
            runtime := r2 |}.

(** The timer callback installed by [reduceLimitTemporary]. *)
Definition restoreLimit (w : World) : World :=
  on_limiter (fun l => with_rate (maxRequestsPerSecond l) None (reduceLimitTimestamp l) l) w.

(** The lane chosen by the [if]/[else if]/[else] chain of [requestSlot]. *)
Definition enqueue (priority : JsValue) (q : RequestWaiting) (l : Limiter) : Limiter :=
  if strict_eq_string priority "high" then
    with_lanes (requestsHigh l ++ [q]) (requestsNormal l) (requestsLow l) l
  else if strict_eq_string priority "normal" then
    with_lanes (requestsHigh l) (requestsNormal l ++ [q]) (requestsLow l) l
  else
    with_lanes (requestsHigh l) (requestsNormal l) (requestsLow l ++ [q]) l.

(** [requestsHigh.shift() || requestsNormal.shift() || requestsLow.shift()]:
    a [RequestWaiting] object is truthy, [undefined] (empty lane) is not. *)
Definition shiftNext (l : Limiter) : option (RequestWaiting * Limiter) :=
  match requestsHigh l with
  | q :: high => Some (q, with_lanes high (requestsNormal l) (requestsLow l) l)
  | [] =>
      match requestsNormal l with
      | q :: normal => Some (q, with_lanes [] normal (requestsLow l) l)
      | [] =>
          match requestsLow l with
          | q :: low => Some (q, with_lanes [] [] low l)
          | [] => None
          end
      end
  end.

(** [n] successive dequeues, in the order they come out. *)
Fixpoint shiftMany (n : nat) (l : Limiter) : list RequestWaiting :=
  match n with
  | O => []
  | S n' =>
      match shiftNext l with
      | Some (q, l') => q :: shiftMany n' l'
      | None => []
      end
  end.

Definition queueLength (l : Limiter) : nat :=
  (length (requestsHigh l) + length (requestsNormal l) + length (requestsLow l))%nat.

(** The two deletion tests of [getAvailableSlots] on one running request. *)
Definition expired (now : Z) (q : RequestRunning) : bool :=
  let oneSecondAgo := now - 1000 in
  let oneMinuteAgo := now - 65000 in
  (truthy_time (endedAt q) && (default 0 (endedAt q) <? oneSecondAgo))
  || (negb (startedAt q =? 0) && (startedAt q <? oneMinuteAgo)).

Definition keeps (now : Z) (hp : list RequestRunning) (ref : nat) : bool :=
  match hp !! ref with
  | Some q => negb (expired now q)
  | None => true
  end.

Definition getAvailableSlots (w : World) : Z * World :=
  let now := clock (runtime w) in
  let running := List.filter (keeps now (heap (runtime w))) (requestsRunning (limiter w)) in
  let w' := on_limiter (with_running running) w in
  let available := requestsPerSecond (limiter w') - Z.of_nat (length running) in
  (Z.max 0 available, w').

(** The [for] loop of [processQueue]: at most [n] dequeues, each
    followed by [request.resolve()]. *)
Fixpoint grantSlots (n : nat) (w : World) : World :=
  match n with
  | O => w
  | S n' =>
      match shiftNext (limiter w) with
      | None => w
      | Some (q, l') =>
          grantSlots n' {| limiter := l'; runtime := resolve q (runtime w) |}
      end
  end.

(** The [finally] block. *)
Definition finish (w : World) : World :=
  let '(_, r) := setImmediate RestartQueue (runtime w) in
  {| limiter := with_processing false (limiter w); runtime := r |}.

(** [await new Promise(resolve => setTimeout(resolve, 50))]. *)
Definition sleep (w : World) : World :=
  let '(_, r) := setTimeout WakeQueue 50 (runtime w) in
  {| limiter := limiter w; runtime := r |}.

(** The [while] loop of [processQueue], from its condition, up to the
    next suspension or to the end of the [finally] block. *)
Fixpoint queueLoop (fuel : nat) (w : World) : option World :=
  match fuel with
  | O => None
  | S fuel' =>
      if (queueLength (limiter w) =? 0)%nat then Some (finish w)
      else
        let '(availableSlots, w1) := getAvailableSlots w in
        if availableSlots =? 0 then Some (sleep w1)
        else queueLoop fuel' (grantSlots (Z.to_nat availableSlots) w1)
  end.

(** One waiting request leaves per round, so the loop needs at most one
    round more than there are requests (see [queueLoop_total] below). *)
Definition runQueue (w : World) : World :=
  default w (queueLoop (S (queueLength (limiter w))) w).

Definition processQueue (w : World) : World :=
  if (queueLength (limiter w) =? 0)%nat then w
  else if isProcessing (limiter w) then w
  else runQueue (on_limiter (with_processing true) w).

(** The first statements of the promise executor in [requestSlot]: the
    new promise's closures are pushed on the lane of the priority. *)
Definition pushRequest (options : RequestOptions) (w : World) : nat * World :=
  let priority := js_or (priority options) (JString "normal") in
  let '(p, r1) := newPromise (runtime w) in
  (p, {| limiter := enqueue priority {| promise := p |} (limiter w);
         runtime := r1 |}).

Definition requestSlot (options : RequestOptions) (w : World) : nat * World :=
  let timeout := if truthy_time (timeoutMs options)
                 then Z.max 0 (default 0 (timeoutMs options)) else 60000 in
  let '(p, w1) := pushRequest options w in
  let w2 := processQueue w1 in
  let '(timeoutHandle, r2) := setTimeout (RejectTimeout p) timeout (runtime w2) in
  (p, {| limiter := limiter w2; runtime := await p timeoutHandle r2 |}).

(** The method as JavaScript calls it: the argument is [undefined] when
    [options] is left out (the signature requires it, an untyped caller
    can omit it). The body then fails at [options.priority], before it has
    created or changed anything, and the promise the [async] method
    returns is rejected with that [TypeError]. *)
Definition callRequestSlot (options : option RequestOptions) (w : World)
    : Result (nat * World) :=
  match options with
  | Some options => Ok (requestSlot options w)
  | None => Throw "TypeError: Cannot read properties of undefined (reading 'priority')"
  end.

(** The rest of [requestSlot] once the awaited promise is settled. *)
Definition resumeRequestSlot (p timeoutHandle : nat) (w : World) : World :=
  match promises (runtime w) !! p with
  | Some Fulfilled =>
      let r1 := clearTimeout timeoutHandle (runtime w) in
      let request := length (heap r1) in
      let r2 := with_heap (heap r1 ++ [{| startedAt := clock r1; endedAt := None |}]) r1 in
      {| limiter := with_running (requestsRunning (limiter w) ++ [request]) (limiter w);
         runtime := with_outcomes (outcomes r2 ++ [(p, Granted request)]) r2 |}
  | Some (Rejected msg) =>
      on_runtime (fun r => with_outcomes (outcomes r ++ [(p, Failed msg)]) r) w
  | _ => w
  end.

(** The release callback returned for the running request [request]. *)
Definition release (request : nat) (w : World) : World :=
  on_runtime (fun r =>
    with_heap (alter (fun q => {| startedAt := startedAt q;
                                  endedAt := Some (clock r) |}) request (heap r)) r) w.

(** *** The event loop *)

Definition runJob (j : Job) (w : World) : World :=
  match j with
  | ResumeRequestSlot p h => resumeRequestSlot p h w
  | ResumeProcessQueue => runQueue w
  end.

Definition runCallback (cb : Callback) (w : World) : World :=
  match cb with
  | RejectTimeout p => on_runtime (reject p "request timeout") w
  | RestoreLimit => restoreLimit w
  | WakeQueue => on_runtime (fun r => with_jobs (jobs r ++ [ResumeProcessQueue]) r) w
  | RestartQueue => processQueue w
  end.

Definition findTimer (h : nat) (r : Runtime) : option Timer :=
  List.find (fun t => Nat.eqb (handle t) h) (timers r).

(** What can happen to a limiter: calls of its public methods and of the
    release callbacks it handed out, one microtask, one due timer (only
    when no microtask is left), and the passing of time. A call of
    [requestSlot] without options changes nothing (see [callRequestSlot])
    and is no event. *)
Inductive Event :=
| CallRequestSlot (options : RequestOptions)
| CallReduceLimitTemporary (durationMs : Z)
| CallRelease (request : nat)
| Microtask
| Fire (h : nat)
| Clock (t : Z).

Definition step (w : World) (e : Event) : World :=
  match e with
  | CallRequestSlot options => snd (requestSlot options w)
  | CallReduceLimitTemporary durationMs =>
      match reduceLimitTemporary durationMs w with
      | Ok w' => w'
      | Throw _ => w
      end
  | CallRelease request => release request w
  | Microtask =>
      match jobs (runtime w) with
      | j :: js => runJob j (on_runtime (with_jobs js) w)
      | [] => w
      end
  | Fire h =>
      match jobs (runtime w), findTimer h (runtime w) with
      | [], Some t =>
          if due t <=? clock (runtime w)
          then runCallback (callback t) (on_runtime (clearTimeout h) w)
          else w
      | _, _ => w
      end
  | Clock t => on_runtime (with_clock (Z.max t (clock (runtime w)))) w
  end.

Definition run (w : World) (es : list Event) : World := fold_left step es w.

Definition promiseOf (w : World) (p : nat) : option PromiseState :=
  promises (runtime w) !! p.

(** The options object [{}], and one carrying only a priority. *)
Definition noOptions : RequestOptions :=
  {| priority := JUndefined; timeoutMs := None |}.

Definition withPriority (v : JsValue) : RequestOptions :=
  {| priority := v; timeoutMs := None |}.

Definition withTimeout (ms : Z) : RequestOptions :=
  {| priority := JUndefined; timeoutMs := Some ms |}.

End ApiCallLimiter.

(** ** [ApiCallDeduplicator]: one call in flight per key *)

Module ApiCallDeduplicator.

(** What a promise is rejected with: [new Error(msg)] or a thrown value. *)
Inductive Reason :=
| ErrorOf (msg : string)
| Raised (v : JsValue).

Inductive Promise :=
| Pending
| Fulfilled (v : JsValue)
| Rejected (e : Reason).

(** How the promise of a task ends. *)
Inductive Settled :=
| Fulfils (v : JsValue)
| Rejects (e : Reason).

(** What calling [task()] does: it returns a plain value, returns a
    promise (which settles later), or throws. *)
Inductive Task :=
| ReturnsValue (v : JsValue)
| ReturnsPromise
| Throws (e : Reason).

(** [setTimeout] in [timeoutRequest]: the callback looks its request up by
    [key] when it fires. *)
Record Timer := {
  handle : nat;
  due : Z;
  key : string
}.

(** The reactions of the chain
    [Promise.resolve(task()).then(resolve).catch(reject).finally(...)],
    one microtask each. [call] is the promise that [resolve] and [reject]
    belong to, [timeoutId] the handle that [clearTimeoutRequest] clears. *)
Inductive Job :=
| ThenJob (call : nat) (k : string) (timeoutId : option nat) (outcome : Settled)
| CatchJob (call : nat) (k : string) (timeoutId : option nat) (failure : option Reason)
| FinallyJob (k : string) (timeoutId : option nat).

(** A task whose promise has not settled yet, with the reactions waiting
    for it. *)
Record Running := {
  call : nat;
  taskKey : string;
  timeoutId : option nat
}.

(** The [requests] map of the class (a key is mapped to the index of its
    promise in [calls]) and the runtime around it; [started] lists the keys
    whose task was invoked, in order. *)
Record State := {
  clock : Z;
  requests : gmap string nat;
  calls : list Promise;
  running : list Running;
  timers : list Timer;
  nextHandle : nat;
  jobs : list Job;
  started : list string
}.

Definition init (t : Z) : State :=
  {| clock := t; requests := ∅; calls := []; running := []; timers := [];
     nextHandle := 1; jobs := []; started := [] |}.

Definition with_requests (m : gmap string nat) (s : State) : State :=
  {| clock := clock s; requests := m; calls := calls s; running := running s;
     timers := timers s; nextHandle := nextHandle s; jobs := jobs s;
     started := started s |}.

Definition with_calls (cs : list Promise) (s : State) : State :=
  {| clock := clock s; requests := requests s; calls := cs; running := running s;
     timers := timers s; nextHandle := nextHandle s; jobs := jobs s;
     started := started s |}.

Definition with_running (rs : list Running) (s : State) : State :=
  {| clock := clock s; requests := requests s; calls := calls s; running := rs;
     timers := timers s; nextHandle := nextHandle s; jobs := jobs s;
     started := started s |}.

Definition with_timers (ts : list Timer) (next : nat) (s : State) : State :=
  {| clock := clock s; requests := requests s; calls := calls s; running := running s;
     timers := ts; nextHandle := next; jobs := jobs s; started := started s |}.

Definition with_jobs (js : list Job) (s : State) : State :=
  {| clock := clock s; requests := requests s; calls := calls s; running := running s;
     timers := timers s; nextHandle := nextHandle s; jobs := js;
     started := started s |}.

Definition with_started (ks : list string) (s : State) : State :=
  {| clock := clock s; requests := requests s; calls := calls s; running := running s;
     timers := timers s; nextHandle := nextHandle s; jobs := jobs s;
     started := ks |}.

Definition with_clock (t : Z) (s : State) : State :=
  {| clock := t; requests := requests s; calls := calls s; running := running s;
     timers := timers s; nextHandle := nextHandle s; jobs := jobs s;
     started := started s |}.

(** [resolve(value)] and [reject(reason)] of a call: only a pending
    promise changes. *)
Definition settle (c : nat) (p : Promise) (s : State) : State :=
  match calls s !! c with
  | Some Pending => with_calls (<[c := p]> (calls s)) s
  | _ => s
  end.

Definition clearTimeout (h : nat) (s : State) : State :=
  with_timers (List.filter (fun t => negb (Nat.eqb (handle t) h)) (timers s))
              (nextHandle s) s.

(** The closure returned by [timeoutRequest]. *)
Definition clearTimeoutRequest (timeoutId : option nat) (s : State) : State :=
  match timeoutId with
  | Some h => clearTimeout h s
  | None => s
  end.

(** [timeoutRequest(key, timeoutMs)]: no timer for [undefined] or a
    non-positive delay. *)
Definition timeoutRequest (k : string) (timeoutMs : option Z) (s : State)
    : option nat * State :=
  match timeoutMs with
  | None => (None, s)
  | Some ms =>
      if ms <=? 0 then (None, s)
      else
        let h := nextHandle s in
        (Some h,
         with_timers (timers s ++ [{| handle := h; due := clock s + timerDelay ms;
                                      key := k |}])
                     (S h) s)
  end.

(** The callback of that timer. *)
Definition timeoutFires (k : string) (s : State) : State :=
  match requests s !! k with
  | Some c =>
      with_requests (delete k (requests s))
        (settle c (Rejected (ErrorOf "Call timed out")) s)
  | None => s
  end.

Definition isRequestInProgress (k : string) (s : State) : bool :=
  bool_decide (is_Some (requests s !! k)).

(** [clearAllRequests(reason)]. The requests are rejected in the order of
    the map's traversal; rejections of different promises commute. *)
Definition clearAllRequests (reason : JsValue) (s : State) : Result State :=
  match reason with
  | JString msg =>
      if String.eqb msg "" then Throw "Invalid reason provided to clearAllRequests method"
      else
        Ok (with_requests ∅
              (map_fold (fun _ c acc => settle c (Rejected (ErrorOf msg)) acc) s
                        (requests s)))
  | _ => Throw "Invalid reason provided to clearAllRequests method"
  end.

(** [request(key, task, { timeout })]: the promise returned, and the new
    state. *)
Definition request (k : JsValue) (task : Task) (timeout : option Z) (s : State)
    : Result (nat * State) :=
  match k with
  | JString k =>
      if String.eqb k "" then Throw "Invalid key provided to call method"
      else
        match requests s !! k with
        | Some c => Ok (c, s)
        | None =>
            let c := length (calls s) in
            let s1 := with_requests (<[k := c]> (requests s))
                        (with_calls (calls s ++ [Pending]) s) in
            let '(timeoutId, s2) := timeoutRequest k timeout s1 in
            let s3 := with_started (started s2 ++ [k]) s2 in
            match task with
            | ReturnsValue v =>
                Ok (c, with_jobs (jobs s3 ++ [ThenJob c k timeoutId (Fulfils v)]) s3)
            | ReturnsPromise =>
                Ok (c, with_running
                         (running s3 ++ [{| call := c; taskKey := k;
                                            timeoutId := timeoutId |}]) s3)
            | Throws e =>
                let s4 := settle c (Rejected e) s3 in
                let s5 := clearTimeoutRequest timeoutId s4 in
                Ok (c, with_requests (delete k (requests s5)) s5)
            end
        end
  | _ => Throw "Invalid key provided to call method"
  end.

(** The promise returned by a task settles: its [then] reaction is
    queued. *)
Definition taskSettles (c : nat) (outcome : Settled) (s : State) : State :=
  match List.find (fun r => Nat.eqb (call r) c) (running s) with
  | Some r =>
      with_jobs (jobs s ++ [ThenJob c (taskKey r) (timeoutId r) outcome])
        (with_running (List.filter (fun r => negb (Nat.eqb (call r) c)) (running s)) s)
  | None => s
  end.

Definition runJob (j : Job) (s : State) : State :=
  match j with
  | ThenJob c k h (Fulfils v) =>
      let s1 := settle c (Fulfilled v) s in
      with_jobs (jobs s1 ++ [CatchJob c k h None]) s1
  | ThenJob c k h (Rejects e) =>
      with_jobs (jobs s ++ [CatchJob c k h (Some e)]) s
  | CatchJob c k h None =>
      with_jobs (jobs s ++ [FinallyJob k h]) s
  | CatchJob c k h (Some e) =>
      let s1 := settle c (Rejected e) s in
      with_jobs (jobs s1 ++ [FinallyJob k h]) s1
  | FinallyJob k h =>
      let s1 := clearTimeoutRequest h s in
      with_requests (delete k (requests s1)) s1
  end.

Definition findTimer (h : nat) (s : State) : option Timer :=
  List.find (fun t => Nat.eqb (handle t) h) (timers s).

Inductive Event :=
| CallRequest (k : JsValue) (task : Task) (timeout : option Z)
| CallClearAllRequests (reason : JsValue)
| TaskSettles (c : nat) (outcome : Settled)
| Microtask
| Fire (h : nat)
| Clock (t : Z).

Definition step (s : State) (e : Event) : State :=
  match e with
  | CallRequest k task timeout =>
      match request k task timeout s with
      | Ok (_, s') => s'
      | Throw _ => s
      end
  | CallClearAllRequests reason =>
      match clearAllRequests reason s with
      | Ok s' => s'
      | Throw _ => s
      end
  | TaskSettles c outcome => taskSettles c outcome s
  | Microtask =>
      match jobs s with
      | j :: js => runJob j (with_jobs js s)
      | [] => s
      end
  | Fire h =>
      match jobs s, findTimer h s with
      | [], Some t =>
          if due t <=? clock s then timeoutFires (key t) (clearTimeout h s) else s
      | _, _ => s
      end
  | Clock t => with_clock (Z.max t (clock s)) s
  end.

Definition run (s : State) (es : list Event) : State := fold_left step es s.

End ApiCallDeduplicator.

Import ApiCallLimiter.

(** * Vocabulary of the properties

    The scheduling code ([processQueue] and what it calls) leaves the rate
    configuration alone, and in the runtime it only fulfils pending promises
    and arms new timers; [advances] records exactly that. *)

Definition rateOf (l : Limiter) : Z * Z * Z * option nat * Z :=
  (maxRequestsPerSecond l, reductionNumber l, requestsPerSecond l,
   reduceLimitTimeout l, reduceLimitTimestamp l).

Definition fulfils (ps ps' : list PromiseState) : Prop :=
  length ps' = length ps /\
  forall p : nat,
    ps' !! p = ps !! p \/
    (ps' !! p = Some Fulfilled /\ exists k, ps !! p = Some (Pending k)).

Definition arms (r r' : Runtime) : Prop :=
  (nextHandle r <= nextHandle r')%nat /\
  exists new,
    timers r' = timers r ++ new /\
    Forall (fun t => (nextHandle r <= handle t < nextHandle r')%nat) new.

(** The timeout handles that suspended or resumable [requestSlot] calls
    still hold (their [timeoutHandle] variable). *)
Definition request_handle (r : Runtime) (h : nat) : Prop :=
  (exists p, In (ResumeRequestSlot p h) (jobs r)) \/
  (exists p, promises r !! p = Some (Pending (Some h))).

Record advances (w w' : World) : Prop := {
  adv_rate : rateOf (limiter w') = rateOf (limiter w);
  adv_clock : clock (runtime w') = clock (runtime w);
  adv_heap : heap (runtime w') = heap (runtime w);
  adv_outcomes : outcomes (runtime w') = outcomes (runtime w);
  adv_promises : fulfils (promises (runtime w)) (promises (runtime w'));
  adv_timers : arms (runtime w) (runtime w');
  adv_handles : forall h, request_handle (runtime w') h -> request_handle (runtime w) h
}.

Definition rate_ok (l : Limiter) : Prop :=
  1 <= requestsPerSecond l <= maxRequestsPerSecond l /\ 1 <= reductionNumber l.

Definition fresh_handles (r : Runtime) : Prop :=
  Forall (fun t => (handle t < nextHandle r)%nat) (timers r).

Definition sound (w : World) : Prop :=
  rate_ok (limiter w) /\ fresh_handles (runtime w).

(** Every handle a [requestSlot] call holds was issued, and a timer still
    armed under it is that call's own timeout. *)
Definition request_timers (r : Runtime) : Prop :=
  forall h, request_handle r h ->
    (h < nextHandle r)%nat /\
    forall tm, In tm (timers r) -> handle tm = h -> exists p, callback tm = RejectTimeout p.

Definition tidy (r : Runtime) : Prop :=
  fresh_handles r /\ request_timers r.

(** The restoration [tm] is the one the limiter has on record. *)
Definition scheduled (tm : Timer) (w : World) : Prop :=
  (handle tm < nextHandle (runtime w))%nat /\
  (reduceLimitTimeout (limiter w) = Some (handle tm) ->
   findTimer (handle tm) (runtime w) = Some tm).

Definition ended (t : Z) (q : RequestRunning) : RequestRunning :=
  {| startedAt := startedAt q; endedAt := Some t |}.

(** Nothing waits, nothing runs, and the scheduler is not active. *)
Definition unloaded (l : Limiter) : Prop :=
  queueLength l = 0%nat /\ isProcessing l = false /\ requestsRunning l = [] /\
  1 <= requestsPerSecond l.

(** A microtask that resumes a [requestSlot] call whose promise is
    fulfilled. *)
Definition resumable (r : Runtime) (j : Job) : Prop :=
  exists p h, j = ResumeRequestSlot p h /\ promises r !! p = Some Fulfilled.

(** As many running requests are counted, after pruning, as the rate
    allows. *)
Definition saturated (w : World) : Prop :=
  requestsPerSecond (limiter w)
    <= Z.of_nat (length (List.filter (keeps (clock (runtime w)) (heap (runtime w)))
                                     (requestsRunning (limiter w)))).

Definition timeout_only (r : Runtime) : Prop :=
  (forall p msg, promises r !! p = Some (Rejected msg) -> msg = "request timeout") /\
  (forall p msg, In (p, Failed msg) (outcomes r) -> msg = "request timeout").



(** The delay [requestSlot] passes to [setTimeout]. *)
Definition effectiveTimeout (options : RequestOptions) : Z :=
  match timeoutMs options with
  | None => 60000
  | Some ms => if ms =? 0 then 60000 else Z.max 0 ms
  end.

(** From [r] to [r'] timers were only armed, under consecutive new handles
    and with callbacks satisfying [P]. *)
Definition appends (P : Callback -> Prop) (r r' : Runtime) : Prop :=
  exists new,
    timers r' = timers r ++ new /\
    map handle new = seq (nextHandle r) (length new) /\
    nextHandle r' = (nextHandle r + length new)%nat /\
    Forall (fun tm => P (callback tm)) new.

Definition loop_callback (cb : Callback) : Prop :=
  cb = WakeQueue \/ cb = RestartQueue.

Definition unique_handles (r : Runtime) : Prop :=
  NoDup (map handle (timers r)).

(** The limiter has a restoration on record exactly when its timer is
    armed. *)
Definition restoration_on_record (w : World) : Prop :=
  (forall h, reduceLimitTimeout (limiter w) = Some h ->
     exists tm, In tm (timers (runtime w)) /\ handle tm = h /\
                callback tm = RestoreLimit) /\
  (forall tm, In tm (timers (runtime w)) -> callback tm = RestoreLimit ->
     reduceLimitTimeout (limiter w) = Some (handle tm)).

(** The scheduling loop will run again: its 50 ms timer is armed or its
    continuation is among the microtasks. *)
Definition wake_pending (r : Runtime) : Prop :=
  (exists tm, In tm (timers r) /\ callback tm = WakeQueue) \/
  In ResumeProcessQueue (jobs r).

Definition awake (w : World) : Prop :=
  (queueLength (limiter w) <> 0%nat -> isProcessing (limiter w) = true) /\
  (isProcessing (limiter w) = true -> wake_pending (runtime w)).

Definition orderly (w : World) : Prop :=
  tidy (runtime w) /\ unique_handles (runtime w) /\
  restoration_on_record w /\ awake w.

(** The waiting requests in the order the scheduler takes them: the high
    lane, then the normal lane, then the low lane, each from its head. *)
Definition waiting (l : Limiter) : list RequestWaiting :=
  requestsHigh l ++ requestsNormal l ++ requestsLow l.

(** [request.resolve()] for each request of a list, in order. *)
Definition resolveAll (qs : list RequestWaiting) (r : Runtime) : Runtime :=
  fold_left (fun r q => resolve q r) qs r.

(** The key whose entry a reaction of the chain will delete in the end. *)
Definition jobKey (j : ApiCallDeduplicator.Job) : string :=
  match j with
  | ApiCallDeduplicator.ThenJob _ k _ _ => k
  | ApiCallDeduplicator.CatchJob _ k _ _ => k
  | ApiCallDeduplicator.FinallyJob k _ => k
  end.

(** Every entry of the [requests] map still has its cleanup ahead: a task
    in flight or a reaction queued for its key. *)
Definition backed (s : ApiCallDeduplicator.State) : Prop :=
  forall k c, ApiCallDeduplicator.requests s !! k = Some c ->
    (exists r, In r (ApiCallDeduplicator.running s) /\
               ApiCallDeduplicator.taskKey r = k) \/
    (exists j, In j (ApiCallDeduplicator.jobs s) /\ jobKey j = k).

(** The tasks in flight belong to distinct promises of the table, and the
    handles of the armed timers have all been issued. *)
Definition wellformed (s : ApiCallDeduplicator.State) : Prop :=
  Forall (fun r => (ApiCallDeduplicator.call r < length (ApiCallDeduplicator.calls s))%nat)
         (ApiCallDeduplicator.running s) /\
  NoDup (map ApiCallDeduplicator.call (ApiCallDeduplicator.running s)) /\
  Forall (fun tm => (ApiCallDeduplicator.handle tm < ApiCallDeduplicator.nextHandle s)%nat)
         (ApiCallDeduplicator.timers s).

(** * Properties *)

(** ** The delay of a timer *)

Section TimerDelay.


Lemma timerDelay_outside (after : Z) :
  after < 1 \/ TIMEOUT_MAX < after -> timerDelay after = 1.
Proof.
  intros Hout. unfold timerDelay.
  destruct (Z.leb_spec 1 after); [|reflexivity].
  destruct (Z.leb_spec after TIMEOUT_MAX); [lia | reflexivity].
Qed.

Lemma timerDelay_bounds (after : Z) :
  1 <= timerDelay after <= TIMEOUT_MAX /\ (0 < after -> timerDelay after <= after).
Proof.
  unfold timerDelay, TIMEOUT_MAX.
  destruct (Z.leb_spec 1 after); destruct (Z.leb_spec after (2 ^ 31 - 1));
    simpl; lia.
Qed.

End TimerDelay.

(** ** Construction and the reduction amount *)

Section Construction.

Lemma constructor_ok (N : Z) :
  0 < N ->
  constructor N =
    Ok {| maxRequestsPerSecond := N;
          reductionNumber := Z.max 1 (N / 10);
          requestsPerSecond := N;
          reduceLimitTimeout := None;
          reduceLimitTimestamp := 0;
          requestsHigh := [];
          requestsNormal := [];
          requestsLow := [];
          requestsRunning := [];
          isProcessing := false |}.
Proof.
  intros HN. unfold constructor.
  destruct (Z.leb_spec N 0) as [Hle | _]; [lia | reflexivity].
Qed.

Lemma constructor_throws (N : Z) :
  N <= 0 -> constructor N = Throw "requestsPerSecond must be > 0".
Proof.
  intros HN. unfold constructor.
  destruct (Z.leb_spec N 0); [reflexivity | lia].
Qed.

Lemma tenth_as_percentage (N : Z) : N / 10 = N * 10 / 100.
Proof.
  replace 100 with (10 * 10) by reflexivity.
  rewrite (Z.mul_comm N 10).
  rewrite Z.div_mul_cancel_l by lia. reflexivity.
Qed.

End Construction.

(** C7, as amended. [ApiCallLimiter] takes no reduction percentage: for
    every positive integer [maxRate] up to [Number.MAX_SAFE_INTEGER] its
    reduction amount is [max(1, floor(maxRate * 10 / 100))], one tenth of
    the rate and at least 1. The older [CallLimiter], built with its
    default percentage of 25, uses [floor(maxRate * 25 / 100)] with no
    lower bound. (Above [MAX_SAFE_INTEGER] the rate is no longer an exact
    integer and the quotient of the code is the rounded one.) *)
Theorem reduction_amount_by_variant (N : Z) (HN : 0 < N)
    (Hsafe : N <= MAX_SAFE_INTEGER) :
  (exists l, constructor N = Ok l /\
             maxRequestsPerSecond l = N /\
             reductionNumber l = Z.max 1 (N * 10 / 100)) /\
  (exists r, CallLimiter.constructor N 25 = Ok r /\
             CallLimiter.maxRequestsPerSecond r = N /\
             CallLimiter.reductionNumber r = N * 25 / 100).
Proof.
  split.
  - eexists. split; [apply constructor_ok; exact HN|].
    simpl. split; [reflexivity|]. now rewrite tenth_as_percentage.
  - unfold CallLimiter.constructor.
    destruct (Z.leb_spec N 0) as [Hle | _]; [lia|].
    eexists. split; [reflexivity|]. simpl. split; reflexivity.
Qed.

Lemma reduction_amount_by_variant_witness :
  0 < 8 /\ 8 <= MAX_SAFE_INTEGER /\
  (exists l, constructor 8 = Ok l /\ maxRequestsPerSecond l = 8 /\
             reductionNumber l = Z.max 1 (8 * 10 / 100)) /\
  (exists r, CallLimiter.constructor 8 25 = Ok r /\
             CallLimiter.maxRequestsPerSecond r = 8 /\
             CallLimiter.reductionNumber r = 8 * 25 / 100).
Proof.
  split; [lia|]. split; [discriminate|].
  apply (reduction_amount_by_variant 8); [lia | discriminate].
Defined.

(** C7 as stated fails. With [maxRate = 8] and the fraction 25 the formula
    gives [max(1, floor(8 * 25 / 100)) = 2], but [ApiCallLimiter] reduces
    by 1; with [maxRate = 1] the formula gives 1, but [CallLimiter] with
    percentage 25 reduces by 0. *)
Lemma reduction_amount_not_quarter :
  (exists l, constructor 8 = Ok l /\
             reductionNumber l = 1 /\
             reductionNumber l <> Z.max 1 (8 * 25 / 100)) /\
  (exists r, CallLimiter.constructor 1 25 = Ok r /\
             CallLimiter.reductionNumber r = 0 /\
             CallLimiter.reductionNumber r <> Z.max 1 (1 * 25 / 100)).
Proof.
  split; eexists; (split; [reflexivity|]); split; [reflexivity | discriminate | reflexivity | discriminate].
Qed.

(** ** The three lanes *)

Section Lanes.

Variable l : Limiter.

Lemma with_lanes_id :
  with_lanes (requestsHigh l) (requestsNormal l) (requestsLow l) l = l.
Proof. destruct l; reflexivity. Qed.

Lemma queueLength_with_lanes (high normal low : list RequestWaiting) :
  queueLength (with_lanes high normal low l) =
    (length high + length normal + length low)%nat.
Proof. reflexivity. Qed.

Lemma with_lanes_twice (h1 n1 l1 h2 n2 l2 : list RequestWaiting) :
  with_lanes h2 n2 l2 (with_lanes h1 n1 l1 l) = with_lanes h2 n2 l2 l.
Proof. reflexivity. Qed.

End Lanes.

Lemma shiftNext_length (l l' : Limiter) (q : RequestWaiting) :
  shiftNext l = Some (q, l') -> queueLength l = S (queueLength l').
Proof.
  unfold shiftNext, queueLength.
  destruct (requestsHigh l) as [|qh high].
  - destruct (requestsNormal l) as [|qn normal].
    + destruct (requestsLow l) as [|ql low]; [discriminate|].
      intros [= <- <-]. reflexivity.
    + intros [= <- <-]. reflexivity.
  - intros [= <- <-]. reflexivity.
Qed.

Lemma shiftNext_order (l l' : Limiter) (q : RequestWaiting) :
  shiftNext l = Some (q, l') ->
  requestsHigh l ++ requestsNormal l ++ requestsLow l =
    q :: requestsHigh l' ++ requestsNormal l' ++ requestsLow l'.
Proof.
  unfold shiftNext.
  destruct (requestsHigh l) as [|qh high].
  - destruct (requestsNormal l) as [|qn normal].
    + destruct (requestsLow l) as [|ql low]; [discriminate|].
      intros [= <- <-]. reflexivity.
    + intros [= <- <-]. reflexivity.
  - intros [= <- <-]. reflexivity.
Qed.

Lemma shiftNext_none (l : Limiter) :
  shiftNext l = None <-> queueLength l = 0%nat.
Proof.
  unfold shiftNext, queueLength.
  destruct (requestsHigh l), (requestsNormal l), (requestsLow l);
    simpl; split; intros; try discriminate; reflexivity.
Qed.

Lemma shiftMany_all (n : nat) :
  forall l, queueLength l = n ->
    shiftMany n l = requestsHigh l ++ requestsNormal l ++ requestsLow l.
Proof.
  induction n as [|n IH]; intros l Hlen; simpl.
  - unfold queueLength in Hlen.
    destruct (requestsHigh l), (requestsNormal l), (requestsLow l);
      simpl in Hlen; try discriminate; reflexivity.
  - destruct (shiftNext l) as [[q l']|] eqn:Hs.
    + rewrite (shiftNext_order _ _ _ Hs). f_equal. apply IH.
      apply shiftNext_length in Hs. lia.
    + apply shiftNext_none in Hs. lia.
Qed.

Lemma shiftMany_take (n : nat) :
  forall l, shiftMany n l = take n (requestsHigh l ++ requestsNormal l ++ requestsLow l).
Proof.
  induction n as [|n IH]; intros l; simpl; [reflexivity|].
  destruct (shiftNext l) as [[q l']|] eqn:Hs.
  - rewrite (shiftNext_order _ _ _ Hs). simpl. f_equal. apply IH.
  - apply shiftNext_none in Hs. unfold queueLength in Hs.
    destruct (requestsHigh l), (requestsNormal l), (requestsLow l);
      simpl in Hs; try discriminate; reflexivity.
Qed.

(** The grant loop resolves what it dequeues, in the order of dequeue. *)
Lemma grantSlots_order (n : nat) :
  forall w, runtime (grantSlots n w)
            = fold_left (fun r q => resolve q r) (shiftMany n (limiter w)) (runtime w).
Proof.
  induction n as [|n IH]; intros w; simpl; [reflexivity|].
  destruct (shiftNext (limiter w)) as [[q l']|]; [|reflexivity].
  rewrite IH. reflexivity.
Qed.

(** The priority example of the specification: with rate 1 and the slot
    taken, a low-priority request waits; a high-priority request made after
    it is dequeued, fulfilled and resumed before it. *)
Lemma high_overtakes_waiting_low :
  exists w, create 100000 1 = Ok w /\
    let waiting := run w [CallRequestSlot noOptions; Microtask; Clock 100010;
                          CallRequestSlot (withPriority (JString "low"));
                          CallRequestSlot (withPriority (JString "high"))] in
    let w' := run waiting [CallRelease 0%nat; Clock 101060; Fire 3%nat;
                           Microtask; Microtask; Microtask] in
    requestsLow (limiter waiting) = [{| promise := 1 |}] /\
    requestsHigh (limiter waiting) = [{| promise := 2 |}] /\
    shiftMany 2 (limiter waiting) = [{| promise := 2 |}; {| promise := 1 |}] /\
    outcomes (runtime w')
      = [(0%nat, Granted 0%nat); (2%nat, Granted 1%nat); (1%nat, Granted 2%nat)].
Proof.
  eexists. split; [reflexivity|]. cbv zeta. repeat split; reflexivity.
Qed.

(** ** What the scheduler may change *)

Section Advances.

Lemma fulfils_refl (ps : list PromiseState) : fulfils ps ps.
Proof. split; [reflexivity | intros p; now left]. Qed.

Lemma fulfils_trans (ps1 ps2 ps3 : list PromiseState) :
  fulfils ps1 ps2 -> fulfils ps2 ps3 -> fulfils ps1 ps3.
Proof.
  intros [Hl1 H1] [Hl2 H2]. split; [congruence|].
  intros p. destruct (H2 p) as [E2 | [E2 [k2 P2]]].
  - rewrite E2. apply H1.
  - right. split; [exact E2|].
    destruct (H1 p) as [E1 | [E1 _]].
    + exists k2. congruence.
    + congruence.
Qed.

Lemma arms_refl (r : Runtime) : arms r r.
Proof.
  split; [lia|]. exists []. split; [now rewrite app_nil_r | constructor].
Qed.

Lemma arms_same (r r' : Runtime) :
  nextHandle r' = nextHandle r -> timers r' = timers r -> arms r r'.
Proof.
  intros Hn Ht. split; [lia|].
  exists []. split; [now rewrite app_nil_r | constructor].
Qed.

Lemma arms_trans (r1 r2 r3 : Runtime) : arms r1 r2 -> arms r2 r3 -> arms r1 r3.
Proof.
  intros [Hn1 (new1 & E1 & F1)] [Hn2 (new2 & E2 & F2)].
  split; [lia|]. exists (new1 ++ new2). split.
  - now rewrite E2, E1, app_assoc.
  - apply Forall_app. split.
    + eapply Forall_impl; [exact F1|]. simpl. intros t Ht. lia.
    + eapply Forall_impl; [exact F2|]. simpl. intros t Ht. lia.
Qed.

Lemma request_handle_same (r r' : Runtime) (h : nat) :
  jobs r' = jobs r -> promises r' = promises r ->
  request_handle r' h -> request_handle r h.
Proof. unfold request_handle. intros -> ->. auto. Qed.

Lemma advances_refl (w : World) : advances w w.
Proof.
  constructor; try reflexivity; [apply fulfils_refl | apply arms_refl | auto].
Qed.

Lemma advances_trans (w1 w2 w3 : World) :
  advances w1 w2 -> advances w2 w3 -> advances w1 w3.
Proof.
  intros [] []. constructor; try congruence.
  - eapply fulfils_trans; eassumption.
  - eapply arms_trans; eassumption.
  - auto.
Qed.

(** A step that touches neither promises nor microtasks. *)
Lemma advances_quiet (w w' : World) :
  rateOf (limiter w') = rateOf (limiter w) ->
  clock (runtime w') = clock (runtime w) ->
  heap (runtime w') = heap (runtime w) ->
  outcomes (runtime w') = outcomes (runtime w) ->
  promises (runtime w') = promises (runtime w) ->
  jobs (runtime w') = jobs (runtime w) ->
  arms (runtime w) (runtime w') ->
  advances w w'.
Proof.
  intros Hrate Hclk Hheap Hout Hps Hjobs Harm.
  constructor; try assumption.
  - rewrite Hps. apply fulfils_refl.
  - intros h. now apply request_handle_same.
Qed.

Lemma fulfils_settle (ps : list PromiseState) (p : nat) (k : option nat) :
  ps !! p = Some (Pending k) -> fulfils ps (<[p := Fulfilled]> ps).
Proof.
  intros Hp. split; [apply length_insert|].
  intros p'. destruct (decide (p = p')) as [<- | Hne].
  - right. split; [|eauto].
    apply list_lookup_insert_eq. eapply lookup_lt_Some; eassumption.
  - left. now apply list_lookup_insert_ne.
Qed.

(** Settling a promise hands its timeout handle over to the microtask
    that resumes [requestSlot]; no handle appears. *)
Lemma settle_handles (p : nat) (s : PromiseState) (r : Runtime) (h : nat) :
  (forall k, s <> Pending k) ->
  request_handle (settle p s r) h -> request_handle r h.
Proof.
  intros Hs. unfold settle.
  destruct (promises r !! p) as [[k| |msg]|] eqn:Hp; try tauto.
  assert (Hold : forall p' h', <[p := s]> (promises r) !! p' = Some (Pending (Some h')) ->
                   promises r !! p' = Some (Pending (Some h'))).
  { intros p' h'. destruct (decide (p = p')) as [<- | Hne].
    - rewrite list_lookup_insert_eq by (eapply lookup_lt_Some; eassumption).
      intros [= E]. now destruct (Hs (Some h')).
    - now rewrite list_lookup_insert_ne by assumption. }
  unfold request_handle.
  destruct k as [hk|]; simpl; intros [[p' Hin] | [p' Hp']].
  - apply in_app_or in Hin as [Hin | [[= <- <-] | []]]; [left; eauto | right; eauto].
  - right. exists p'. now apply Hold.
  - left. eauto.
  - right. exists p'. now apply Hold.
Qed.

Lemma resolve_advances (l l' : Limiter) (q : RequestWaiting) (r : Runtime) :
  rateOf l' = rateOf l ->
  advances {| limiter := l; runtime := r |}
           {| limiter := l'; runtime := resolve q r |}.
Proof.
  intros Hrate.
  assert (Hh : forall h, request_handle (resolve q r) h -> request_handle r h).
  { intros h. apply settle_handles. discriminate. }
  revert Hh. unfold resolve, settle.
  destruct (promises r !! promise q) as [[k| |msg]|] eqn:Hp; intros Hh;
    try (apply advances_quiet; simpl; try assumption; try reflexivity; apply arms_refl).
  destruct k as [h|]; constructor; simpl; try assumption; try reflexivity;
    try (eapply fulfils_settle; eassumption); now apply arms_same.
Qed.

Lemma setTimeout_arms (cb : Callback) (delay : Z) (r : Runtime) :
  arms r (snd (setTimeout cb delay r)).
Proof.
  unfold arms, setTimeout; cbn. split; [lia|].
  eexists. split; [reflexivity|]. repeat constructor; cbn; lia.
Qed.

Lemma setImmediate_arms (cb : Callback) (r : Runtime) :
  arms r (snd (setImmediate cb r)).
Proof.
  unfold arms, setImmediate; cbn. split; [lia|].
  eexists. split; [reflexivity|]. repeat constructor; cbn; lia.
Qed.

Lemma shiftNext_rate (l l' : Limiter) (q : RequestWaiting) :
  shiftNext l = Some (q, l') -> rateOf l' = rateOf l.
Proof.
  unfold shiftNext.
  destruct (requestsHigh l); [destruct (requestsNormal l);
    [destruct (requestsLow l); [discriminate|]|]|];
    intros [= <- <-]; reflexivity.
Qed.

Lemma grantSlots_advances (n : nat) : forall w, advances w (grantSlots n w).
Proof.
  induction n as [|n IH]; intros w; simpl; [apply advances_refl|].
  destruct (shiftNext (limiter w)) as [[q l']|] eqn:Hs; [|apply advances_refl].
  eapply advances_trans; [|apply IH].
  destruct w as [l r]. apply resolve_advances.
  eapply shiftNext_rate; eassumption.
Qed.

Lemma finish_advances (w : World) : advances w (finish w).
Proof.
  unfold finish. apply advances_quiet; simpl; try reflexivity.
  apply (setImmediate_arms RestartQueue).
Qed.

Lemma sleep_advances (w : World) : advances w (sleep w).
Proof.
  unfold sleep. apply advances_quiet; simpl; try reflexivity.
  apply (setTimeout_arms WakeQueue 50).
Qed.

Lemma getAvailableSlots_advances (w : World) :
  advances w (snd (getAvailableSlots w)).
Proof.
  unfold getAvailableSlots; simpl.
  apply advances_quiet; simpl; try reflexivity. apply arms_refl.
Qed.

Lemma queueLoop_advances (fuel : nat) :
  forall w w', queueLoop fuel w = Some w' -> advances w w'.
Proof.
  induction fuel as [|fuel IH]; intros w w'; cbn [queueLoop]; [discriminate|].
  destruct (queueLength (limiter w) =? 0)%nat.
  - intros [= <-]. apply finish_advances.
  - pose proof (getAvailableSlots_advances w) as Hg.
    destruct (getAvailableSlots w) as [availableSlots w1]; simpl in Hg.
    destruct (availableSlots =? 0).
    + intros [= <-]. eapply advances_trans; [exact Hg | apply sleep_advances].
    + intros Hq. eapply advances_trans; [exact Hg|].
      eapply advances_trans; [apply grantSlots_advances | eauto].
Qed.

Lemma runQueue_advances (w : World) : advances w (runQueue w).
Proof.
  unfold runQueue.
  destruct (queueLoop _ w) as [w'|] eqn:Hq; simpl.
  - eapply queueLoop_advances; eassumption.
  - apply advances_refl.
Qed.

Lemma processQueue_advances (w : World) : advances w (processQueue w).
Proof.
  unfold processQueue.
  destruct (queueLength (limiter w) =? 0)%nat; [apply advances_refl|].
  destruct (isProcessing (limiter w)); [apply advances_refl|].
  eapply advances_trans; [|apply runQueue_advances].
  apply advances_quiet; simpl; try reflexivity. apply arms_refl.
Qed.

End Advances.

(** ** Termination of the scheduling loop *)

Section Termination.

Lemma grantSlots_length_le (n : nat) :
  forall w, (queueLength (limiter (grantSlots n w)) <= queueLength (limiter w))%nat.
Proof.
  induction n as [|n IH]; intros w; simpl; [lia|].
  destruct (shiftNext (limiter w)) as [[q l']|] eqn:Hs; [|lia].
  apply shiftNext_length in Hs.
  etransitivity; [apply IH|]. simpl. lia.
Qed.

Lemma grantSlots_length_lt (n : nat) (w : World) :
  (0 < n)%nat -> (0 < queueLength (limiter w))%nat ->
  (queueLength (limiter (grantSlots n w)) < queueLength (limiter w))%nat.
Proof.
  intros Hn Hq. destruct n as [|n]; [lia|]. simpl.
  destruct (shiftNext (limiter w)) as [[q l']|] eqn:Hs.
  - apply shiftNext_length in Hs.
    eapply Nat.le_lt_trans; [apply grantSlots_length_le|]. simpl. lia.
  - apply shiftNext_none in Hs. lia.
Qed.

Lemma getAvailableSlots_lanes (w : World) :
  queueLength (limiter (snd (getAvailableSlots w))) = queueLength (limiter w).
Proof. reflexivity. Qed.

Lemma getAvailableSlots_nonneg (w : World) : 0 <= fst (getAvailableSlots w).
Proof. unfold getAvailableSlots; cbn. lia. Qed.

(** The loop always reaches a suspension point or its end: the fuel
    given by [runQueue] is never used up. *)
Lemma queueLoop_total (fuel : nat) :
  forall w, (queueLength (limiter w) < fuel)%nat -> is_Some (queueLoop fuel w).
Proof.
  induction fuel as [|fuel IH]; intros w Hlen; [lia|]. cbn [queueLoop].
  destruct (Nat.eqb_spec (queueLength (limiter w)) 0) as [|Hne]; [eauto|].
  pose proof (getAvailableSlots_lanes w) as Hl.
  pose proof (getAvailableSlots_nonneg w) as Hnn.
  destruct (getAvailableSlots w) as [availableSlots w1]; simpl in Hl, Hnn.
  destruct (Z.eqb_spec availableSlots 0) as [|Hav]; [eauto|].
  apply IH.
  assert (queueLength (limiter (grantSlots (Z.to_nat availableSlots) w1))
            < queueLength (limiter w1))%nat; [|lia].
  apply grantSlots_length_lt; lia.
Qed.

Lemma runQueue_spec (w : World) :
  queueLoop (S (queueLength (limiter w))) w = Some (runQueue w).
Proof.
  unfold runQueue.
  destruct (queueLoop_total (S (queueLength (limiter w))) w) as [w' Hw']; [lia|].
  now rewrite Hw'.
Qed.

End Termination.

(** ** Invariants of every run *)

Section Invariants.

Lemma rate_ok_rateOf (l l' : Limiter) :
  rateOf l' = rateOf l -> rate_ok l -> rate_ok l'.
Proof. unfold rateOf, rate_ok. intros [= -> -> -> _ _]. auto. Qed.

Lemma fresh_arms (r r' : Runtime) : arms r r' -> fresh_handles r -> fresh_handles r'.
Proof.
  unfold fresh_handles. intros [Hn (new & -> & Hnew)] Hf.
  apply Forall_app. split.
  - eapply Forall_impl; [exact Hf|]. simpl. intros t Ht. lia.
  - eapply Forall_impl; [exact Hnew|]. simpl. intros t Ht. lia.
Qed.

Lemma fresh_clearTimeout (h : nat) (r : Runtime) :
  fresh_handles r -> fresh_handles (clearTimeout h r).
Proof.
  unfold fresh_handles, clearTimeout; simpl. intros Hf.
  rewrite List.Forall_forall in *. intros t Ht.
  apply filter_In in Ht. apply Hf, Ht.
Qed.

Lemma sound_advances (w w' : World) : advances w w' -> sound w -> sound w'.
Proof.
  intros [Hrate _ _ _ _ Harm _] [Hr Hf]. split.
  - eapply rate_ok_rateOf; eassumption.
  - eapply fresh_arms; eassumption.
Qed.

Lemma sound_create (t N : Z) (w : World) : create t N = Ok w -> sound w.
Proof.
  unfold create, constructor.
  destruct (Z.leb_spec N 0); [discriminate|].
  intros [= <-]. split; [unfold rate_ok; simpl; lia | constructor].
Qed.

Lemma sound_pushRequest (options : RequestOptions) (w : World) :
  sound w -> sound (snd (pushRequest options w)).
Proof.
  unfold pushRequest, enqueue; simpl. intros [Hr Hf].
  destruct (strict_eq_string _ "high"); [|destruct (strict_eq_string _ "normal")];
    split; assumption.
Qed.

Lemma sound_requestSlot (options : RequestOptions) (w : World) :
  sound w -> sound (snd (requestSlot options w)).
Proof.
  intros Hs. unfold requestSlot.
  pose proof (sound_pushRequest options w Hs) as H1.
  destruct (pushRequest options w) as [p w1]; simpl in H1.
  pose proof (sound_advances _ _ (processQueue_advances w1) H1) as [Hr Hf].
  set (timeout := if truthy_time (timeoutMs options) then _ else _).
  pose proof (setTimeout_arms (RejectTimeout p) timeout (runtime (processQueue w1))) as Harm.
  destruct (setTimeout _ timeout _) as [h r2]; simpl in *.
  split; simpl; [assumption|].
  apply (fresh_arms _ _ Harm) in Hf.
  unfold await. destruct (promises r2 !! p) as [[k| |msg]|]; assumption.
Qed.

Lemma sound_reduceLimitTemporary (d : Z) (w w' : World) :
  reduceLimitTemporary d w = Ok w' -> sound w -> sound w'.
Proof.
  unfold reduceLimitTemporary. intros Hred [Hr Hf].
  destruct (d <=? 0); [discriminate|].
  destruct (_ <? 1000); [injection Hred as <-; split; assumption|].
  set (r1 := match reduceLimitTimeout (limiter w) with
             | Some h => clearTimeout h (runtime w) | None => runtime w end) in *.
  assert (Hf1 : fresh_handles r1).
  { subst r1. destruct (reduceLimitTimeout (limiter w));
      [now apply fresh_clearTimeout | assumption]. }
  pose proof (setTimeout_arms RestoreLimit d r1) as Harm.
  destruct (setTimeout RestoreLimit d r1) as [h r2]; simpl in Harm.
  injection Hred as <-. split; simpl.
  - unfold rate_ok in *; simpl. lia.
  - eapply fresh_arms; eassumption.
Qed.

Lemma sound_resumeRequestSlot (p h : nat) (w : World) :
  sound w -> sound (resumeRequestSlot p h w).
Proof.
  unfold resumeRequestSlot. intros [Hr Hf].
  destruct (promises (runtime w) !! p) as [[k| |msg]|]; try (split; assumption).
  split; [assumption|]. simpl. now apply fresh_clearTimeout.
Qed.

Lemma sound_runCallback (cb : Callback) (w : World) :
  sound w -> sound (runCallback cb w).
Proof.
  intros Hs. destruct cb as [p| | |]; simpl.
  - destruct Hs as [Hr Hf]. split; [assumption|]. simpl.
    unfold reject, settle.
    destruct (promises (runtime w) !! p) as [[[h|]| |msg]|]; assumption.
  - destruct Hs as [Hr Hf]. split; [|assumption].
    unfold rate_ok in *; simpl. lia.
  - destruct Hs as [Hr Hf]. split; assumption.
  - eapply sound_advances; [apply processQueue_advances | assumption].
Qed.

Lemma sound_step (w : World) (e : Event) : sound w -> sound (step w e).
Proof.
  intros Hs. destruct e as [options|d|request| |h|t]; simpl.
  - now apply sound_requestSlot.
  - destruct (reduceLimitTemporary d w) as [w'|msg] eqn:Hred; [|assumption].
    eapply sound_reduceLimitTemporary; eassumption.
  - destruct Hs as [Hr Hf]. split; assumption.
  - destruct (jobs (runtime w)) as [|j js]; [assumption|].
    assert (Hs' : sound (on_runtime (with_jobs js) w))
      by (destruct Hs; split; assumption).
    destruct j as [p h|]; simpl.
    + now apply sound_resumeRequestSlot.
    + eapply sound_advances; [apply runQueue_advances | assumption].
  - destruct (jobs (runtime w)); [|assumption].
    destruct (findTimer h (runtime w)) as [tm|]; [|assumption].
    destruct (due tm <=? clock (runtime w)); [|assumption].
    apply sound_runCallback. destruct Hs as [Hr Hf].
    split; [assumption|]. simpl. now apply fresh_clearTimeout.
  - destruct Hs as [Hr Hf]. split; assumption.
Qed.

Lemma sound_run (es : list Event) : forall w, sound w -> sound (run w es).
Proof.
  unfold run. induction es as [|e es IH]; intros w Hs; simpl; [assumption|].
  apply IH. now apply sound_step.
Qed.

Lemma maxRate_step (w : World) (e : Event) :
  maxRequestsPerSecond (limiter (step w e)) = maxRequestsPerSecond (limiter w).
Proof.
  assert (Hadv : forall w1 w2, advances w1 w2 ->
            maxRequestsPerSecond (limiter w2) = maxRequestsPerSecond (limiter w1)).
  { intros w1 w2 [Hrate _ _ _ _ _ _]. unfold rateOf in Hrate. congruence. }
  destruct e as [options|d|request| |h|t]; simpl; try reflexivity.
  - rewrite (Hadv _ _ (processQueue_advances _)). unfold enqueue; simpl.
    destruct (strict_eq_string _ "high"); [|destruct (strict_eq_string _ "normal")];
      reflexivity.
  - unfold reduceLimitTemporary.
    destruct (d <=? 0); [reflexivity|].
    destruct (_ <? 1000); [reflexivity|].
    destruct (setTimeout _ _ _); reflexivity.
  - destruct (jobs (runtime w)) as [|[p h|] js]; simpl; [reflexivity| |].
    + unfold resumeRequestSlot; simpl.
      destruct (promises (runtime w) !! p) as [[k| |msg]|]; reflexivity.
    + now rewrite (Hadv _ _ (runQueue_advances _)).
  - destruct (jobs (runtime w)); [|reflexivity].
    destruct (findTimer h (runtime w)) as [tm|]; [|reflexivity].
    destruct (due tm <=? clock (runtime w)); [|reflexivity].
    destruct (callback tm); simpl; try reflexivity.
    now rewrite (Hadv _ _ (processQueue_advances _)).
Qed.

Lemma maxRate_run (es : list Event) :
  forall w, maxRequestsPerSecond (limiter (run w es)) = maxRequestsPerSecond (limiter w).
Proof.
  unfold run. induction es as [|e es IH]; intros w; simpl; [reflexivity|].
  rewrite IH. apply maxRate_step.
Qed.

End Invariants.

(** ** The effective rate *)

Section OlderVariants.

Lemma CallLimiter_rate_floor (ops : list CallLimiter.Op) :
  forall r, 1 <= CallLimiter.maxRequestsPerSecond r ->
    1 <= CallLimiter.requestsPerSecond r ->
    1 <= CallLimiter.requestsPerSecond (fold_left CallLimiter.step ops r).
Proof.
  induction ops as [|o ops IH]; intros r Hmax Hcur; simpl; [assumption|].
  apply IH; destruct o as [now d|]; simpl; try assumption.
  - unfold CallLimiter.reduceLimitTemporary.
    destruct (d <=? 0); [assumption|].
    destruct (_ <? 1000); assumption.
  - unfold CallLimiter.reduceLimitTemporary.
    destruct (d <=? 0); [assumption|].
    destruct (_ <? 1000); [assumption|]. simpl. lia.
Qed.

Lemma RateLimiter_rate_floor (ops : list RateLimiter.Op) :
  forall r, 1 <= RateLimiter.maxRequestsPerSecond r ->
    1 <= RateLimiter.requestsPerSecond r ->
    1 <= RateLimiter.requestsPerSecond (fold_left RateLimiter.step ops r).
Proof.
  induction ops as [|o ops IH]; intros r Hmax Hcur; simpl; [assumption|].
  apply IH; destruct o; simpl; try assumption. lia.
Qed.

End OlderVariants.

(** C9. For every [maxRate >= 1] the limiter can be built, and after every
    sequence of events (calls of [requestSlot] and [reduceLimitTemporary] at
    any time, releases, microtasks, timers firing, among them the
    restoration) its effective rate is at least 1. The same holds of the
    rate of the two older variants under their reductions and
    restorations. *)
Theorem current_rate_at_least_one (N : Z) (HN : 1 <= N) :
  (forall t : Z, exists w0,
      create t N = Ok w0 /\
      forall es, 1 <= requestsPerSecond (limiter (run w0 es))) /\
  (forall percentage : Z, exists r0,
      CallLimiter.constructor N percentage = Ok r0 /\
      forall ops, 1 <= CallLimiter.requestsPerSecond (fold_left CallLimiter.step ops r0)) /\
  (exists r0,
      RateLimiter.constructor N = Ok r0 /\
      forall ops, 1 <= RateLimiter.requestsPerSecond (fold_left RateLimiter.step ops r0)).
Proof.
  split; [|split].
  - intros t. unfold create. rewrite constructor_ok by lia.
    eexists. split; [reflexivity|]. intros es.
    match goal with |- context [run ?w es] => assert (Hs : sound w) end.
    { split; [unfold rate_ok; simpl; lia | constructor]. }
    apply (sound_run es) in Hs. destruct Hs as [[Hr _] _]. lia.
  - intros percentage. unfold CallLimiter.constructor.
    destruct (Z.leb_spec N 0); [lia|].
    eexists. split; [reflexivity|]. intros ops.
    apply CallLimiter_rate_floor; simpl; lia.
  - unfold RateLimiter.constructor.
    destruct (Z.leb_spec N 0); [lia|].
    eexists. split; [reflexivity|]. intros ops.
    apply RateLimiter_rate_floor; simpl; lia.
Qed.

Lemma current_rate_at_least_one_witness :
  1 <= 1 /\
  (exists w0, create 100000 1 = Ok w0 /\
     1 <= requestsPerSecond (limiter (run w0
            [CallReduceLimitTemporary 5000; Clock 102000;
             CallReduceLimitTemporary 5000]))).
Proof.
  split; [lia|].
  destruct (current_rate_at_least_one 1 ltac:(lia)) as [H _].
  destruct (H 100000) as [w0 [Hc Hr]].
  exists w0. split; [exact Hc | apply Hr].
Defined.

(** ** Debounced reduction *)

Section Debounce.

Variables (w : World) (d : Z).
Hypothesis Hd : 0 < d.



End Debounce.


(** ** The release callback *)

Section Release.


Lemma release_limiter (request : nat) (w : World) :
  limiter (release request w) = limiter w.
Proof. reflexivity. Qed.

(** The two tests of the pruning loop let a request pass. *)
Lemma expired_false (now : Z) (q : RequestRunning) :
  expired now q = false <->
  match endedAt q with
  | Some e => e = 0 \/ now - 1000 <= e
  | None => True
  end /\
  (startedAt q = 0 \/ now - 65000 <= startedAt q).
Proof.
  unfold expired, truthy_time. rewrite orb_false_iff, !andb_false_iff.
  rewrite !negb_false_iff, !Z.ltb_ge, !Z.eqb_eq.
  destruct (endedAt q) as [e|]; simpl.
  - rewrite negb_false_iff, Z.eqb_eq. tauto.
  - intuition discriminate.
Qed.

Lemma ended_last (t1 t2 : Z) (q : RequestRunning) :
  ended t2 (ended t1 q) = ended t2 q.
Proof. reflexivity. Qed.

End Release.




(** ** Priorities that are not one of the three tiers *)

Section Priority.

Lemma pushRequest_fst (options : RequestOptions) (w : World) :
  fst (pushRequest options w) = length (promises (runtime w)).
Proof. reflexivity. Qed.

Lemma pushRequest_promises (options : RequestOptions) (w : World) :
  promises (runtime (snd (pushRequest options w)))
    = promises (runtime w) ++ [Pending None].
Proof. reflexivity. Qed.

Lemma strict_eq_string_spec (v : JsValue) (lit : string) :
  strict_eq_string v lit = true <-> v = JString lit.
Proof.
  destruct v as [| |b|n|s]; simpl; split; try discriminate.
  - intros H. apply String.eqb_eq in H. now subst.
  - intros [= ->]. apply String.eqb_refl.
Qed.

Lemma strict_eq_string_false (v : JsValue) (lit : string) :
  v <> JString lit -> strict_eq_string v lit = false.
Proof.
  intros Hne. destruct (strict_eq_string v lit) eqn:E; [|reflexivity].
  apply strict_eq_string_spec in E. contradiction.
Qed.

(** When [requestSlot] returns, its promise is fulfilled (a slot was
    free at once) or pending with the timeout armed; it is never
    rejected by the call itself. *)
Lemma requestSlot_promise (options : RequestOptions) (w : World) :
  let pw := requestSlot options w in
  fst pw = length (promises (runtime w)) /\
  (promiseOf (snd pw) (fst pw) = Some Fulfilled \/
   exists h, promiseOf (snd pw) (fst pw) = Some (Pending (Some h))).
Proof.
  cbv zeta. unfold requestSlot.
  pose proof (pushRequest_fst options w) as Hp.
  pose proof (pushRequest_promises options w) as Hps.
  destruct (pushRequest options w) as [p w1]; simpl in Hp, Hps. subst p.
  destruct (processQueue_advances w1) as [_ _ _ _ [Hlen Hful] _ _].
  set (timeout := if truthy_time (timeoutMs options) then _ else _).
  set (p := length (promises (runtime w))) in *.
  assert (Hw1 : promises (runtime w1) !! p = Some (Pending None)).
  { rewrite Hps. subst p. now rewrite lookup_app_r, Nat.sub_diag by lia. }
  unfold setTimeout, await, promiseOf; simpl. split; [reflexivity|].
  destruct (Hful p) as [Hsame | [Hnow _]].
  - rewrite Hsame, Hw1. right. eexists. simpl.
    apply list_lookup_insert_eq. rewrite Hlen. eapply lookup_lt_Some; eassumption.
  - rewrite Hnow. left. simpl. exact Hnow.
Qed.

End Priority.

(** ** The only failure of [requestSlot] is the timeout *)

Section TimeoutOnly.

Lemma timeout_only_advances (w w' : World) :
  advances w w' -> timeout_only (runtime w) -> timeout_only (runtime w').
Proof.
  intros [_ _ _ Hout [_ Hful] _ _] [Hp Ho]. split.
  - intros p msg Hrej. destruct (Hful p) as [Hsame | [Hnow _]].
    + apply (Hp p). congruence.
    + congruence.
  - rewrite Hout. exact Ho.
Qed.

Lemma timeout_only_promises (r : Runtime) (ps : list PromiseState) (r' : Runtime) :
  promises r' = ps -> outcomes r' = outcomes r ->
  (forall p msg, ps !! p = Some (Rejected msg) ->
     promises r !! p = Some (Rejected msg) \/ msg = "request timeout") ->
  timeout_only r -> timeout_only r'.
Proof.
  intros Hps Hout Hnew [Hp Ho]. split.
  - intros p msg. rewrite Hps. intros Hrej.
    destruct (Hnew p msg Hrej) as [Hold | ->]; [eapply Hp; eassumption | reflexivity].
  - rewrite Hout. exact Ho.
Qed.

Lemma timeout_only_same (r r' : Runtime) :
  promises r' = promises r -> outcomes r' = outcomes r ->
  timeout_only r -> timeout_only r'.
Proof.
  intros Hps Hout. apply (timeout_only_promises r (promises r)); auto.
Qed.

Lemma timeout_only_await (p h : nat) (r : Runtime) :
  timeout_only r -> timeout_only (await p h r).
Proof.
  unfold await.
  destruct (promises r !! p) as [[k| |msg]|] eqn:Hp;
    try (apply timeout_only_same; reflexivity).
  apply (timeout_only_promises r (<[p := Pending (Some h)]> (promises r)));
    [reflexivity | reflexivity |].
  intros p' msg. destruct (decide (p = p')) as [<- | Hne].
  - rewrite list_lookup_insert_eq by (eapply lookup_lt_Some; eassumption).
    discriminate.
  - rewrite list_lookup_insert_ne by assumption. now left.
Qed.

Lemma timeout_only_requestSlot (options : RequestOptions) (w : World) :
  timeout_only (runtime w) -> timeout_only (runtime (snd (requestSlot options w))).
Proof.
  intros Ht. unfold requestSlot.
  assert (H1 : timeout_only (runtime (snd (pushRequest options w)))).
  { apply (timeout_only_promises (runtime w) (promises (runtime w) ++ [Pending None]));
      [reflexivity | reflexivity | | exact Ht].
    intros p msg Hrej. left.
    apply lookup_app_Some in Hrej as [Hrej | [_ Hrej]]; [exact Hrej|].
    destruct (p - length (promises (runtime w)))%nat; discriminate. }
  destruct (pushRequest options w) as [p w1]; simpl in H1.
  apply (timeout_only_advances _ _ (processQueue_advances w1)) in H1.
  set (timeout := if truthy_time (timeoutMs options) then _ else _).
  unfold setTimeout; simpl. apply timeout_only_await.
  revert H1. apply timeout_only_same; reflexivity.
Qed.

Lemma timeout_only_reject (p : nat) (r : Runtime) :
  timeout_only r -> timeout_only (reject p "request timeout" r).
Proof.
  unfold reject, settle. intros Ht.
  destruct (promises r !! p) as [[k| |msg]|] eqn:Hp; try exact Ht.
  assert (Hins : timeout_only
            (with_promises (<[p := Rejected "request timeout"]> (promises r)) r)).
  { apply (timeout_only_promises r (<[p := Rejected "request timeout"]> (promises r)));
      [reflexivity | reflexivity | | exact Ht].
    intros p' msg. destruct (decide (p = p')) as [<- | Hne].
    - rewrite list_lookup_insert_eq by (eapply lookup_lt_Some; eassumption).
      intros [= <-]. now right.
    - rewrite list_lookup_insert_ne by assumption. now left. }
  destruct k as [h|]; [|exact Hins].
  revert Hins. apply timeout_only_same; reflexivity.
Qed.

Lemma timeout_only_resumeRequestSlot (p h : nat) (w : World) :
  timeout_only (runtime w) -> timeout_only (runtime (resumeRequestSlot p h w)).
Proof.
  unfold resumeRequestSlot. intros [Hp Ho].
  destruct (promises (runtime w) !! p) as [[k| |msg]|] eqn:Hpp;
    try (split; assumption); split; simpl; try exact Hp.
  - intros p' msg Hin. apply in_app_or in Hin as [Hin | [[=] | []]].
    eapply Ho; eassumption.
  - intros p' msg' Hin. apply in_app_or in Hin as [Hin | [[= _ <-] | []]].
    + eapply Ho; eassumption.
    + eapply Hp; eassumption.
Qed.

Lemma timeout_only_step (w : World) (e : Event) :
  timeout_only (runtime w) -> timeout_only (runtime (step w e)).
Proof.
  intros Ht. destruct e as [options|d|request| |h|t]; cbn [step].
  - now apply timeout_only_requestSlot.
  - unfold reduceLimitTemporary.
    destruct (d <=? 0); [exact Ht|].
    destruct (_ <? 1000); [exact Ht|].
    destruct (reduceLimitTimeout (limiter w)); simpl;
      revert Ht; apply timeout_only_same; reflexivity.
  - revert Ht. apply timeout_only_same; reflexivity.
  - destruct (jobs (runtime w)) as [|j js]; [exact Ht|].
    assert (Ht' : timeout_only (runtime (on_runtime (with_jobs js) w)))
      by (revert Ht; apply timeout_only_same; reflexivity).
    destruct j as [p h|]; cbn [runJob].
    + now apply timeout_only_resumeRequestSlot.
    + eapply timeout_only_advances; [apply runQueue_advances | exact Ht'].
  - destruct (jobs (runtime w)); [|exact Ht].
    destruct (findTimer h (runtime w)) as [tm|]; [|exact Ht].
    destruct (due tm <=? clock (runtime w)); [|exact Ht].
    assert (Ht' : timeout_only (runtime (on_runtime (clearTimeout h) w)))
      by (revert Ht; apply timeout_only_same; reflexivity).
    destruct (callback tm) as [p| | |]; cbn [runCallback].
    + now apply timeout_only_reject.
    + exact Ht'.
    + revert Ht'. apply timeout_only_same; reflexivity.
    + eapply timeout_only_advances; [apply processQueue_advances | exact Ht'].
  - revert Ht. apply timeout_only_same; reflexivity.
Qed.

Lemma timeout_only_run (es : list Event) :
  forall w, timeout_only (runtime w) -> timeout_only (runtime (run w es)).
Proof.
  unfold run. induction es as [|e es IH]; intros w Ht; simpl; [assumption|].
  apply IH. now apply timeout_only_step.
Qed.

Lemma pushRequest_length (options : RequestOptions) (w : World) :
  queueLength (limiter (snd (pushRequest options w))) = S (queueLength (limiter w)).
Proof.
  unfold pushRequest, enqueue, queueLength; simpl.
  destruct (strict_eq_string _ "high"); [|destruct (strict_eq_string _ "normal")];
    simpl; rewrite length_app; simpl; lia.
Qed.

End TimeoutOnly.

(** C6 as stated fails: a priority outside the three tiers is accepted.
    On a fresh limiter of rate 1 the call with priority ['urgent'] (and
    likewise with the number 7) is queued in the low lane, its promise is
    fulfilled at once and it ends up holding a slot. *)
Lemma invalid_priority_is_granted :
  exists w, create 100000 1 = Ok w /\
    requestsLow (limiter (snd (pushRequest (withPriority (JString "urgent")) w)))
      = [{| promise := 0 |}] /\
    (let w' := run w [CallRequestSlot (withPriority (JString "urgent")); Microtask] in
     promiseOf w' 0 = Some Fulfilled /\
     outcomes (runtime w') = [(0%nat, Granted 0%nat)]) /\
    (let w' := run w [CallRequestSlot (withPriority (JNumber 7)); Microtask] in
     promiseOf w' 0 = Some Fulfilled /\
     outcomes (runtime w') = [(0%nat, Granted 0%nat)]).
Proof.
  eexists. split; [reflexivity|]. cbv zeta. repeat split; reflexivity.
Qed.

(** ** Restoration of the rate *)

Section Restoration.

Lemma find_none_fresh (r : Runtime) :
  fresh_handles r ->
  List.find (fun tm => Nat.eqb (handle tm) (nextHandle r)) (timers r) = None.
Proof.
  unfold fresh_handles. induction (timers r) as [|tm tms IH]; intros Hf; [reflexivity|].
  inversion Hf as [|? ? Hlt Hrest]; subst. simpl.
  destruct (Nat.eqb_spec (handle tm) (nextHandle r)); [lia | auto].
Qed.

Lemma find_app_none {A : Type} (f : A -> bool) (l1 l2 : list A) :
  List.find f l1 = None -> List.find f (l1 ++ l2) = List.find f l2.
Proof.
  induction l1 as [|a l1 IH]; simpl; [reflexivity|].
  destruct (f a); [discriminate | exact IH].
Qed.

Lemma findTimer_setTimeout (cb : Callback) (delay : Z) (r : Runtime) :
  fresh_handles r ->
  let '(h, r') := setTimeout cb delay r in
  h = nextHandle r /\
  findTimer h r' = Some {| handle := h; due := clock r + timerDelay delay; callback := cb |}.
Proof.
  intros Hf. unfold setTimeout, findTimer; simpl. split; [reflexivity|].
  rewrite find_app_none by now apply find_none_fresh.
  simpl. now rewrite Nat.eqb_refl.
Qed.

Variables (w : World) (d : Z).
Hypothesis Hfresh : fresh_handles (runtime w).
Hypothesis Hd : 0 < d.
Hypothesis Heff : 1000 <= clock (runtime w) - reduceLimitTimestamp (limiter w).

(** An effective reduction arms exactly one restoration, due after the
    delay of the timer, and remembers its handle. *)
Lemma reduce_arms_restoration :
  exists h w1,
    reduceLimitTemporary d w = Ok w1 /\
    reduceLimitTimeout (limiter w1) = Some h /\
    findTimer h (runtime w1)
      = Some {| handle := h; due := clock (runtime w) + timerDelay d;
                callback := RestoreLimit |} /\
    maxRequestsPerSecond (limiter w1) = maxRequestsPerSecond (limiter w) /\
    clock (runtime w1) = clock (runtime w) /\
    jobs (runtime w1) = jobs (runtime w).
Proof.
  unfold reduceLimitTemporary.
  destruct (Z.leb_spec d 0); [lia|].
  destruct (Z.ltb_spec (clock (runtime w) - reduceLimitTimestamp (limiter w)) 1000);
    [lia|].
  set (r1 := match reduceLimitTimeout (limiter w) with
             | Some h => clearTimeout h (runtime w) | None => runtime w end).
  assert (Hf1 : fresh_handles r1).
  { subst r1. destruct (reduceLimitTimeout (limiter w));
      [now apply fresh_clearTimeout | assumption]. }
  assert (Hc1 : clock r1 = clock (runtime w) /\ jobs r1 = jobs (runtime w)).
  { subst r1. destruct (reduceLimitTimeout (limiter w)); split; reflexivity. }
  destruct Hc1 as [Hc1 Hj1].
  pose proof (findTimer_setTimeout RestoreLimit d r1 Hf1) as Hfind.
  unfold setTimeout in *. cbv zeta in Hfind. cbn [fst snd] in *.
  destruct Hfind as [_ Hfind]. rewrite Hc1 in Hfind.
  do 2 eexists. split; [reflexivity|]. simpl.
  repeat split; try assumption. rewrite Hc1. exact Hfind.
Qed.

End Restoration.

(** ** Timers and the handles kept by the code *)

Section Handles.

Lemma tidy_mono (r r' : Runtime) :
  (nextHandle r <= nextHandle r')%nat ->
  (forall tm, In tm (timers r') -> In tm (timers r)) ->
  (forall h, request_handle r' h -> request_handle r h) ->
  tidy r -> tidy r'.
Proof.
  intros Hn Hsub Hreq [Hf Hr]. split.
  - unfold fresh_handles in *. rewrite List.Forall_forall in *.
    intros tm Hin. specialize (Hf tm (Hsub tm Hin)). lia.
  - intros h Hh. destruct (Hr h (Hreq h Hh)) as [Hlt Hcb].
    split; [lia|]. intros tm Hin. apply Hcb. auto.
Qed.

Lemma tidy_advances (w w' : World) :
  advances w w' -> tidy (runtime w) -> tidy (runtime w').
Proof.
  intros [_ _ _ _ _ Harm Hreq] [Hf Hr]. split; [eapply fresh_arms; eassumption|].
  destruct Harm as [Hn (new & Ht & Hnew)].
  intros h Hh. destruct (Hr h (Hreq h Hh)) as [Hlt Hcb].
  split; [lia|]. intros tm. rewrite Ht. intros Hin Hhandle.
  apply in_app_or in Hin as [Hin | Hin]; [now apply Hcb|].
  rewrite List.Forall_forall in Hnew. specialize (Hnew tm Hin). lia.
Qed.

Lemma clearTimeout_subset (h : nat) (r : Runtime) (tm : Timer) :
  In tm (timers (clearTimeout h r)) -> In tm (timers r).
Proof. unfold clearTimeout; simpl. intros Hin. now apply filter_In in Hin. Qed.

Lemma tidy_clearTimeout (h : nat) (r : Runtime) : tidy r -> tidy (clearTimeout h r).
Proof.
  apply tidy_mono; [reflexivity | apply clearTimeout_subset | tauto].
Qed.

Lemma tidy_setTimeout (cb : Callback) (delay : Z) (r : Runtime) :
  tidy r -> tidy (snd (setTimeout cb delay r)).
Proof.
  intros [Hf Hr]. split.
  - eapply fresh_arms; [apply setTimeout_arms | exact Hf].
  - unfold setTimeout; simpl. intros h Hh.
    destruct (Hr h Hh) as [Hlt Hcb]. simpl. split; [lia|].
    intros tm Hin Hhandle. apply in_app_or in Hin as [Hin | [<- | []]].
    + now apply Hcb.
    + simpl in Hhandle. lia.
Qed.

(** The handle [requestSlot] keeps in [timeoutHandle] is the one of the
    timeout it has just armed. *)
Lemma tidy_await (p : nat) (delay : Z) (r : Runtime) :
  tidy r ->
  tidy (await p (fst (setTimeout (RejectTimeout p) delay r))
               (snd (setTimeout (RejectTimeout p) delay r))).
Proof.
  intros [Hf Hr]. unfold setTimeout; cbn [fst snd].
  set (h := nextHandle r).
  set (r2 := with_timers _ (S h) r).
  assert (Hf2 : fresh_handles (await p h r2)).
  { assert (Hf2 : fresh_handles r2)
      by (eapply fresh_arms; [apply (setTimeout_arms (RejectTimeout p) delay) | exact Hf]).
    unfold await. destruct (promises r2 !! p) as [[k| |msg]|]; exact Hf2. }
  split; [exact Hf2|].
  assert (Hnh : nextHandle (await p h r2) = S h).
  { unfold await. destruct (promises r2 !! p) as [[k| |msg]|]; reflexivity. }
  assert (Htm : timers (await p h r2)
                = timers r ++ [{| handle := h; due := clock r + timerDelay delay;
                                  callback := RejectTimeout p |}]).
  { unfold await. destruct (promises r2 !! p) as [[k| |msg]|]; reflexivity. }
  assert (Hreq : forall h', request_handle (await p h r2) h' ->
                   h' = h \/ request_handle r h').
  { intros h'. unfold await, request_handle.
    destruct (promises r2 !! p) as [[k| |msg]|] eqn:Hp; simpl.
    - intros [[p' Hin] | [p' Hp']]; [right; left; eauto|].
      destruct (decide (p = p')) as [<- | Hne].
      + rewrite list_lookup_insert_eq in Hp' by (eapply lookup_lt_Some; exact Hp).
        injection Hp' as ->. now left.
      + rewrite list_lookup_insert_ne in Hp' by assumption. right; right; eauto.
    - intros [[p' Hin] | [p' Hp']]; [|right; right; eauto].
      apply in_app_or in Hin as [Hin | [[= _ <-] | []]]; [right; left; eauto | now left].
    - intros [[p' Hin] | [p' Hp']]; [|right; right; eauto].
      apply in_app_or in Hin as [Hin | [[= _ <-] | []]]; [right; left; eauto | now left].
    - intros [[p' Hin] | [p' Hp']]; [|right; right; eauto].
      apply in_app_or in Hin as [Hin | [[= _ <-] | []]]; [right; left; eauto | now left]. }
  intros h' Hh'. rewrite Hnh, Htm.
  destruct (Hreq h' Hh') as [-> | Hold].
  - split; [lia|]. intros tm Hin Hhandle.
    apply in_app_or in Hin as [Hin | [<- | []]]; [|simpl; eauto].
    unfold fresh_handles in Hf. rewrite List.Forall_forall in Hf.
    specialize (Hf tm Hin). subst h. lia.
  - destruct (Hr h' Hold) as [Hlt Hcb]. split; [subst h; lia|].
    intros tm Hin Hhandle. apply in_app_or in Hin as [Hin | [<- | []]].
    + now apply Hcb.
    + simpl in Hhandle. subst h. lia.
Qed.

Lemma tidy_requestSlot (options : RequestOptions) (w : World) :
  tidy (runtime w) -> tidy (runtime (snd (requestSlot options w))).
Proof.
  intros Ht. unfold requestSlot.
  assert (H1 : tidy (runtime (snd (pushRequest options w)))).
  { revert Ht. apply tidy_mono; [reflexivity | simpl; auto |].
    intros h. unfold request_handle, pushRequest; simpl.
    intros [Hj | [p Hp]]; [now left | right]. exists p.
    apply lookup_app_Some in Hp as [Hp | [_ Hp]]; [exact Hp|].
    destruct (p - length (promises (runtime w)))%nat; discriminate. }
  destruct (pushRequest options w) as [p w1]; simpl in H1.
  apply (tidy_advances _ _ (processQueue_advances w1)) in H1.
  set (timeout := if truthy_time (timeoutMs options) then _ else _).
  pose proof (tidy_await p timeout _ H1) as H2.
  destruct (setTimeout (RejectTimeout p) timeout (runtime (processQueue w1))) as [h r2].
  exact H2.
Qed.

Lemma tidy_reduceLimitTemporary (d : Z) (w w' : World) :
  reduceLimitTemporary d w = Ok w' -> tidy (runtime w) -> tidy (runtime w').
Proof.
  unfold reduceLimitTemporary. intros Hred Ht.
  destruct (d <=? 0); [discriminate|].
  destruct (_ <? 1000); [now injection Hred as <-|].
  set (r1 := match reduceLimitTimeout (limiter w) with
             | Some h => clearTimeout h (runtime w) | None => runtime w end) in *.
  assert (Ht1 : tidy r1).
  { subst r1. destruct (reduceLimitTimeout (limiter w));
      [now apply tidy_clearTimeout | assumption]. }
  pose proof (tidy_setTimeout RestoreLimit d r1 Ht1) as H2.
  destruct (setTimeout RestoreLimit d r1) as [h r2]. now injection Hred as <-.
Qed.

Lemma tidy_resumeRequestSlot (p h : nat) (w : World) :
  tidy (runtime w) -> tidy (runtime (resumeRequestSlot p h w)).
Proof.
  unfold resumeRequestSlot. intros Ht.
  destruct (promises (runtime w) !! p) as [[k| |msg]|]; try exact Ht.
  simpl. apply (tidy_mono (clearTimeout h (runtime w))); simpl; auto.
  now apply tidy_clearTimeout.
Qed.

Lemma tidy_runCallback (cb : Callback) (w : World) :
  tidy (runtime w) -> tidy (runtime (runCallback cb w)).
Proof.
  intros Ht. destruct cb as [p| | |]; cbn [runCallback].
  - revert Ht. apply tidy_mono.
    + unfold reject, settle; simpl.
      destruct (promises (runtime w) !! p) as [[[h|]| |msg]|]; reflexivity.
    + unfold reject, settle; simpl.
      destruct (promises (runtime w) !! p) as [[[h|]| |msg]|]; auto.
    + intros h. apply settle_handles. discriminate.
  - exact Ht.
  - revert Ht. apply tidy_mono; simpl; auto.
    intros h. unfold request_handle; simpl.
    intros [[p Hin] | Hp]; [left | now right].
    apply in_app_or in Hin as [Hin | [[=] | []]]. eauto.
  - eapply tidy_advances; [apply processQueue_advances | exact Ht].
Qed.

Lemma tidy_step (w : World) (e : Event) : tidy (runtime w) -> tidy (runtime (step w e)).
Proof.
  intros Ht. destruct e as [options|d|request| |h|t]; cbn [step].
  - now apply tidy_requestSlot.
  - destruct (reduceLimitTemporary d w) as [w'|msg] eqn:Hred; [|exact Ht].
    eapply tidy_reduceLimitTemporary; eassumption.
  - revert Ht. apply tidy_mono; simpl; auto.
  - destruct (jobs (runtime w)) as [|j js] eqn:Hj; [exact Ht|].
    assert (Ht' : tidy (runtime (on_runtime (with_jobs js) w))).
    { revert Ht. apply tidy_mono; simpl; auto.
      intros h. unfold request_handle; simpl. rewrite Hj.
      intros [[p Hin] | Hp]; [left; exists p; now right | now right]. }
    destruct j as [p h|]; cbn [runJob].
    + now apply tidy_resumeRequestSlot.
    + eapply tidy_advances; [apply runQueue_advances | exact Ht'].
  - destruct (jobs (runtime w)); [|exact Ht].
    destruct (findTimer h (runtime w)) as [tm|]; [|exact Ht].
    destruct (due tm <=? clock (runtime w)); [|exact Ht].
    apply tidy_runCallback. simpl. now apply tidy_clearTimeout.
  - revert Ht. apply tidy_mono; simpl; auto.
Qed.

Lemma tidy_run (es : list Event) : forall w, tidy (runtime w) -> tidy (runtime (run w es)).
Proof.
  unfold run. induction es as [|e es IH]; intros w Ht; simpl; [assumption|].
  apply IH. now apply tidy_step.
Qed.

Lemma tidy_create (t N : Z) (w : World) : create t N = Ok w -> tidy (runtime w).
Proof.
  unfold create. destruct (constructor N); [|discriminate]. intros [= <-].
  split; [constructor|]. intros h [[p []] | [p Hp]].
  simpl in Hp. rewrite lookup_nil in Hp. discriminate.
Qed.

End Handles.

(** ** The restoration on record stays armed *)

Section Scheduled.

Lemma find_app_some {A : Type} (f : A -> bool) (l1 l2 : list A) (a : A) :
  List.find f l1 = Some a -> List.find f (l1 ++ l2) = Some a.
Proof.
  induction l1 as [|b l1 IH]; simpl; [discriminate|].
  destruct (f b); auto.
Qed.

Lemma findTimer_clearTimeout (h h' : nat) (r : Runtime) :
  h <> h' -> findTimer h (clearTimeout h' r) = findTimer h r.
Proof.
  intros Hne. unfold findTimer, clearTimeout; simpl.
  induction (timers r) as [|tm tms IH]; [reflexivity|]. simpl.
  destruct (Nat.eqb_spec (handle tm) h') as [E | E]; simpl.
  - destruct (Nat.eqb_spec (handle tm) h); [congruence | exact IH].
  - destruct (Nat.eqb_spec (handle tm) h); [reflexivity | exact IH].
Qed.

Lemma findTimer_In (h : nat) (r : Runtime) (tm : Timer) :
  findTimer h r = Some tm -> In tm (timers r) /\ handle tm = h.
Proof.
  unfold findTimer. intros Hfind. apply find_some in Hfind as [Hin He].
  split; [exact Hin | now apply Nat.eqb_eq].
Qed.

Variable tm : Timer.
Hypothesis Hrestore : callback tm = RestoreLimit.

Lemma scheduled_arms (w w' : World) :
  reduceLimitTimeout (limiter w') = reduceLimitTimeout (limiter w) ->
  arms (runtime w) (runtime w') ->
  scheduled tm w -> scheduled tm w'.
Proof.
  intros Hto [Hn (new & Ht & _)] [Hlt Hfind]. split; [lia|].
  rewrite Hto. intros Hrec. unfold findTimer in *. rewrite Ht.
  apply find_app_some. auto.
Qed.

Lemma scheduled_advances (w w' : World) :
  advances w w' -> scheduled tm w -> scheduled tm w'.
Proof.
  intros [Hrate _ _ _ _ Harm _]. apply scheduled_arms; [|exact Harm].
  unfold rateOf in Hrate. congruence.
Qed.

(** Clearing any timer but the restoration itself. *)
Lemma scheduled_clearTimeout (h : nat) (w : World) :
  (reduceLimitTimeout (limiter w) = Some (handle tm) -> h <> handle tm) ->
  scheduled tm w -> scheduled tm (on_runtime (clearTimeout h) w).
Proof.
  intros Hne [Hlt Hfind]. split; [exact Hlt|]. simpl. intros Hrec.
  rewrite findTimer_clearTimeout by (specialize (Hne Hrec); congruence). auto.
Qed.

Lemma requestSlot_arms (options : RequestOptions) (w : World) :
  reduceLimitTimeout (limiter (snd (requestSlot options w)))
    = reduceLimitTimeout (limiter w) /\
  arms (runtime w) (runtime (snd (requestSlot options w))).
Proof.
  unfold requestSlot.
  assert (H1 : reduceLimitTimeout (limiter (snd (pushRequest options w)))
               = reduceLimitTimeout (limiter w) /\
               arms (runtime w) (runtime (snd (pushRequest options w)))).
  { unfold pushRequest, enqueue; simpl. split; [|now apply arms_same].
    destruct (strict_eq_string _ "high"); [|destruct (strict_eq_string _ "normal")];
      reflexivity. }
  destruct (pushRequest options w) as [p w1]; simpl in H1. destruct H1 as [Hto Harm].
  destruct (processQueue_advances w1) as [Hrate _ _ _ _ Harm2 _].
  set (timeout := if truthy_time (timeoutMs options) then _ else _).
  pose proof (setTimeout_arms (RejectTimeout p) timeout (runtime (processQueue w1))) as Harm3.
  destruct (setTimeout _ timeout _) as [h r2]; simpl in *. split.
  - unfold rateOf in Hrate. congruence.
  - eapply arms_trans; [exact Harm|]. eapply arms_trans; [exact Harm2|].
    eapply arms_trans; [exact Harm3|].
    unfold await. destruct (promises r2 !! p) as [[k| |msg]|]; now apply arms_same.
Qed.

Lemma settle_timers (p : nat) (s : PromiseState) (r : Runtime) :
  nextHandle (settle p s r) = nextHandle r /\
  forall h, findTimer h (settle p s r) = findTimer h r.
Proof.
  unfold settle.
  destruct (promises r !! p) as [[[h'|]| |msg]|]; split; reflexivity.
Qed.

Lemma scheduled_step (w : World) (e : Event) :
  tidy (runtime w) -> scheduled tm w -> scheduled tm (step w e).
Proof.
  intros Ht Hs. destruct e as [options|d|request| |h|t]; cbn [step].
  - destruct (requestSlot_arms options w) as [Hto Harm].
    eapply scheduled_arms; eassumption.
  - unfold reduceLimitTemporary.
    destruct (d <=? 0); [exact Hs|].
    destruct (_ <? 1000); [exact Hs|].
    destruct Hs as [Hlt _].
    destruct (reduceLimitTimeout (limiter w)); simpl;
      (split; simpl; [lia | intros [= E]; lia]).
  - exact Hs.
  - destruct (jobs (runtime w)) as [|j js] eqn:Hj; [exact Hs|].
    destruct j as [p h|]; cbn [runJob].
    + unfold resumeRequestSlot; simpl.
      destruct (promises (runtime w) !! p) as [[k| |msg]|]; try exact Hs.
      destruct Hs as [Hlt Hfind]. split; [exact Hlt|]. simpl. intros Hrec.
      change (findTimer (handle tm) (clearTimeout h (runtime w)) = Some tm).
      rewrite findTimer_clearTimeout; [auto|].
      intros <-. destruct (findTimer_In _ _ _ (Hfind Hrec)) as [Hin _].
      destruct Ht as [_ Hreq].
      destruct (Hreq (handle tm)) as [_ Hcb].
      { left. exists p. rewrite Hj. now left. }
      destruct (Hcb tm Hin eq_refl) as [p' Hp']. congruence.
    + eapply scheduled_advances; [apply runQueue_advances | exact Hs].
  - destruct (jobs (runtime w)); [|exact Hs].
    destruct (findTimer h (runtime w)) as [tm'|] eqn:Hfind'; [|exact Hs].
    destruct (due tm' <=? clock (runtime w)); [|exact Hs].
    assert (Hother : callback tm' <> RestoreLimit ->
              scheduled tm (on_runtime (clearTimeout h) w)).
    { intros Hcb. apply scheduled_clearTimeout; [|exact Hs].
      intros Hrec ->. destruct Hs as [_ Hfind].
      rewrite (Hfind Hrec) in Hfind'. congruence. }
    destruct (callback tm') as [p| | |] eqn:Hcb; cbn [runCallback].
    + assert (Hs' := Hother ltac:(discriminate)).
      destruct Hs' as [Hlt' Hfind''].
      destruct (settle_timers p (Rejected "request timeout")
                  (clearTimeout h (runtime w))) as [Hnh Hft].
      split; simpl; unfold reject.
      * rewrite Hnh. exact Hlt'.
      * rewrite Hft. exact Hfind''.
    + destruct Hs as [Hlt _]. split; [exact Hlt | discriminate].
    + exact (Hother ltac:(discriminate)).
    + eapply scheduled_advances; [apply processQueue_advances|].
      exact (Hother ltac:(discriminate)).
  - exact Hs.
Qed.

Lemma scheduled_run (es : list Event) :
  forall w, tidy (runtime w) -> scheduled tm w -> scheduled tm (run w es).
Proof.
  unfold run. induction es as [|e es IH]; intros w Ht Hs; simpl; [assumption|].
  apply IH; [now apply tidy_step | now apply scheduled_step].
Qed.

End Scheduled.

(** ** Bursts and the rate *)

Section Bursts.

Lemma queueLoop_unfold (fuel : nat) (w : World) :
  queueLoop (S fuel) w =
    if (queueLength (limiter w) =? 0)%nat then Some (finish w)
    else if fst (getAvailableSlots w) =? 0 then Some (sleep (snd (getAvailableSlots w)))
    else queueLoop fuel (grantSlots (Z.to_nat (fst (getAvailableSlots w)))
                                    (snd (getAvailableSlots w))).
Proof. cbn [queueLoop]. now destruct (getAvailableSlots w). Qed.

Lemma getAvailableSlots_idle (w : World) :
  requestsRunning (limiter w) = [] ->
  getAvailableSlots w = (Z.max 0 (requestsPerSecond (limiter w)), w).
Proof.
  intros Hrun. unfold getAvailableSlots. rewrite Hrun.
  destruct w as [l r]. destruct l. simpl in *. subst.
  unfold on_limiter, with_running; simpl. now rewrite Z.sub_0_r.
Qed.

Lemma grantSlots_last (n : nat) (w : World) (l' : Limiter) (q : RequestWaiting) :
  shiftNext (limiter w) = Some (q, l') -> queueLength l' = 0%nat ->
  grantSlots (S n) w = {| limiter := l'; runtime := resolve q (runtime w) |}.
Proof.
  intros Hs Hq. cbn [grantSlots]. rewrite Hs.
  apply shiftNext_none in Hq.
  destruct n as [|n]; [reflexivity|]. cbn [grantSlots limiter]. now rewrite Hq.
Qed.

Lemma runQueue_single (w : World) (l' : Limiter) (q : RequestWaiting) :
  requestsRunning (limiter w) = [] ->
  1 <= requestsPerSecond (limiter w) ->
  shiftNext (limiter w) = Some (q, l') ->
  queueLength l' = 0%nat ->
  runQueue w = finish {| limiter := l'; runtime := resolve q (runtime w) |}.
Proof.
  intros Hrun Hrate Hs Hq.
  pose proof (shiftNext_length _ _ _ Hs) as Hlen. rewrite Hq in Hlen.
  unfold runQueue. rewrite Hlen, queueLoop_unfold, Hlen.
  rewrite (getAvailableSlots_idle w Hrun). cbn [fst snd Nat.eqb].
  destruct (Z.eqb_spec (Z.max 0 (requestsPerSecond (limiter w))) 0) as [|_]; [lia|].
  destruct (Z.to_nat (Z.max 0 (requestsPerSecond (limiter w)))) as [|n] eqn:Hn; [lia|].
  rewrite (grantSlots_last n w l' q Hs Hq), queueLoop_unfold.
  cbn [limiter]. rewrite Hq. reflexivity.
Qed.

Lemma resolve_last (ps : list PromiseState) (r : Runtime) :
  promises r = ps ++ [Pending None] ->
  resolve {| promise := length ps |} r = with_promises (ps ++ [Fulfilled]) r.
Proof.
  intros Hps. unfold resolve, settle; simpl. rewrite Hps.
  rewrite lookup_app_r, Nat.sub_diag by lia. simpl.
  rewrite insert_app_r_alt, Nat.sub_diag by lia. reflexivity.
Qed.

Lemma requestSlot_unloaded (options : RequestOptions) (w : World) :
  unloaded (limiter w) ->
  let w' := snd (requestSlot options w) in
  unloaded (limiter w') /\
  requestsPerSecond (limiter w') = requestsPerSecond (limiter w) /\
  promises (runtime w') = promises (runtime w) ++ [Fulfilled] /\
  heap (runtime w') = heap (runtime w) /\
  exists h, jobs (runtime w')
            = jobs (runtime w) ++ [ResumeRequestSlot (length (promises (runtime w))) h].
Proof.
  intros (Hq & Hproc & Hrun & Hrate). cbv zeta.
  destruct w as [l r]. destruct l as [mx rn rps rto rts high normal low running proc].
  unfold queueLength in Hq. simpl in *. subst proc running.
  destruct high; [|discriminate]. destruct normal; [|discriminate].
  destruct low; [|discriminate]. clear Hq.
  unfold requestSlot, pushRequest, newPromise, enqueue. cbn [limiter runtime fst snd].
  set (q := {| promise := length (promises r) |}).
  set (timeout := if truthy_time (timeoutMs options) then _ else _).
  set (r1 := with_promises (promises r ++ [Pending None]) r).
  assert (Hres : resolve q r1 = with_promises (promises r ++ [Fulfilled]) r1)
    by (now apply resolve_last).
  destruct (strict_eq_string _ "high"); [|destruct (strict_eq_string _ "normal")];
    unfold processQueue; cbn [limiter queueLength with_lanes requestsHigh requestsNormal
      requestsLow length app Nat.add Nat.eqb isProcessing];
    (erewrite runQueue_single; [|reflexivity | simpl; lia | reflexivity | reflexivity]);
    cbn [on_limiter runtime limiter]; rewrite Hres; unfold finish, setTimeout, await, unloaded, queueLength; simpl;
    rewrite lookup_app_r, Nat.sub_diag by lia; simpl;
    repeat split; try reflexivity; try assumption; eexists; reflexivity.
Qed.

Lemma run_app (es1 es2 : list Event) (w : World) :
  run w (es1 ++ es2) = run (run w es1) es2.
Proof. unfold run. apply fold_left_app. Qed.

Lemma resumable_more (r : Runtime) (ps : list PromiseState) (r' : Runtime) (j : Job) :
  promises r' = promises r ++ ps -> resumable r j -> resumable r' j.
Proof.
  intros Hps (p & h & -> & Hp). exists p, h. split; [reflexivity|].
  rewrite Hps. apply lookup_app_l_Some. exact Hp.
Qed.

(** Calls made in one tick on an unloaded limiter: every one of them is
    fulfilled on the spot. *)
Lemma burst_calls (requests : list RequestOptions) :
  forall w,
    unloaded (limiter w) ->
    Forall (resumable (runtime w)) (jobs (runtime w)) ->
    let w' := run w (map CallRequestSlot requests) in
    unloaded (limiter w') /\
    requestsPerSecond (limiter w') = requestsPerSecond (limiter w) /\
    promises (runtime w')
      = promises (runtime w) ++ repeat Fulfilled (length requests) /\
    Forall (resumable (runtime w')) (jobs (runtime w')) /\
    length (jobs (runtime w')) = (length (jobs (runtime w)) + length requests)%nat.
Proof.
  induction requests as [|options requests IH]; intros w Hun Hjobs; cbv zeta.
  - simpl. rewrite app_nil_r. repeat split; try assumption; try apply Hun. lia.
  - change (run w (map CallRequestSlot (options :: requests)))
      with (run (snd (requestSlot options w)) (map CallRequestSlot requests)).
    destruct (requestSlot_unloaded options w Hun) as (Hun1 & Hrate1 & Hps1 & _ & h & Hj1).
    set (w1 := snd (requestSlot options w)) in *.
    assert (Hjobs1 : Forall (resumable (runtime w1)) (jobs (runtime w1))).
    { rewrite Hj1. apply Forall_app. split.
      - eapply Forall_impl; [exact Hjobs|]. intros j. now apply resumable_more with (ps := [Fulfilled]).
      - repeat constructor. exists (length (promises (runtime w))), h.
        split; [reflexivity|]. rewrite Hps1.
        now rewrite lookup_app_r, Nat.sub_diag by lia. }
    destruct (IH w1 Hun1 Hjobs1) as (Hun2 & Hrate2 & Hps2 & Hjobs2 & Hlen2).
    repeat split; try assumption; try apply Hun2.
    + congruence.
    + rewrite Hps2, Hps1, <- app_assoc. reflexivity.
    + rewrite Hlen2, Hj1, length_app. simpl. lia.
Qed.

(** The continuation of a fulfilled call takes a slot, whatever the rate. *)
Lemma resume_fulfilled (p h : nat) (w : World) :
  promises (runtime w) !! p = Some Fulfilled ->
  let w' := resumeRequestSlot p h w in
  requestsRunning (limiter w')
    = requestsRunning (limiter w) ++ [length (heap (runtime w))] /\
  requestsPerSecond (limiter w') = requestsPerSecond (limiter w) /\
  promises (runtime w') = promises (runtime w) /\
  jobs (runtime w') = jobs (runtime w) /\
  outcomes (runtime w')
    = outcomes (runtime w) ++ [(p, Granted (length (heap (runtime w))))].
Proof.
  intros Hp. unfold resumeRequestSlot. rewrite Hp. simpl. repeat split.
Qed.

Lemma burst_resumes (n : nat) :
  forall w,
    Forall (resumable (runtime w)) (jobs (runtime w)) ->
    (n <= length (jobs (runtime w)))%nat ->
    let w' := run w (repeat Microtask n) in
    length (requestsRunning (limiter w'))
      = (length (requestsRunning (limiter w)) + n)%nat /\
    requestsPerSecond (limiter w') = requestsPerSecond (limiter w) /\
    promises (runtime w') = promises (runtime w).
Proof.
  induction n as [|n IH]; intros w Hjobs Hn; cbv zeta.
  - simpl. repeat split. lia.
  - change (run w (repeat Microtask (S n)))
      with (run (step w Microtask) (repeat Microtask n)).
    cbn [step]. destruct (jobs (runtime w)) as [|j js] eqn:Hj; [simpl in Hn; lia|].
    inversion Hjobs as [|? ? (p & h & -> & Hp) Hrest]; subst. cbn [runJob].
    set (w0 := on_runtime (with_jobs js) w).
    destruct (resume_fulfilled p h w0 Hp) as (Hrun & Hrate & Hps & Hjs & _).
    set (w1 := resumeRequestSlot p h w0) in *.
    destruct (IH w1) as (Hlen2 & Hrate2 & Hps2).
    + rewrite Hjs. simpl. eapply Forall_impl; [exact Hrest|].
      intros j (p' & h' & -> & Hp'). exists p', h'. split; [reflexivity|].
      rewrite Hps. exact Hp'.
    + rewrite Hjs. simpl in *. lia.
    + repeat split.
      * rewrite Hlen2, Hrun, length_app. simpl. lia.
      * rewrite Hrate2, Hrate. reflexivity.
      * rewrite Hps2, Hps. reflexivity.
Qed.

Lemma every_burst_is_granted (t N : Z) (requests : list RequestOptions) :
  1 <= N ->
  exists w0, create t N = Ok w0 /\
    let k := length requests in
    let w' := run w0 (map CallRequestSlot requests ++ repeat Microtask k) in
    promises (runtime w') = repeat Fulfilled k /\
    length (requestsRunning (limiter w')) = k /\
    requestsPerSecond (limiter w') = N.
Proof.
  intros HN. unfold create. rewrite constructor_ok by lia.
  eexists. split; [reflexivity|]. cbv zeta. rewrite run_app.
  match goal with |- context [run ?w (map _ _)] => set (w0 := w) end.
  destruct (burst_calls requests w0) as (Hun & Hrate & Hps & Hjobs & Hlen).
  { repeat split; simpl; lia. }
  { constructor. }
  set (w1 := run w0 (map CallRequestSlot requests)) in *.
  destruct (burst_resumes (length requests) w1 Hjobs) as (Hlen2 & Hrate2 & Hps2).
  { rewrite Hlen. simpl. lia. }
  destruct Hun as (_ & _ & Hrun & _).
  repeat split.
  - rewrite Hps2, Hps. reflexivity.
  - rewrite Hlen2, Hrun. reflexivity.
  - rewrite Hrate2, Hrate. reflexivity.
Qed.

Lemma getAvailableSlots_saturated (w : World) :
  saturated w -> fst (getAvailableSlots w) = 0.
Proof. unfold saturated, getAvailableSlots; simpl. lia. Qed.

Lemma enqueue_frame (v : JsValue) (q : RequestWaiting) (l : Limiter) :
  rateOf (enqueue v q l) = rateOf l /\
  requestsRunning (enqueue v q l) = requestsRunning l /\
  isProcessing (enqueue v q l) = isProcessing l /\
  queueLength (enqueue v q l) = S (queueLength l).
Proof.
  unfold enqueue, queueLength.
  destruct (strict_eq_string v "high"); [|destruct (strict_eq_string v "normal")];
    simpl; rewrite length_app; simpl; repeat split; lia.
Qed.

(** A call that arrives when as many running requests are counted as the
    rate allows is not granted: its promise stays pending, with the timeout
    armed, and the scheduler goes to sleep for 50 ms. *)
Lemma requestSlot_saturated (options : RequestOptions) (w : World) :
  queueLength (limiter w) = 0%nat ->
  isProcessing (limiter w) = false ->
  saturated w ->
  let p := fst (requestSlot options w) in
  let w' := snd (requestSlot options w) in
  (exists h, promiseOf w' p = Some (Pending (Some h))) /\
  queueLength (limiter w') = 1%nat /\
  isProcessing (limiter w') = true /\
  requestsRunning (limiter w')
    = List.filter (keeps (clock (runtime w)) (heap (runtime w))) (requestsRunning (limiter w)).
Proof.
  intros Hq Hproc Hsat. cbv zeta. unfold requestSlot, pushRequest, newPromise.
  cbn [fst snd].
  set (q := {| promise := length (promises (runtime w)) |}).
  set (v := js_or (priority options) (JString "normal")).
  set (timeout := if truthy_time (timeoutMs options) then _ else _).
  destruct (enqueue_frame v q (limiter w)) as (Hrate & Hrun & Hproc1 & Hlen).
  set (w1 := {| limiter := enqueue v q (limiter w);
                runtime := with_promises (promises (runtime w) ++ [Pending None]) (runtime w) |}).
  assert (Hrps : requestsPerSecond (enqueue v q (limiter w)) = requestsPerSecond (limiter w))
    by (unfold rateOf in Hrate; congruence).
  assert (Hpq : processQueue w1 = sleep (snd (getAvailableSlots (on_limiter (with_processing true) w1)))).
  { unfold processQueue.
    change (queueLength (limiter w1)) with (queueLength (enqueue v q (limiter w))).
    change (isProcessing (limiter w1)) with (isProcessing (enqueue v q (limiter w))).
    rewrite Hlen, Hq, Hproc1, Hproc. cbn [Nat.eqb].
    unfold runQueue. rewrite queueLoop_unfold.
    change (queueLength (limiter (on_limiter (with_processing true) w1)))
      with (queueLength (enqueue v q (limiter w))).
    rewrite Hlen, Hq. cbn [Nat.eqb].
    rewrite getAvailableSlots_saturated; [reflexivity|].
    unfold saturated; simpl. rewrite Hrps, Hrun. exact Hsat. }
  rewrite Hpq. unfold sleep, getAvailableSlots, setTimeout, await, promiseOf; simpl.
  rewrite lookup_app_r, Nat.sub_diag by lia. simpl.
  split; [|split; [|split]].
  - eexists. apply list_lookup_insert_eq. rewrite length_app; simpl. lia.
  - exact (eq_trans Hlen (f_equal S Hq)).
  - reflexivity.
  - now rewrite Hrun.
Qed.

End Bursts.

(** C1, evaluated where the code departs from it. A limiter of rate 1
    receives two [requestSlot] calls in the same tick and nothing is ever
    released. Each call runs the scheduler before the other call's
    continuation has added its running request, so each finds the running
    set empty: both promises are fulfilled at once and, after the two
    continuations, two requests hold a slot although the rate is 1. *)
Theorem burst_of_two_on_rate_one :
  exists w, create 100000 1 = Ok w /\
    let burst := run w [CallRequestSlot noOptions; CallRequestSlot noOptions] in
    let w' := run burst [Microtask; Microtask] in
    promiseOf burst 0 = Some Fulfilled /\
    promiseOf burst 1 = Some Fulfilled /\
    requestsPerSecond (limiter w') = 1 /\
    outcomes (runtime w') = [(0%nat, Granted 0%nat); (1%nat, Granted 1%nat)] /\
    requestsRunning (limiter w') = [0%nat; 1%nat] /\
    heap (runtime w') = [{| startedAt := 100000; endedAt := None |};
                         {| startedAt := 100000; endedAt := None |}].
Proof.
  eexists. split; [reflexivity|]. cbv zeta. repeat split; reflexivity.
Qed.

(** The same defect inside one pass of the loop. With rate 1, one request
    holds the slot and three more wait. The slot is released and ages out;
    the next wake-up of the loop finds one slot free and, re-reading the
    unchanged running set on every round, fulfils all three waiting
    promises in that single pass. *)
Lemma queue_drained_by_one_free_slot :
  exists w, create 100000 1 = Ok w /\
    let waiting := run w [CallRequestSlot noOptions; Microtask; Clock 100010;
                          CallRequestSlot noOptions; CallRequestSlot noOptions;
                          CallRequestSlot noOptions] in
    let w' := run waiting [CallRelease 0%nat; Clock 101060; Fire 3%nat; Microtask] in
    queueLength (limiter waiting) = 3%nat /\
    promises (runtime waiting) = [Fulfilled; Pending (Some 4%nat);
                                  Pending (Some 5%nat); Pending (Some 6%nat)] /\
    promises (runtime w') = [Fulfilled; Fulfilled; Fulfilled; Fulfilled] /\
    requestsPerSecond (limiter w') = 1.
Proof.
  eexists. split; [reflexivity|]. cbv zeta. repeat split; reflexivity.
Qed.

(** What does hold: while as many requests are counted as the rate
    allows, the scheduler finds no free slot and suspends for 50 ms
    without fulfilling any promise. *)
Lemma full_limiter_grants_nothing (w : World) :
  queueLength (limiter w) <> 0%nat ->
  fst (getAvailableSlots w) = 0 ->
  promises (runtime (runQueue w)) = promises (runtime w) /\
  queueLength (limiter (runQueue w)) = queueLength (limiter w).
Proof.
  intros Hq Hav. unfold runQueue. cbn [queueLoop].
  destruct (Nat.eqb_spec (queueLength (limiter w)) 0) as [|_]; [contradiction|].
  destruct (getAvailableSlots w) as [availableSlots w1] eqn:Hg.
  simpl in Hav. subst availableSlots. cbn.
  unfold getAvailableSlots in Hg. injection Hg as _ <-. split; reflexivity.
Qed.

(** ** Timeouts *)

(** C2, evaluated where the code departs from it. With rate 1 and the
    slot taken, a second [requestSlot] with [timeoutMs = 10] waits in the
    normal lane. When its timer fires the promise is rejected with the
    timeout and the call fails, but the request is still in the lane; it
    stays there, and keeps the loop polling, until a slot frees and the
    scheduler dequeues it. *)
Theorem timed_out_request_stays_queued :
  exists w, create 100000 1 = Ok w /\
    let waiting := run w [CallRequestSlot noOptions; Microtask;
                          CallRequestSlot (withTimeout 10)] in
    let expired := run waiting [Clock 100010; Fire 4%nat; Microtask] in
    let later := run expired [Clock 100050; Fire 3%nat; Microtask] in
    requestsNormal (limiter waiting) = [{| promise := 1 |}] /\
    promiseOf waiting 1 = Some (Pending (Some 4%nat)) /\
    promiseOf expired 1 = Some (Rejected "request timeout") /\
    outcomes (runtime expired)
      = [(0%nat, Granted 0%nat); (1%nat, Failed "request timeout")] /\
    requestsNormal (limiter expired) = [{| promise := 1 |}] /\
    requestsNormal (limiter later) = [{| promise := 1 |}] /\
    isProcessing (limiter later) = true.
Proof.
  eexists. split; [reflexivity|]. cbv zeta. repeat split; reflexivity.
Qed.

Section Timeout.

(** The timer callback of [requestSlot] touches no field of the
    limiter: the lanes are left as they were. *)
Lemma timeout_leaves_lanes (p : nat) (w : World) :
  limiter (runCallback (RejectTimeout p) w) = limiter w.
Proof. reflexivity. Qed.

(** A pending promise whose timer fires is rejected with the timeout. *)
Lemma timeout_rejects_pending (p : nat) (k : option nat) (w : World) :
  promiseOf w p = Some (Pending k) ->
  promiseOf (runCallback (RejectTimeout p) w) p = Some (Rejected "request timeout").
Proof.
  unfold promiseOf, runCallback, on_runtime, reject, settle; simpl. intros Hp.
  rewrite Hp. destruct k as [h|]; simpl;
    apply list_lookup_insert_eq; eapply lookup_lt_Some; eassumption.
Qed.

(** A settled promise stays as it is: the [resolve()] that the
    scheduler later calls on a timed-out request has no effect. *)
Lemma resolve_settled (q : RequestWaiting) (r : Runtime) :
  (forall k, promises r !! promise q <> Some (Pending k)) -> resolve q r = r.
Proof.
  unfold resolve, settle. intros Hp.
  destruct (promises r !! promise q) as [[k| |msg]|]; try reflexivity.
  now destruct (Hp k).
Qed.

(** Once settled, a promise never changes again, whatever happens to the
    limiter: a call that failed with the timeout is not granted later. *)
Lemma settled_step (w : World) (e : Event) (p : nat) (s : PromiseState) :
  (forall k, s <> Pending k) ->
  promiseOf w p = Some s -> promiseOf (step w e) p = Some s.
Proof.
  unfold promiseOf. intros Hs Hp.
  assert (Hadv : forall w1 w2, advances w1 w2 ->
            promises (runtime w1) !! p = Some s -> promises (runtime w2) !! p = Some s).
  { intros w1 w2 [_ _ _ _ [_ Hful] _ _] H1.
    destruct (Hful p) as [Hsame | [_ [k Hk]]]; [congruence|].
    rewrite H1 in Hk. injection Hk as ->. now destruct (Hs k). }
  assert (Hsettle : forall p' s' r, promises r !! p = Some s ->
            promises (settle p' s' r) !! p = Some s).
  { intros p' s' r H1. unfold settle.
    destruct (promises r !! p') as [[k| |msg]|] eqn:Hp'; try exact H1.
    assert (p' <> p) by (intros ->; rewrite H1 in Hp'; injection Hp' as ->; now destruct (Hs k)).
    destruct k as [h|]; simpl; now rewrite list_lookup_insert_ne. }
  destruct e as [options|d|request| |h|t]; cbn [step]; try exact Hp.
  - unfold requestSlot.
    assert (H1 : promises (runtime (snd (pushRequest options w))) !! p = Some s)
      by (unfold pushRequest; simpl; now apply lookup_app_l_Some).
    destruct (pushRequest options w) as [p' w1]; simpl in H1.
    apply (Hadv _ _ (processQueue_advances w1)) in H1.
    set (timeout := if truthy_time (timeoutMs options) then _ else _).
    unfold setTimeout, await; simpl.
    destruct (promises (runtime (processQueue w1)) !! p') as [[k| |msg]|] eqn:Hp';
      try exact H1.
    assert (p' <> p) by (intros ->; rewrite H1 in Hp'; injection Hp' as ->; now destruct (Hs k)).
    simpl. now rewrite list_lookup_insert_ne.
  - unfold reduceLimitTemporary.
    destruct (d <=? 0); [exact Hp|].
    destruct (_ <? 1000); [exact Hp|].
    destruct (reduceLimitTimeout (limiter w)); exact Hp.
  - destruct (jobs (runtime w)) as [|[p' h'|] js]; [exact Hp| |].
    + cbn [runJob]. unfold resumeRequestSlot; simpl.
      destruct (promises (runtime w) !! p') as [[k| |msg]|]; exact Hp.
    + cbn [runJob]. now apply (Hadv _ _ (runQueue_advances _)).
  - destruct (jobs (runtime w)); [|exact Hp].
    destruct (findTimer h (runtime w)) as [tm|]; [|exact Hp].
    destruct (due tm <=? clock (runtime w)); [|exact Hp].
    destruct (callback tm) as [p'| | |]; cbn [runCallback]; try exact Hp.
    + simpl. unfold reject. now apply Hsettle.
    + now apply (Hadv _ _ (processQueue_advances _)).
Qed.

Lemma settled_run (es : list Event) (p : nat) (s : PromiseState) :
  (forall k, s <> Pending k) ->
  forall w, promiseOf w p = Some s -> promiseOf (run w es) p = Some s.
Proof.
  intros Hs. unfold run. induction es as [|e es IH]; intros w Hp; simpl; [exact Hp|].
  apply IH. now apply settled_step.
Qed.

End Timeout.

(** * Further properties of the code *)

(** ** The rate between its bounds *)

Section RateBounds.

Lemma rateOf_step_constants (w : World) (e : Event) :
  reductionNumber (limiter (step w e)) = reductionNumber (limiter w).
Proof.
  assert (Hadv : forall w1 w2, advances w1 w2 ->
            reductionNumber (limiter w2) = reductionNumber (limiter w1)).
  { intros w1 w2 [Hrate _ _ _ _ _ _]. unfold rateOf in Hrate. congruence. }
  destruct e as [options|d|request| |h|t]; simpl; try reflexivity.
  - rewrite (Hadv _ _ (processQueue_advances _)). unfold enqueue; simpl.
    destruct (strict_eq_string _ "high"); [|destruct (strict_eq_string _ "normal")];
      reflexivity.
  - unfold reduceLimitTemporary.
    destruct (d <=? 0); [reflexivity|].
    destruct (_ <? 1000); [reflexivity|].
    destruct (setTimeout _ _ _); reflexivity.
  - destruct (jobs (runtime w)) as [|[p h|] js]; simpl; [reflexivity| |].
    + unfold resumeRequestSlot; simpl.
      destruct (promises (runtime w) !! p) as [[k| |msg]|]; reflexivity.
    + now rewrite (Hadv _ _ (runQueue_advances _)).
  - destruct (jobs (runtime w)); [|reflexivity].
    destruct (findTimer h (runtime w)) as [tm|]; [|reflexivity].
    destruct (due tm <=? clock (runtime w)); [|reflexivity].
    destruct (callback tm); simpl; try reflexivity.
    now rewrite (Hadv _ _ (processQueue_advances _)).
Qed.

Lemma reductionNumber_run (es : list Event) :
  forall w, reductionNumber (limiter (run w es)) = reductionNumber (limiter w).
Proof.
  unfold run. induction es as [|e es IH]; intros w; simpl; [reflexivity|].
  rewrite IH. apply rateOf_step_constants.
Qed.

End RateBounds.

(** In every run of a limiter built with a rate [N] up to
    [Number.MAX_SAFE_INTEGER], the configured ceiling and the reduction
    amount never change and the effective rate stays between 1 and [N]. *)
Theorem rate_between_one_and_max (t N : Z) (w0 : World) (es : list Event)
    (Hcreate : create t N = Ok w0) (Hsafe : N <= MAX_SAFE_INTEGER) :
  maxRequestsPerSecond (limiter (run w0 es)) = N /\
  reductionNumber (limiter (run w0 es)) = Z.max 1 (N / 10) /\
  1 <= requestsPerSecond (limiter (run w0 es)) <= N.
Proof.
  assert (Hs : sound (run w0 es)) by (apply sound_run; eapply sound_create; eassumption).
  destruct Hs as [[Hr _] _].
  rewrite maxRate_run in *. rewrite reductionNumber_run.
  revert Hcreate Hr. unfold create, constructor.
  destruct (N <=? 0); [discriminate|]. intros [= <-]. simpl. auto.
Qed.

Lemma rate_between_one_and_max_witness :
  exists w0, create 100000 20 = Ok w0 /\
    1 <= requestsPerSecond (limiter (run w0
           [CallReduceLimitTemporary 5000; Clock 102000;
            CallReduceLimitTemporary 5000])) <= 20.
Proof.
  eexists. split; [reflexivity|].
  match goal with |- context [run ?w0 ?es] =>
    apply (rate_between_one_and_max 100000 20 w0 es eq_refl)
  end.
  discriminate.
Defined.

(** ** Reductions outside the debounce window add up *)

Section Stacking.

Variable d : Z.
Hypothesis Hd : 0 < d.



End Stacking.



(** ** Counting the running requests *)

Section Pruning.

Lemma filter_twice {A : Type} (f : A -> bool) (l : list A) :
  List.filter f (List.filter f l) = List.filter f l.
Proof.
  induction l as [|a l IH]; simpl; [reflexivity|].
  destruct (f a) eqn:Hf; simpl; [rewrite Hf; f_equal|]; exact IH.
Qed.

Lemma filter_length_le {A : Type} (f : A -> bool) (l : list A) :
  (length (List.filter f l) <= length l)%nat.
Proof.
  induction l as [|a l IH]; simpl; [lia|]. destruct (f a); simpl; lia.
Qed.

Lemma expired_spec (now : Z) (q : RequestRunning) :
  expired now q = true <->
  (exists e, endedAt q = Some e /\ e <> 0 /\ e < now - 1000) \/
  (startedAt q <> 0 /\ startedAt q < now - 65000).
Proof.
  unfold expired, truthy_time. rewrite orb_true_iff, !andb_true_iff.
  rewrite !negb_true_iff, !Z.ltb_lt, !Z.eqb_neq.
  destruct (endedAt q) as [e|]; simpl.
  - rewrite negb_true_iff, Z.eqb_neq. split.
    + intros [[He Hlt] | H]; [left; eauto | now right].
    + intros [(e' & [= <-] & He & Hlt) | H]; [left; auto | now right].
  - split.
    + intros [[Hf _] | H]; [discriminate | now right].
    + intros [(e' & [=] & _) | H]. now right.
Qed.

End Pruning.

(** [getAvailableSlots] never returns a negative number: for a rate up to
    [Number.MAX_SAFE_INTEGER] it returns the rate minus the number of
    requests it still counts, or 0 when that many or more are counted. It
    only removes entries from the running set, keeping their order, and
    computing it again at the same clock reading removes nothing more and
    gives the same number. *)
Theorem available_slots_bounds (w : World)
    (Hsafe : requestsPerSecond (limiter w) <= MAX_SAFE_INTEGER) :
  let a := fst (getAvailableSlots w) in
  let w' := snd (getAvailableSlots w) in
  let counted := Z.of_nat (length (requestsRunning (limiter w'))) in
  0 <= a /\
  a = Z.max 0 (requestsPerSecond (limiter w) - counted) /\
  (length (requestsRunning (limiter w')) <= length (requestsRunning (limiter w)))%nat /\
  (forall request, In request (requestsRunning (limiter w')) ->
                   In request (requestsRunning (limiter w))) /\
  runtime w' = runtime w /\
  getAvailableSlots w' = (a, w').
Proof.
  cbv zeta. unfold getAvailableSlots; simpl.
  repeat split; try lia.
  - apply filter_length_le.
  - intros request Hin. now apply filter_In in Hin.
  - rewrite filter_twice. reflexivity.
Qed.

Lemma available_slots_bounds_witness :
  exists w0, create 100000 2 = Ok w0 /\
    fst (getAvailableSlots (run w0 [CallRequestSlot noOptions; Microtask])) = 1.
Proof.
  eexists. split; [reflexivity|].
  match goal with |- context [getAvailableSlots ?w] =>
    destruct (available_slots_bounds w ltac:(discriminate)) as (_ & Ha & _)
  end.
  rewrite Ha. reflexivity.
Defined.

(** Which requests [getAvailableSlots] stops counting. An entry of the
    running set survives the pruning exactly when both tests of the loop
    let it pass: it was not released, or it was released no more than
    1000 ms ago; and it started no more than 65000 ms ago. A time of 0 is
    falsy and passes its test whatever the clock reads: an entry started
    at clock reading 0 is never reclaimed as stuck, and a release stamped 0
    never ages out. *)
Theorem pruning_window (w : World) (request : nat) (q : RequestRunning)
    (Hq : heap (runtime w) !! request = Some q) :
  let now := clock (runtime w) in
  In request (requestsRunning (limiter (snd (getAvailableSlots w)))) <->
  In request (requestsRunning (limiter w)) /\
  match endedAt q with
  | Some e => e = 0 \/ now - 1000 <= e
  | None => True
  end /\
  (startedAt q = 0 \/ now - 65000 <= startedAt q).
Proof.
  cbv zeta. unfold getAvailableSlots; simpl.
  assert (Hkeeps : keeps (clock (runtime w)) (heap (runtime w)) request
                   = negb (expired (clock (runtime w)) q))
    by (unfold keeps; now rewrite Hq).
  rewrite filter_In, Hkeeps, negb_true_iff, expired_false. tauto.
Qed.

Lemma pruning_window_witness :
  exists w0, create 100000 1 = Ok w0 /\
    let w := run w0 [CallRequestSlot noOptions; Microtask; Clock 165001] in
    ~ In 0%nat (requestsRunning (limiter (snd (getAvailableSlots w)))).
Proof.
  eexists. split; [reflexivity|]. cbv zeta.
  match goal with |- context [getAvailableSlots ?w] =>
    assert (Hq : heap (runtime w) !! 0%nat
                 = Some {| startedAt := 100000; endedAt := None |})
      by (vm_compute; reflexivity);
    pose proof (pruning_window w 0%nat _ Hq) as Hiff
  end.
  cbv zeta in Hiff. intros Hin. apply Hiff in Hin.
  destruct Hin as (_ & _ & [Hzero | Hrecent]); [discriminate|].
  vm_compute in Hrecent. now apply Hrecent.
Defined.

(** ** The timeout of a call *)

(** When [requestSlot] returns, the timeout of the call is armed under a
    handle of its own. The delay passed to [setTimeout] is 60000 when
    [timeoutMs] is absent or 0 and [max(0, timeoutMs)] otherwise, and the
    timer is due after the delay node makes of it: 1 ms when [timeoutMs] is
    negative or above [2^31 - 1], [timeoutMs] itself in between. The call
    keeps that handle, in its suspended state or in the microtask that
    resumes it. *)
Theorem timeout_armed (t N : Z) (w0 : World) (es : list Event)
    (options : RequestOptions) (Hcreate : create t N = Ok w0) :
  let w := run w0 es in
  let p := fst (requestSlot options w) in
  let w' := snd (requestSlot options w) in
  exists h,
    findTimer h (runtime w')
      = Some {| handle := h;
                due := clock (runtime w) + timerDelay (effectiveTimeout options);
                callback := RejectTimeout p |} /\
    (promiseOf w' p = Some (Pending (Some h)) \/
     In (ResumeRequestSlot p h) (jobs (runtime w'))).
Proof.
  cbv zeta. set (w := run w0 es).
  assert (Hs : sound w) by (apply sound_run; eapply sound_create; eassumption).
  unfold requestSlot.
  assert (Htimeout : (if truthy_time (timeoutMs options)
                      then Z.max 0 (default 0 (timeoutMs options)) else 60000)
                     = effectiveTimeout options).
  { unfold effectiveTimeout, truthy_time.
    destruct (timeoutMs options) as [ms|]; [|reflexivity]. simpl.
    now destruct (ms =? 0). }
  rewrite Htimeout.
  pose proof (sound_pushRequest options w Hs) as H1.
  pose proof (pushRequest_promises options w) as Hps.
  pose proof (pushRequest_fst options w) as Hp.
  assert (Hclk : clock (runtime (snd (pushRequest options w))) = clock (runtime w))
    by reflexivity.
  destruct (pushRequest options w) as [p w1]; simpl in H1, Hps, Hp, Hclk.
  destruct (sound_advances _ _ (processQueue_advances w1) H1) as [_ Hf].
  destruct (processQueue_advances w1) as [_ Hclk2 _ _ [Hlen Hful] _ _].
  pose proof (findTimer_setTimeout (RejectTimeout p) (effectiveTimeout options)
                (runtime (processQueue w1)) Hf) as Hfind.
  destruct (setTimeout (RejectTimeout p) (effectiveTimeout options)
              (runtime (processQueue w1))) as [h r2] eqn:Hset.
  destruct Hfind as [Hh Hfind]. cbn [fst snd runtime].
  exists h. rewrite Hclk2, Hclk in Hfind.
  assert (Hps2 : promises r2 = promises (runtime (processQueue w1)))
    by (unfold setTimeout in Hset; injection Hset as _ <-; reflexivity).
  assert (Hp1 : promises (runtime w1) !! p = Some (Pending None)).
  { rewrite Hps, Hp. now rewrite lookup_app_r, Nat.sub_diag by lia. }
  unfold await, promiseOf. rewrite Hps2.
  destruct (Hful p) as [Hsame | [Hnow _]].
  - rewrite Hsame, Hp1. split; [exact Hfind|]. left. simpl.
    apply list_lookup_insert_eq. rewrite Hlen.
    eapply lookup_lt_Some; eassumption.
  - rewrite Hnow. split; [exact Hfind|]. right. simpl.
    apply in_or_app. right. now left.
Qed.

Lemma timeout_armed_witness :
  exists w0, create 100000 1 = Ok w0 /\
    exists h,
      findTimer h (runtime (snd (requestSlot (withTimeout (-5)) w0)))
        = Some {| handle := h; due := 100001; callback := RejectTimeout 0 |}.
Proof.
  eexists. split; [reflexivity|].
  match goal with |- context [requestSlot ?o ?w0] =>
    destruct (timeout_armed 100000 1 w0 [] o eq_refl) as (h & Hfind & _)
  end.
  exists h. exact Hfind.
Defined.

(** ** The grant loop of [CallLimiter] *)

Section CallLimiterLoop.

Context {A : Type}.

Lemma grantLoop_split (requestsWaiting : list A) :
  forall i availableSlots,
    fst (CallLimiter.grantLoop i availableSlots requestsWaiting)
      ++ snd (CallLimiter.grantLoop i availableSlots requestsWaiting)
    = requestsWaiting.
Proof.
  induction requestsWaiting as [|request rest IH]; intros i a; simpl.
  - destruct (i <? a); reflexivity.
  - destruct (i <? a); [|reflexivity].
    specialize (IH (i + 1) (a - 1)).
    destruct (CallLimiter.grantLoop (i + 1) (a - 1) rest) as [resolved remaining].
    simpl in *. now rewrite IH.
Qed.

Lemma grantLoop_count (requestsWaiting : list A) :
  forall i availableSlots,
    Z.of_nat (length (fst (CallLimiter.grantLoop i availableSlots requestsWaiting)))
    = Z.min (Z.max 0 ((availableSlots - i + 1) / 2))
            (Z.of_nat (length requestsWaiting)).
Proof.
  induction requestsWaiting as [|request rest IH]; intros i a; simpl length.
  - cbn [CallLimiter.grantLoop]. destruct (i <? a); simpl; lia.
  - cbn [CallLimiter.grantLoop]. destruct (Z.ltb_spec i a) as [Hlt | Hge].
    + specialize (IH (i + 1) (a - 1)).
      destruct (CallLimiter.grantLoop (i + 1) (a - 1) rest) as [resolved remaining].
      cbn [fst length] in *.
      replace (a - 1 - (i + 1) + 1) with (a - i + 1 - 2) in IH by lia.
      assert (Hdiv : (a - i + 1) / 2 = (a - i + 1 - 2) / 2 + 1).
      { replace (a - i + 1) with ((a - i + 1 - 2) + 1 * 2) at 1 by lia.
        now rewrite Z.div_add by lia. }
      assert (0 <= (a - i + 1 - 2) / 2) by (apply Z.div_pos; lia).
      lia.
    + cbn [fst length].
      assert ((a - i + 1) / 2 <= 0).
      { destruct (Z.eq_dec (a - i + 1) 1) as [-> | Hne]; [reflexivity|].
        apply Z.div_le_upper_bound; lia. }
      lia.
Qed.

End CallLimiterLoop.

(** Because the loop of [CallLimiter.processQueue] decrements
    [availableSlots] while it increments [i], one pass over [a] free slots
    resolves only the first [ceil(a / 2)] waiting requests (all of them if
    fewer are waiting), in queue order, and leaves the rest queued. *)
Theorem call_limiter_pass_grants_half (availableSlots : Z) (requestsWaiting : list nat) :
  let '(resolved, remaining) := CallLimiter.grantLoop 0 availableSlots requestsWaiting in
  resolved ++ remaining = requestsWaiting /\
  Z.of_nat (length resolved)
    = Z.min (Z.max 0 ((availableSlots + 1) / 2)) (Z.of_nat (length requestsWaiting)).
Proof.
  pose proof (grantLoop_split requestsWaiting 0 availableSlots) as Hs.
  pose proof (grantLoop_count requestsWaiting 0 availableSlots) as Hc.
  destruct (CallLimiter.grantLoop 0 availableSlots requestsWaiting) as [resolved remaining].
  simpl in *. rewrite Z.sub_0_r in Hc. auto.
Qed.

(** ** Rates too small to be reduced *)

Section SmallRates.


End SmallRates.



(** ** [RateLimiter]: the rate is kept by the grant loop *)

Section RateLimiterQueue.

Import RateLimiter.

Lemma grantBatch_rate (n : nat) :
  forall keys now l, rate (grantBatch n keys now l) = rate l.
Proof.
  induction n as [|n IH]; intros keys now l; simpl; [reflexivity|].
  destruct (requestsWaiting l) as [|request rest]; [apply IH|].
  destruct keys as [|key keys]; [reflexivity|]. now rewrite IH.
Qed.

Lemma grantBatch_size (n : nat) :
  forall keys now l,
    (size (requestsRunning (grantBatch n keys now l))
     <= size (requestsRunning l) + n)%nat.
Proof.
  induction n as [|n IH]; intros keys now l; simpl; [lia|].
  destruct (requestsWaiting l) as [|request rest].
  - etransitivity; [apply IH|]. lia.
  - destruct keys as [|key keys]; [lia|].
    etransitivity; [apply IH|]. simpl.
    rewrite map_size_insert. destruct (requestsRunning l !! key); simpl; lia.
Qed.

(** With enough keys, all of them new and distinct, the batch takes the
    first [n] waiting promises in order and adds exactly [n] entries. *)
Lemma grantBatch_fifo (n : nat) :
  forall keys now l,
    (n <= length (requestsWaiting l))%nat ->
    (n <= length keys)%nat ->
    requestsWaiting (grantBatch n keys now l) = drop n (requestsWaiting l) /\
    granted (grantBatch n keys now l)
      = granted l ++ zip (take n (requestsWaiting l)) (take n keys) /\
    (NoDup (take n keys) ->
     (forall key, In key (take n keys) -> requestsRunning l !! key = None) ->
     size (requestsRunning (grantBatch n keys now l))
       = (size (requestsRunning l) + n)%nat).
Proof.
  induction n as [|n IH]; intros keys now l Hw Hk; simpl.
  - rewrite app_nil_r. repeat split. lia.
  - destruct (requestsWaiting l) as [|request rest] eqn:Hq; [simpl in Hw; lia|].
    destruct keys as [|key keys]; [simpl in Hk; lia|].
    simpl in Hw, Hk.
    set (l1 := {| rate := rate l; requestsWaiting := rest;
                  requestsRunning := <[key := _]> (requestsRunning l);
                  granted := granted l ++ [(request, key)] |}).
    destruct (IH keys now l1) as (Hrest & Hgr & Hsize); [simpl; lia | lia |].
    split; [exact Hrest|]. split.
    + rewrite Hgr. simpl. now rewrite <- app_assoc.
    + simpl. intros Hnd Hfresh. apply NoDup_cons in Hnd as [Hnotin Hnd].
      rewrite Hsize.
      * simpl. rewrite map_size_insert_None by (apply Hfresh; now left). lia.
      * exact Hnd.
      * intros key' Hin. simpl.
        rewrite lookup_insert_ne.
        -- apply Hfresh. now right.
        -- intros ->. apply Hnotin. now apply list_elem_of_In.
Qed.

End RateLimiterQueue.

(** One round of [RateLimiter.processQueue] never takes the number of
    running requests above the rate: after the round the map holds at most
    as many entries as the rate allows, or as many as were still counted
    before the round if that was more already (after a reduction of the
    rate). This holds whatever keys [Math.random] produces. *)
Theorem rate_limiter_round_within_rate (keys : list string) (now : Z)
    (l : RateLimiter.Limiter) :
  let counted := size (RateLimiter.requestsRunning
                         (snd (RateLimiter.getAvailableSlots now l))) in
  let l' := RateLimiter.processRound keys now l in
  Z.of_nat (size (RateLimiter.requestsRunning l'))
    <= Z.max (RateLimiter.requestsPerSecond (RateLimiter.rate l)) (Z.of_nat counted) /\
  RateLimiter.rate l' = RateLimiter.rate l.
Proof.
  cbv zeta. unfold RateLimiter.processRound, RateLimiter.getAvailableSlots.
  cbn [fst snd RateLimiter.requestsRunning RateLimiter.rate RateLimiter.requestsWaiting].
  set (running := filter _ (RateLimiter.requestsRunning l)).
  set (rps := RateLimiter.requestsPerSecond (RateLimiter.rate l)).
  destruct (Z.eqb_spec (Z.max 0 (rps - Z.of_nat (size running))) 0) as [Hz | Hnz].
  - simpl. split; [lia | reflexivity].
  - rewrite grantBatch_rate. split; [|reflexivity].
    match goal with |- context [RateLimiter.grantBatch ?n ?ks ?t ?l0] =>
      pose proof (grantBatch_size n ks t l0) as Hsize
    end.
    cbn [RateLimiter.requestsRunning] in Hsize. lia.
Qed.

(** A round grants in queue order: with a key for every grant it resolves
    the first [min(availableSlots, requestsWaiting.length)] waiting
    promises, leaves the others queued in their order, and, when the keys
    are distinct and not in use, adds exactly one running entry per
    grant. *)
Theorem rate_limiter_round_fifo (keys : list string) (now : Z)
    (l : RateLimiter.Limiter)
    (Hkeys : (length (RateLimiter.requestsWaiting l) <= length keys)%nat) :
  let availableSlots := fst (RateLimiter.getAvailableSlots now l) in
  let pruned := snd (RateLimiter.getAvailableSlots now l) in
  let n := Z.to_nat (Z.min availableSlots
                           (Z.of_nat (length (RateLimiter.requestsWaiting l)))) in
  let l' := RateLimiter.processRound keys now l in
  RateLimiter.requestsWaiting l' = drop n (RateLimiter.requestsWaiting l) /\
  map fst (RateLimiter.granted l')
    = map fst (RateLimiter.granted l) ++ take n (RateLimiter.requestsWaiting l) /\
  (NoDup (take n keys) ->
   (forall key, In key (take n keys) -> RateLimiter.requestsRunning pruned !! key = None) ->
   size (RateLimiter.requestsRunning l')
     = (size (RateLimiter.requestsRunning pruned) + n)%nat).
Proof.
  cbv zeta. unfold RateLimiter.processRound.
  destruct (RateLimiter.getAvailableSlots now l) as [availableSlots l1] eqn:Hg.
  assert (Hw : RateLimiter.requestsWaiting l1 = RateLimiter.requestsWaiting l /\
               RateLimiter.granted l1 = RateLimiter.granted l /\
               0 <= availableSlots).
  { unfold RateLimiter.getAvailableSlots in Hg. injection Hg as <- <-.
    simpl. repeat split. lia. }
  destruct Hw as (Hw & Hgr & Hnn). cbn [fst snd].
  destruct (Z.eqb_spec availableSlots 0) as [-> | Hnz].
  - rewrite Z.min_l by lia. simpl. rewrite Hw, Hgr, app_nil_r. repeat split. lia.
  - rewrite <- Hw.
    set (n := Z.to_nat (Z.min availableSlots (Z.of_nat (length (RateLimiter.requestsWaiting l1))))).
    destruct (grantBatch_fifo n keys now l1) as (Hrest & Hgranted & Hsize);
      [subst n; lia | subst n; rewrite Hw; lia |].
    split; [exact Hrest|]. split; [|exact Hsize].
    rewrite Hgranted, map_app, Hgr. f_equal.
    apply fst_zip. rewrite !length_take. subst n. rewrite Hw. lia.
Qed.

Lemma rate_limiter_round_fifo_witness :
  let l := {| RateLimiter.rate := {| RateLimiter.maxRequestsPerSecond := 2;
                                     RateLimiter.requestsPerSecond := 2 |};
              RateLimiter.requestsWaiting := [7; 8; 9]%nat;
              RateLimiter.requestsRunning := ∅;
              RateLimiter.granted := [] |} in
  RateLimiter.requestsWaiting (RateLimiter.processRound ["a"; "b"; "c"] 100000 l)
    = [9%nat] /\
  map fst (RateLimiter.granted (RateLimiter.processRound ["a"; "b"; "c"] 100000 l))
    = [7; 8]%nat.
Proof.
  cbv zeta.
  match goal with |- context [RateLimiter.processRound ?ks ?t ?l] =>
    destruct (rate_limiter_round_fifo ks t l) as (Hrest & Hgranted & _);
      [simpl; lia|]
  end.
  split; [exact Hrest | exact Hgranted].
Defined.

(** ** [RateLimiter]: releasing a reclaimed slot *)

(** The release callback of [RateLimiter] only marks the entry: while the
    entry is in the map the call succeeds, stamps [endedAt] and leaves the
    number of entries unchanged. Once [getAvailableSlots] has reclaimed a
    request that started more than 60000 ms earlier, its release callback
    throws a [TypeError]. *)
Theorem rate_limiter_release_after_reclaim (key : string) (now later : Z)
    (l : RateLimiter.Limiter) (q : RateLimiter.RequestRunning)
    (Hq : RateLimiter.requestsRunning l !! key = Some q) :
  (exists l',
     RateLimiter.release key now l = Ok l' /\
     RateLimiter.requestsRunning l' !! key
       = Some {| RateLimiter.startedAt := RateLimiter.startedAt q;
                 RateLimiter.endedAt := Some now |} /\
     size (RateLimiter.requestsRunning l') = size (RateLimiter.requestsRunning l) /\
     RateLimiter.requestsWaiting l' = RateLimiter.requestsWaiting l) /\
  (RateLimiter.startedAt q <> 0 ->
   RateLimiter.startedAt q < now - 60000 ->
   RateLimiter.release key later (snd (RateLimiter.getAvailableSlots now l))
     = Throw "TypeError: Cannot set properties of undefined (setting 'endedAt')").
Proof.
  split.
  - unfold RateLimiter.release. rewrite Hq. eexists. split; [reflexivity|]. simpl.
    split; [apply lookup_insert_eq|]. split; [|reflexivity].
    apply map_size_insert_Some. eauto.
  - intros Hstarted Hold. unfold RateLimiter.release, RateLimiter.getAvailableSlots.
    cbn [snd RateLimiter.requestsRunning].
    assert (Hnone : filter (fun kv => RateLimiter.expired now (snd kv) = false)
                      (RateLimiter.requestsRunning l) !! key = None).
    { apply map_lookup_filter_None. right. intros q' Hq'. simpl.
      rewrite Hq in Hq'. injection Hq' as <-.
      unfold RateLimiter.expired.
      destruct (Z.eqb_spec (RateLimiter.startedAt q) 0); [contradiction|].
      destruct (Z.ltb_spec (RateLimiter.startedAt q) (now - 60 * 1000)); [|lia].
      simpl. rewrite orb_true_r. discriminate. }
    now rewrite Hnone.
Qed.

Lemma rate_limiter_release_after_reclaim_witness :
  let l := RateLimiter.processRound ["k"] 100000
             {| RateLimiter.rate := {| RateLimiter.maxRequestsPerSecond := 1;
                                       RateLimiter.requestsPerSecond := 1 |};
                RateLimiter.requestsWaiting := [0%nat];
                RateLimiter.requestsRunning := ∅;
                RateLimiter.granted := [] |} in
  RateLimiter.release "k" 160002 (snd (RateLimiter.getAvailableSlots 160001 l))
    = Throw "TypeError: Cannot set properties of undefined (setting 'endedAt')".
Proof.
  cbv zeta.
  match goal with |- context [RateLimiter.getAvailableSlots _ ?l] =>
    assert (Hq : RateLimiter.requestsRunning l !! "k"
                 = Some {| RateLimiter.startedAt := 100000; RateLimiter.endedAt := None |})
      by (vm_compute; reflexivity);
    destruct (rate_limiter_release_after_reclaim "k" 160001 160002 l _ Hq) as [_ Hthrow]
  end.
  apply Hthrow; simpl; lia.
Defined.

(** ** [RateLimiter]: reductions are not debounced *)

Section RateLimiterRate.

Lemma RateLimiter_reduce_n (n : nat) :
  forall r,
    1 <= RateLimiter.requestsPerSecond r ->
    0 <= RateLimiter.maxRequestsPerSecond r ->
    RateLimiter.requestsPerSecond
      (fold_left RateLimiter.step (repeat RateLimiter.Reduce n) r)
    = Z.max 1 (RateLimiter.requestsPerSecond r
               - Z.of_nat n * (RateLimiter.maxRequestsPerSecond r / 4)) /\
    RateLimiter.maxRequestsPerSecond
      (fold_left RateLimiter.step (repeat RateLimiter.Reduce n) r)
    = RateLimiter.maxRequestsPerSecond r.
Proof.
  induction n as [|n IH]; intros r Hcur Hmax.
  - simpl. split; [lia | reflexivity].
  - cbn [repeat fold_left RateLimiter.step].
    assert (0 <= RateLimiter.maxRequestsPerSecond r / 4) by (apply Z.div_pos; lia).
    destruct (IH (RateLimiter.reduceTemporaryRateLimit r)) as [Hr Hm];
      [simpl; lia | simpl; lia |].
    rewrite Hr, Hm. simpl RateLimiter.requestsPerSecond.
    simpl RateLimiter.maxRequestsPerSecond. split; [lia | reflexivity].
Qed.

End RateLimiterRate.

(** [RateLimiter.reduceTemporaryRateLimit] has no debounce: for a rate up
    to [Number.MAX_SAFE_INTEGER], [n] calls in a row, however close, lower
    the rate [n] times by a quarter of the maximum (rounded down), never
    below 1; the restoration then brings it back to the maximum in one
    step. *)
Theorem rate_limiter_reductions_add_up (N : Z) (n : nat) (HN : 1 <= N)
    (Hsafe : N <= MAX_SAFE_INTEGER) :
  exists r0,
    RateLimiter.constructor N = Ok r0 /\
    let reduced := fold_left RateLimiter.step (repeat RateLimiter.Reduce n) r0 in
    RateLimiter.requestsPerSecond reduced = Z.max 1 (N - Z.of_nat n * (N / 4)) /\
    RateLimiter.requestsPerSecond (RateLimiter.step reduced RateLimiter.Elapse) = N.
Proof.
  unfold RateLimiter.constructor. destruct (Z.leb_spec N 0); [lia|].
  eexists. split; [reflexivity|]. cbv zeta.
  match goal with |- context [fold_left _ _ ?r] =>
    destruct (RateLimiter_reduce_n n r) as [Hr Hm]; [simpl; lia | simpl; lia |]
  end.
  split; [exact Hr|]. simpl. exact Hm.
Qed.

Lemma rate_limiter_reductions_add_up_witness :
  exists r0,
    RateLimiter.constructor 20 = Ok r0 /\
    RateLimiter.requestsPerSecond
      (fold_left RateLimiter.step (repeat RateLimiter.Reduce 3) r0) = 5.
Proof.
  destruct (rate_limiter_reductions_add_up 20 3 ltac:(lia) ltac:(discriminate))
    as (r0 & Hc & Hr & _).
  exists r0. split; [exact Hc | exact Hr].
Defined.

(** ** Timers armed by the scheduler *)

Section Appends.

Lemma appends_refl (P : Callback -> Prop) (r : Runtime) : appends P r r.
Proof.
  exists []. simpl. rewrite app_nil_r, Nat.add_0_r. repeat split. constructor.
Qed.

Lemma appends_same (P : Callback -> Prop) (r r' : Runtime) :
  timers r' = timers r -> nextHandle r' = nextHandle r -> appends P r r'.
Proof.
  intros Ht Hn. exists []. simpl. rewrite app_nil_r, Nat.add_0_r. repeat split; auto.
Qed.

Lemma appends_trans (P : Callback -> Prop) (r1 r2 r3 : Runtime) :
  appends P r1 r2 -> appends P r2 r3 -> appends P r1 r3.
Proof.
  intros (n1 & Ht1 & Hh1 & Hn1 & Hp1) (n2 & Ht2 & Hh2 & Hn2 & Hp2).
  exists (n1 ++ n2). repeat split.
  - now rewrite Ht2, Ht1, app_assoc.
  - rewrite map_app, length_app, seq_app, Hh1, Hh2, Hn1. reflexivity.
  - rewrite Hn2, Hn1, length_app. lia.
  - apply Forall_app. split; assumption.
Qed.

Lemma appends_weaken (P Q : Callback -> Prop) (r r' : Runtime) :
  (forall cb, P cb -> Q cb) -> appends P r r' -> appends Q r r'.
Proof.
  intros HPQ (new & Ht & Hh & Hn & Hp). exists new. repeat split; try assumption.
  eapply Forall_impl; [exact Hp|]. simpl. auto.
Qed.

Lemma setTimeout_appends (P : Callback -> Prop) (cb : Callback) (delay : Z) (r : Runtime) :
  P cb -> appends P r (snd (setTimeout cb delay r)).
Proof.
  intros Hcb. unfold setTimeout; simpl. eexists. repeat split.
  - simpl. lia.
  - repeat constructor. exact Hcb.
Qed.

Lemma setImmediate_appends (P : Callback -> Prop) (cb : Callback) (r : Runtime) :
  P cb -> appends P r (snd (setImmediate cb r)).
Proof.
  intros Hcb. unfold setImmediate; simpl. eexists. repeat split.
  - simpl. lia.
  - repeat constructor. exact Hcb.
Qed.

Lemma appends_In_old (P : Callback -> Prop) (r r' : Runtime) (tm : Timer) :
  appends P r r' -> In tm (timers r) -> In tm (timers r').
Proof. intros (new & -> & _) Hin. apply in_or_app. now left. Qed.

Lemma appends_In_new (P : Callback -> Prop) (r r' : Runtime) (tm : Timer) :
  appends P r r' -> In tm (timers r') ->
  In tm (timers r) \/ (P (callback tm) /\ (nextHandle r <= handle tm)%nat).
Proof.
  intros (new & -> & Hh & _ & Hp) Hin.
  apply in_app_or in Hin as [Hin | Hin]; [now left | right]. split.
  - rewrite List.Forall_forall in Hp. now apply Hp.
  - assert (Hin' : In (handle tm) (map handle new)) by now apply in_map.
    rewrite Hh in Hin'. apply in_seq in Hin'. lia.
Qed.

Lemma appends_unique (P : Callback -> Prop) (r r' : Runtime) :
  appends P r r' -> fresh_handles r -> unique_handles r -> unique_handles r'.
Proof.
  unfold unique_handles, fresh_handles. intros (new & -> & Hh & _ & _) Hf Hu.
  rewrite map_app. apply NoDup_app. split; [exact Hu|]. split.
  - intros h Hin Hin'. apply list_elem_of_In in Hin, Hin'.
    rewrite Hh in Hin'. apply in_seq in Hin'.
    apply in_map_iff in Hin as (tm & <- & Hin).
    rewrite List.Forall_forall in Hf. specialize (Hf tm Hin). lia.
  - rewrite Hh. apply NoDup_ListNoDup, List.seq_NoDup.
Qed.

Lemma clearTimeout_In (h : nat) (r : Runtime) (tm : Timer) :
  In tm (timers (clearTimeout h r)) <-> In tm (timers r) /\ handle tm <> h.
Proof.
  unfold clearTimeout; simpl. rewrite filter_In, negb_true_iff, Nat.eqb_neq. tauto.
Qed.

Lemma clearTimeout_unique (h : nat) (r : Runtime) :
  unique_handles r -> unique_handles (clearTimeout h r).
Proof.
  unfold unique_handles, clearTimeout; simpl.
  induction (timers r) as [|tm tms IH]; simpl; intros Hu; [constructor|].
  apply NoDup_cons in Hu as [Hnotin Hu].
  destruct (Nat.eqb (handle tm) h); simpl; [auto|].
  apply NoDup_cons. split; [|auto].
  intros Hin. apply Hnotin. apply list_elem_of_In in Hin. apply list_elem_of_In.
  apply in_map_iff in Hin as (tm' & Heq & Hin').
  apply filter_In in Hin' as [Hin' _]. apply in_map_iff. eauto.
Qed.

Lemma unique_handle_inj (r : Runtime) (tm1 tm2 : Timer) :
  unique_handles r -> In tm1 (timers r) -> In tm2 (timers r) ->
  handle tm1 = handle tm2 -> tm1 = tm2.
Proof.
  unfold unique_handles.
  induction (timers r) as [|tm tms IH]; simpl; intros Hu H1 H2 Heq; [contradiction|].
  apply NoDup_cons in Hu as [Hnotin Hu].
  destruct H1 as [<- | H1], H2 as [<- | H2]; auto.
  - exfalso. apply Hnotin. apply list_elem_of_In. rewrite Heq. now apply in_map.
  - exfalso. apply Hnotin. apply list_elem_of_In. rewrite <- Heq. now apply in_map.
Qed.

Lemma findTimer_unique (r : Runtime) (tm : Timer) :
  unique_handles r -> In tm (timers r) -> findTimer (handle tm) r = Some tm.
Proof.
  intros Hu Hin. unfold findTimer.
  destruct (List.find _ (timers r)) as [tm'|] eqn:Hfind.
  - apply find_some in Hfind as [Hin' Heq]. apply Nat.eqb_eq in Heq.
    f_equal. now apply (unique_handle_inj r).
  - exfalso. apply (find_none _ _ Hfind) in Hin. now rewrite Nat.eqb_refl in Hin.
Qed.

End Appends.

(** ** What one pass of the scheduling loop leaves behind *)

Section LoopOutcome.

Lemma resolve_frame (q : RequestWaiting) (r : Runtime) :
  timers (resolve q r) = timers r /\
  nextHandle (resolve q r) = nextHandle r /\
  (forall j, In j (jobs r) -> In j (jobs (resolve q r))).
Proof.
  unfold resolve, settle.
  destruct (promises r !! promise q) as [[[h|]| |msg]|]; simpl; repeat split; auto.
  intros j Hin. apply in_or_app. now left.
Qed.

Lemma shiftNext_processing (l l' : Limiter) (q : RequestWaiting) :
  shiftNext l = Some (q, l') -> isProcessing l' = isProcessing l.
Proof.
  unfold shiftNext.
  destruct (requestsHigh l); [destruct (requestsNormal l);
    [destruct (requestsLow l); [discriminate|]|]|];
    intros [= <- <-]; reflexivity.
Qed.

Lemma grantSlots_frame (n : nat) :
  forall w,
    timers (runtime (grantSlots n w)) = timers (runtime w) /\
    nextHandle (runtime (grantSlots n w)) = nextHandle (runtime w) /\
    isProcessing (limiter (grantSlots n w)) = isProcessing (limiter w) /\
    (forall j, In j (jobs (runtime w)) -> In j (jobs (runtime (grantSlots n w)))).
Proof.
  induction n as [|n IH]; intros w; simpl; [repeat split; auto|].
  destruct (shiftNext (limiter w)) as [[q l']|] eqn:Hs; [|repeat split; auto].
  destruct (IH {| limiter := l'; runtime := resolve q (runtime w) |})
    as (Ht & Hn & Hp & Hj). simpl in *.
  destruct (resolve_frame q (runtime w)) as (Ht' & Hn' & Hj').
  rewrite Ht, Hn, Hp, Ht', Hn'. repeat split; auto.
  now apply shiftNext_processing in Hs.
Qed.

(** A pass ends in one of two ways: the lanes are empty, the flag is
    cleared and a restart is queued with [setImmediate]; or requests are
    left, the flag is as it was and the 50 ms timer is armed. *)
Lemma queueLoop_outcome (fuel : nat) :
  forall w w', queueLoop fuel w = Some w' ->
    appends loop_callback (runtime w) (runtime w') /\
    (forall j, In j (jobs (runtime w)) -> In j (jobs (runtime w'))) /\
    ((queueLength (limiter w') = 0%nat /\ isProcessing (limiter w') = false) \/
     (queueLength (limiter w') <> 0%nat /\
      isProcessing (limiter w') = isProcessing (limiter w) /\
      exists tm, In tm (timers (runtime w')) /\ callback tm = WakeQueue)).
Proof.
  induction fuel as [|fuel IH]; intros w w'; [discriminate|].
  rewrite queueLoop_unfold.
  destruct (Nat.eqb_spec (queueLength (limiter w)) 0) as [Hz | Hnz].
  - intros [= <-]. unfold finish. split; [|split].
    + apply (setImmediate_appends loop_callback RestartQueue). now right.
    + simpl. auto.
    + left. simpl. auto.
  - destruct (fst (getAvailableSlots w) =? 0).
    + intros [= <-]. unfold sleep, getAvailableSlots; cbn [snd]. split; [|split].
      * apply (setTimeout_appends loop_callback WakeQueue 50). now left.
      * simpl. auto.
      * right. simpl. repeat split; [exact Hnz|].
        eexists. split; [apply in_or_app; right; now left | reflexivity].
    + intros Hq. apply IH in Hq as (Happ & Hjobs & Hend).
      destruct (grantSlots_frame (Z.to_nat (fst (getAvailableSlots w)))
                  (snd (getAvailableSlots w))) as (Ht & Hn & Hp & Hj).
      unfold getAvailableSlots in Ht, Hn, Hp, Hj; cbn [fst snd] in Ht, Hn, Hp, Hj.
      simpl in Ht, Hn, Hp, Hj.
      split; [|split].
      * eapply appends_trans; [|exact Happ]. now apply appends_same.
      * intros j Hin. apply Hjobs, Hj. exact Hin.
      * destruct Hend as [Hdone | (Hleft & Hflag & Hwake)]; [now left | right].
        repeat split; try assumption. now rewrite Hflag.
Qed.

Lemma runQueue_outcome (w : World) :
  appends loop_callback (runtime w) (runtime (runQueue w)) /\
  (forall j, In j (jobs (runtime w)) -> In j (jobs (runtime (runQueue w)))) /\
  ((queueLength (limiter (runQueue w)) = 0%nat /\
    isProcessing (limiter (runQueue w)) = false) \/
   (queueLength (limiter (runQueue w)) <> 0%nat /\
    isProcessing (limiter (runQueue w)) = isProcessing (limiter w) /\
    exists tm, In tm (timers (runtime (runQueue w))) /\ callback tm = WakeQueue)).
Proof. apply (queueLoop_outcome _ _ _ (runQueue_spec w)). Qed.

Lemma runQueue_record (w : World) :
  reduceLimitTimeout (limiter (runQueue w)) = reduceLimitTimeout (limiter w).
Proof.
  destruct (runQueue_advances w) as [Hrate _ _ _ _ _ _].
  unfold rateOf in Hrate. congruence.
Qed.

Lemma processQueue_record (w : World) :
  reduceLimitTimeout (limiter (processQueue w)) = reduceLimitTimeout (limiter w).
Proof.
  destruct (processQueue_advances w) as [Hrate _ _ _ _ _ _].
  unfold rateOf in Hrate. congruence.
Qed.

Lemma processQueue_appends (w : World) :
  appends loop_callback (runtime w) (runtime (processQueue w)) /\
  (forall j, In j (jobs (runtime w)) -> In j (jobs (runtime (processQueue w)))).
Proof.
  unfold processQueue.
  destruct (queueLength (limiter w) =? 0)%nat; [split; [apply appends_refl | auto]|].
  destruct (isProcessing (limiter w)); [split; [apply appends_refl | auto]|].
  destruct (runQueue_outcome (on_limiter (with_processing true) w)) as (Happ & Hj & _).
  split; assumption.
Qed.

End LoopOutcome.

(** ** The loop is awake while requests wait *)

Section Awake.

Lemma queueLoop_length_le (fuel : nat) :
  forall w w', queueLoop fuel w = Some w' ->
    (queueLength (limiter w') <= queueLength (limiter w))%nat.
Proof.
  induction fuel as [|fuel IH]; intros w w'; [discriminate|].
  rewrite queueLoop_unfold.
  destruct (queueLength (limiter w) =? 0)%nat;
    [intros [= <-]; apply Nat.eq_le_incl; reflexivity|].
  destruct (fst (getAvailableSlots w) =? 0);
    [intros [= <-]; apply Nat.eq_le_incl; reflexivity|].
  intros Hq. apply IH in Hq. etransitivity; [exact Hq|].
  etransitivity; [apply grantSlots_length_le|]. rewrite getAvailableSlots_lanes. lia.
Qed.

Lemma wake_transfer (r r' : Runtime) :
  (forall tm, In tm (timers r) -> callback tm = WakeQueue -> In tm (timers r')) ->
  (In ResumeProcessQueue (jobs r) -> In ResumeProcessQueue (jobs r')) ->
  wake_pending r -> wake_pending r'.
Proof.
  intros Ht Hj [(tm & Hin & Hcb) | Hjob]; [left | right; auto].
  exists tm. split; [now apply Ht | exact Hcb].
Qed.

Lemma runQueue_wakes (w : World) :
  (queueLength (limiter w) <> 0%nat -> isProcessing (limiter w) = true) ->
  awake (runQueue w).
Proof.
  intros Hflag.
  pose proof (queueLoop_length_le _ _ _ (runQueue_spec w)) as Hle.
  destruct (runQueue_outcome w) as (_ & _ & [[Hz Hf] | (Hnz & Hsame & Hwake)]).
  - split; [intros Hne; contradiction | intros Ht; congruence].
  - split.
    + intros _. rewrite Hsame. apply Hflag. lia.
    + intros _. now left.
Qed.

Lemma processQueue_wakes (w : World) :
  (isProcessing (limiter w) = true -> wake_pending (runtime w)) ->
  awake (processQueue w).
Proof.
  intros Hwake. unfold processQueue.
  destruct (Nat.eqb_spec (queueLength (limiter w)) 0) as [Hz | Hnz].
  - split; [intros Hne; contradiction | exact Hwake].
  - destruct (isProcessing (limiter w)) eqn:Hflag.
    + split; [intros _; exact Hflag | intros _; now apply Hwake].
    + apply runQueue_wakes. intros _. reflexivity.
Qed.

Lemma record_transfer (w w' : World) :
  reduceLimitTimeout (limiter w') = reduceLimitTimeout (limiter w) ->
  (forall tm, In tm (timers (runtime w)) -> callback tm = RestoreLimit ->
              In tm (timers (runtime w'))) ->
  (forall tm, In tm (timers (runtime w')) -> callback tm = RestoreLimit ->
              In tm (timers (runtime w))) ->
  restoration_on_record w -> restoration_on_record w'.
Proof.
  intros Hto Hkeep Hback [H1 H2]. split.
  - intros h Hrec. rewrite Hto in Hrec.
    destruct (H1 h Hrec) as (tm & Hin & Hh & Hcb). exists tm. auto.
  - intros tm Hin Hcb. rewrite Hto. auto.
Qed.

Lemma record_appends (P : Callback -> Prop) (w w' : World) :
  (forall cb, P cb -> cb <> RestoreLimit) ->
  reduceLimitTimeout (limiter w') = reduceLimitTimeout (limiter w) ->
  appends P (runtime w) (runtime w') ->
  restoration_on_record w -> restoration_on_record w'.
Proof.
  intros HP Hto Happ. apply record_transfer; [exact Hto | |].
  - intros tm Hin _. eapply appends_In_old; eassumption.
  - intros tm Hin Hcb.
    destruct (appends_In_new _ _ _ _ Happ Hin) as [Hold | [Hnew _]]; [exact Hold|].
    now destruct (HP _ Hnew).
Qed.

Lemma loop_callback_not_restore (cb : Callback) : loop_callback cb -> cb <> RestoreLimit.
Proof. intros [-> | ->]; discriminate. Qed.

Lemma settle_frame (p : nat) (s : PromiseState) (r : Runtime) :
  timers (settle p s r) = timers r /\
  nextHandle (settle p s r) = nextHandle r /\
  (forall j, In j (jobs r) -> In j (jobs (settle p s r))).
Proof.
  unfold settle.
  destruct (promises r !! p) as [[[h|]| |msg]|]; simpl; repeat split; auto.
  intros j Hin. apply in_or_app. now left.
Qed.

(** The shape of the state [requestSlot] returns, relative to the scheduler
    pass it triggers. *)
Lemma requestSlot_shape (options : RequestOptions) (w : World) :
  let w2 := processQueue (snd (pushRequest options w)) in
  let w' := snd (requestSlot options w) in
  limiter w' = limiter w2 /\
  appends (fun cb => exists p, cb = RejectTimeout p) (runtime w2) (runtime w') /\
  (forall j, In j (jobs (runtime w2)) -> In j (jobs (runtime w'))).
Proof.
  cbv zeta. unfold requestSlot.
  destruct (pushRequest options w) as [p w1]. cbn [snd].
  set (timeout := if truthy_time (timeoutMs options) then _ else _).
  pose proof (setTimeout_appends (fun cb => exists p, cb = RejectTimeout p)
                (RejectTimeout p) timeout (runtime (processQueue w1))
                (ex_intro _ p eq_refl)) as Happ.
  assert (Hjobs : jobs (snd (setTimeout (RejectTimeout p) timeout (runtime (processQueue w1))))
                  = jobs (runtime (processQueue w1))) by reflexivity.
  destruct (setTimeout (RejectTimeout p) timeout (runtime (processQueue w1))) as [h r2].
  cbn [snd limiter runtime] in *. split; [reflexivity|].
  unfold await. destruct (promises r2 !! p) as [[k| |msg]|]; split;
    try (eapply appends_trans; [exact Happ | now apply appends_same]);
    intros j Hin; rewrite <- Hjobs in Hin; simpl; auto;
    apply in_or_app; now left.
Qed.

End Awake.

Section Orderly.

Lemma orderly_create (t N : Z) (w : World) : create t N = Ok w -> orderly w.
Proof.
  intros Hc. split; [eapply tidy_create; eassumption|].
  revert Hc. unfold create, constructor.
  destruct (N <=? 0); [discriminate|]. intros [= <-].
  split; [constructor|]. split; split; simpl; try discriminate.
  - intros tm [].
  - intros Hne. now destruct Hne.
Qed.

Lemma orderly_requestSlot (options : RequestOptions) (w : World) :
  orderly w -> orderly (snd (requestSlot options w)).
Proof.
  intros (Ht & Hu & Hr & Ha).
  split; [now apply tidy_requestSlot|].
  destruct (requestSlot_shape options w) as (Hlim & Happ & Hjobs).
  destruct (requestSlot_arms options w) as [Hto _].
  set (w1 := snd (pushRequest options w)) in *.
  set (w' := snd (requestSlot options w)) in *.
  assert (Hw1 : runtime w1 = with_promises (promises (runtime w) ++ [Pending None]) (runtime w))
    by reflexivity.
  assert (Hflag1 : isProcessing (limiter w1) = isProcessing (limiter w)).
  { subst w1. unfold pushRequest, enqueue; simpl.
    destruct (strict_eq_string _ "high"); [|destruct (strict_eq_string _ "normal")];
      reflexivity. }
  destruct (processQueue_appends w1) as [Happ1 Hjobs1].
  assert (Hall : appends (fun cb => cb <> RestoreLimit) (runtime w) (runtime w')).
  { apply (appends_trans _ _ (runtime w1));
      [apply appends_same; rewrite Hw1; reflexivity|].
    eapply appends_trans.
    - eapply appends_weaken; [|exact Happ1]. apply loop_callback_not_restore.
    - eapply appends_weaken; [|exact Happ]. intros cb [p ->]. discriminate. }
  split; [|split].
  - eapply appends_unique; [exact Hall | apply Ht | exact Hu].
  - eapply (record_appends (fun cb => cb <> RestoreLimit)); eauto.
  - assert (Ha2 : awake (processQueue w1)).
    { apply processQueue_wakes. rewrite Hflag1. intros Hf.
      destruct Ha as [_ Hwake]. specialize (Hwake Hf).
      revert Hwake. apply wake_transfer; rewrite Hw1; simpl; auto. }
    destruct Ha2 as [Hq2 Hwake2]. unfold awake. rewrite Hlim. split; [exact Hq2|].
    intros Hf. specialize (Hwake2 Hf). revert Hwake2. apply wake_transfer.
    + intros tm Hin _. exact (appends_In_old _ _ _ _ Happ Hin).
    + apply Hjobs.
Qed.

Lemma orderly_reduceLimitTemporary (d : Z) (w w' : World) :
  reduceLimitTemporary d w = Ok w' -> orderly w -> orderly w'.
Proof.
  intros Hred (Ht & Hu & Hr & Ha).
  split; [eapply tidy_reduceLimitTemporary; eassumption|].
  revert Hred. unfold reduceLimitTemporary.
  destruct (d <=? 0); [discriminate|].
  destruct (_ <? 1000); [intros [= <-]; auto|].
  set (r1 := match reduceLimitTimeout (limiter w) with
             | Some h => clearTimeout h (runtime w) | None => runtime w end).
  assert (Hsub : forall tm, In tm (timers r1) -> In tm (timers (runtime w))).
  { subst r1. destruct (reduceLimitTimeout (limiter w)); [|auto].
    intros tm Hin. now apply clearTimeout_In in Hin. }
  assert (Hnone : forall tm, In tm (timers r1) -> callback tm <> RestoreLimit).
  { intros tm Hin Hcb. destruct Hr as [_ Hr2].
    pose proof (Hr2 tm (Hsub tm Hin) Hcb) as Hrec.
    subst r1. rewrite Hrec in Hin. apply clearTimeout_In in Hin. now destruct Hin. }
  assert (Hkeep : forall tm, In tm (timers (runtime w)) -> callback tm <> RestoreLimit ->
                    In tm (timers r1)).
  { intros tm Hin Hcb. subst r1.
    destruct (reduceLimitTimeout (limiter w)) as [ho|] eqn:Hrec; [|exact Hin].
    apply clearTimeout_In. split; [exact Hin|]. intros Hh.
    destruct Hr as [Hr1 _]. destruct (Hr1 ho Hrec) as (tmr & Hinr & Hhr & Hcbr).
    assert (tm = tmr) by (apply (unique_handle_inj (runtime w)); auto; congruence).
    congruence. }
  assert (Hf1 : fresh_handles r1 /\ unique_handles r1 /\ jobs r1 = jobs (runtime w)).
  { subst r1. destruct (reduceLimitTimeout (limiter w)).
    - split; [apply fresh_clearTimeout, Ht|]. split; [now apply clearTimeout_unique|].
      reflexivity.
    - split; [apply Ht|]. auto. }
  destruct Hf1 as (Hf1 & Hu1 & Hj1).
  pose proof (setTimeout_appends (fun cb => cb = RestoreLimit) RestoreLimit d r1 eq_refl)
    as Happ.
  unfold setTimeout in *. cbn [snd] in Happ.
  intros [= <-]. split; [|split].
  - eapply appends_unique; eassumption.
  - split; simpl.
    + intros h [= <-]. eexists. split; [apply in_or_app; right; now left|]. auto.
    + intros tm Hin Hcb. apply in_app_or in Hin as [Hin | [<- | []]]; [|reflexivity].
      now destruct (Hnone tm Hin).
  - destruct Ha as [Hq Hwake]. split; [exact Hq|]. simpl.
    intros Hf. specialize (Hwake Hf). revert Hwake. apply wake_transfer; simpl.
    + intros tm Hin Hcb. apply in_or_app. left. apply Hkeep; [exact Hin | congruence].
    + now rewrite Hj1.
Qed.

(** Clearing a handle under which no restoration and no wake-up is armed. *)
Lemma orderly_clearTimeout (h : nat) (w w' : World) :
  (forall tm, In tm (timers (runtime w)) -> handle tm = h ->
              callback tm <> RestoreLimit /\ callback tm <> WakeQueue) ->
  timers (runtime w') = timers (clearTimeout h (runtime w)) ->
  reduceLimitTimeout (limiter w') = reduceLimitTimeout (limiter w) ->
  queueLength (limiter w') = queueLength (limiter w) ->
  isProcessing (limiter w') = isProcessing (limiter w) ->
  (In ResumeProcessQueue (jobs (runtime w)) -> In ResumeProcessQueue (jobs (runtime w'))) ->
  unique_handles (runtime w) /\ restoration_on_record w /\ awake w ->
  unique_handles (runtime w') /\ restoration_on_record w' /\ awake w'.
Proof.
  intros Hcb Ht Hto Hq Hf Hj (Hu & Hr & Ha).
  assert (Hin' : forall tm, In tm (timers (runtime w')) <->
                   In tm (timers (runtime w)) /\ handle tm <> h)
    by (intros tm; rewrite Ht; apply clearTimeout_In).
  split; [|split].
  - unfold unique_handles. rewrite Ht. now apply clearTimeout_unique.
  - revert Hr. apply record_transfer; [exact Hto | |].
    + intros tm Hin Hr. apply Hin'. split; [exact Hin|].
      intros Hh. now destruct (Hcb tm Hin Hh).
    + intros tm Hin _. now apply Hin'.
  - destruct Ha as [Haq Hwake]. unfold awake. rewrite Hq, Hf. split; [exact Haq|].
    intros Hflag. specialize (Hwake Hflag). revert Hwake. apply wake_transfer; [|exact Hj].
    intros tm Hin Hw. apply Hin'. split; [exact Hin|].
    intros Hh. now destruct (Hcb tm Hin Hh).
Qed.

(** A step that keeps the timers as they are. *)
Lemma orderly_transfer (w w' : World) :
  timers (runtime w') = timers (runtime w) ->
  reduceLimitTimeout (limiter w') = reduceLimitTimeout (limiter w) ->
  queueLength (limiter w') = queueLength (limiter w) ->
  isProcessing (limiter w') = isProcessing (limiter w) ->
  (In ResumeProcessQueue (jobs (runtime w)) -> In ResumeProcessQueue (jobs (runtime w'))) ->
  unique_handles (runtime w) /\ restoration_on_record w /\ awake w ->
  unique_handles (runtime w') /\ restoration_on_record w' /\ awake w'.
Proof.
  intros Ht Hto Hq Hf Hj (Hu & Hr & Ha). split; [|split].
  - unfold unique_handles. now rewrite Ht.
  - revert Hr. apply record_transfer; [exact Hto | |]; rewrite Ht; auto.
  - destruct Ha as [Haq Hwake]. unfold awake. rewrite Hq, Hf. split; [exact Haq|].
    intros Hflag. specialize (Hwake Hflag). revert Hwake.
    apply wake_transfer; [rewrite Ht; auto | exact Hj].
Qed.

Lemma orderly_runQueue (w : World) :
  fresh_handles (runtime w) ->
  unique_handles (runtime w) -> restoration_on_record w ->
  (queueLength (limiter w) <> 0%nat -> isProcessing (limiter w) = true) ->
  unique_handles (runtime (runQueue w)) /\ restoration_on_record (runQueue w) /\
  awake (runQueue w).
Proof.
  intros Hf Hu Hr Ha.
  destruct (runQueue_outcome w) as (Happ & _ & _).
  split; [|split].
  - eapply appends_unique; eassumption.
  - revert Hr. eapply record_appends; [apply loop_callback_not_restore | | exact Happ].
    apply runQueue_record.
  - apply runQueue_wakes. exact Ha.
Qed.

Lemma orderly_processQueue (w : World) :
  fresh_handles (runtime w) ->
  unique_handles (runtime w) /\ restoration_on_record w /\ awake w ->
  unique_handles (runtime (processQueue w)) /\ restoration_on_record (processQueue w) /\
  awake (processQueue w).
Proof.
  intros Hf (Hu & Hr & Ha).
  destruct (processQueue_appends w) as (Happ & _).
  split; [|split].
  - eapply appends_unique; eassumption.
  - revert Hr. eapply record_appends; [apply loop_callback_not_restore | | exact Happ].
    apply processQueue_record.
  - apply processQueue_wakes. apply Ha.
Qed.

Lemma orderly_step (w : World) (e : Event) : orderly w -> orderly (step w e).
Proof.
  intros (Ht & Hrest). split; [now apply tidy_step|].
  destruct e as [options|d|request| |h|t]; cbn [step].
  - apply (orderly_requestSlot options w (conj Ht Hrest)).
  - destruct (reduceLimitTemporary d w) as [w'|msg] eqn:Hred; [|exact Hrest].
    apply (orderly_reduceLimitTemporary d w w' Hred (conj Ht Hrest)).
  - revert Hrest. apply orderly_transfer; reflexivity || auto.
  - destruct (jobs (runtime w)) as [|j js] eqn:Hj; [exact Hrest|].
    destruct j as [p h|]; cbn [runJob].
    + assert (Hreq : forall tm, In tm (timers (runtime w)) -> handle tm = h ->
                       callback tm <> RestoreLimit /\ callback tm <> WakeQueue).
      { intros tm Hin Hh. destruct Ht as [_ Hreq].
        destruct (Hreq h) as [_ Hcb]; [left; exists p; rewrite Hj; now left|].
        destruct (Hcb tm Hin Hh) as [p' ->]. split; discriminate. }
      assert (Hjobs : In ResumeProcessQueue (jobs (runtime w)) -> In ResumeProcessQueue js)
        by (rewrite Hj; intros [[=] | Hin]; exact Hin).
      unfold resumeRequestSlot.
      change (promises (runtime (on_runtime (with_jobs js) w)))
        with (promises (runtime w)).
      destruct (promises (runtime w) !! p) as [[k| |msg]|].
      * revert Hrest. apply orderly_transfer; reflexivity || auto.
      * revert Hrest. apply (orderly_clearTimeout h); reflexivity || auto.
      * revert Hrest. apply orderly_transfer; reflexivity || auto.
      * revert Hrest. apply orderly_transfer; reflexivity || auto.
    + destruct Hrest as (Hu & Hr & Ha).
      apply orderly_runQueue; [apply Ht | exact Hu | | apply Ha].
      revert Hr. apply record_transfer; auto.
  - destruct (jobs (runtime w)) as [|j js] eqn:Hj; [|exact Hrest].
    destruct (findTimer h (runtime w)) as [tm|] eqn:Hfind; [|exact Hrest].
    destruct (due tm <=? clock (runtime w)); [|exact Hrest].
    destruct (findTimer_In _ _ _ Hfind) as [Hin Hh].
    assert (Hsame : forall tm', In tm' (timers (runtime w)) -> handle tm' = h -> tm' = tm).
    { intros tm' Hin' Hh'. apply (unique_handle_inj (runtime w)); auto; [apply Hrest | congruence]. }
    destruct (callback tm) as [p| | |] eqn:Hcb; cbn [runCallback].
    + destruct (settle_frame p (Rejected "request timeout") (clearTimeout h (runtime w)))
        as (Hst & _ & Hsj).
      revert Hrest. apply (orderly_clearTimeout h); try reflexivity.
      * intros tm' Hin' Hh'. rewrite (Hsame tm' Hin' Hh'), Hcb. split; discriminate.
      * exact Hst.
      * intros Hrpq. apply Hsj. exact Hrpq.
    + destruct Hrest as (Hu & Hr & Ha). split; [|split].
      * now apply clearTimeout_unique.
      * split; simpl; [discriminate|].
        intros tm' Hin' Hcb'. apply clearTimeout_In in Hin' as [Hin' Hne].
        destruct Hr as [_ Hr2].
        pose proof (Hr2 tm Hin Hcb) as H1. pose proof (Hr2 tm' Hin' Hcb') as H2.
        congruence.
      * destruct Ha as [Haq Hwake]. split; [exact Haq|]. simpl.
        intros Hflag. specialize (Hwake Hflag). revert Hwake.
        apply wake_transfer; [|auto].
        intros tm' Hin' Hcb'. apply clearTimeout_In. split; [exact Hin'|].
        intros Hh'. rewrite (Hsame tm' Hin' Hh') in Hcb'. congruence.
    + destruct Hrest as (Hu & Hr & Ha). split; [|split].
      * now apply clearTimeout_unique.
      * revert Hr. apply record_transfer; [reflexivity | |].
        -- intros tm' Hin' Hcb'. apply clearTimeout_In. split; [exact Hin'|].
           intros Hh'. rewrite (Hsame tm' Hin' Hh') in Hcb'. congruence.
        -- intros tm' Hin' _. now apply clearTimeout_In in Hin'.
      * destruct Ha as [Haq _]. split; [exact Haq|]. simpl.
        intros _. right. apply in_or_app. right. now left.
    + apply orderly_processQueue; [apply fresh_clearTimeout, Ht|].
      revert Hrest. apply (orderly_clearTimeout h); try reflexivity; auto.
      intros tm' Hin' Hh'. rewrite (Hsame tm' Hin' Hh'), Hcb. split; discriminate.
  - revert Hrest. apply orderly_transfer; reflexivity || auto.
Qed.

Lemma orderly_run (es : list Event) : forall w, orderly w -> orderly (run w es).
Proof.
  unfold run. induction es as [|e es IH]; intros w Ho; simpl; [assumption|].
  apply IH. now apply orderly_step.
Qed.

End Orderly.

Section ReducedRate.

(** While no restoration is on record the rate is the full rate. *)
Lemma full_unless_scheduled_step (w : World) (e : Event) :
  (reduceLimitTimeout (limiter w) = None ->
   requestsPerSecond (limiter w) = maxRequestsPerSecond (limiter w)) ->
  reduceLimitTimeout (limiter (step w e)) = None ->
  requestsPerSecond (limiter (step w e)) = maxRequestsPerSecond (limiter (step w e)).
Proof.
  intros Hfull.
  assert (Hadv : forall w1 w2, advances w1 w2 ->
            (reduceLimitTimeout (limiter w1) = None ->
             requestsPerSecond (limiter w1) = maxRequestsPerSecond (limiter w1)) ->
            reduceLimitTimeout (limiter w2) = None ->
            requestsPerSecond (limiter w2) = maxRequestsPerSecond (limiter w2)).
  { intros w1 w2 [Hrate _ _ _ _ _ _] H1 H2. unfold rateOf in Hrate.
    injection Hrate as Hm _ Hr Hto _. rewrite Hr, Hm. apply H1. congruence. }
  destruct e as [options|d|request| |h|t]; cbn [step]; try exact Hfull.
  - destruct (requestSlot_shape options w) as (Hlim & _ & _). rewrite Hlim.
    apply Hadv with (w1 := snd (pushRequest options w));
      [apply processQueue_advances|].
    unfold pushRequest, enqueue; simpl.
    destruct (strict_eq_string _ "high"); [|destruct (strict_eq_string _ "normal")];
      exact Hfull.
  - unfold reduceLimitTemporary.
    destruct (d <=? 0); [exact Hfull|].
    destruct (_ <? 1000); [exact Hfull|].
    destruct (setTimeout _ _ _). simpl. discriminate.
  - destruct (jobs (runtime w)) as [|[p h|] js]; cbn [runJob]; [exact Hfull| |].
    + unfold resumeRequestSlot; simpl.
      destruct (promises (runtime w) !! p) as [[k| |msg]|]; exact Hfull.
    + apply Hadv with (w1 := on_runtime (with_jobs js) w);
        [apply runQueue_advances | exact Hfull].
  - destruct (jobs (runtime w)); [|exact Hfull].
    destruct (findTimer h (runtime w)) as [tm|]; [|exact Hfull].
    destruct (due tm <=? clock (runtime w)); [|exact Hfull].
    destruct (callback tm); cbn [runCallback]; try exact Hfull.
    + reflexivity.
    + apply Hadv with (w1 := on_runtime (clearTimeout h) w);
        [apply processQueue_advances | exact Hfull].
Qed.

Lemma full_unless_scheduled_run (es : list Event) :
  forall w,
    (reduceLimitTimeout (limiter w) = None ->
     requestsPerSecond (limiter w) = maxRequestsPerSecond (limiter w)) ->
    reduceLimitTimeout (limiter (run w es)) = None ->
    requestsPerSecond (limiter (run w es)) = maxRequestsPerSecond (limiter (run w es)).
Proof.
  unfold run. induction es as [|e es IH]; intros w Hfull; simpl; [exact Hfull|].
  apply IH. now apply full_unless_scheduled_step.
Qed.

End ReducedRate.

(** ** What an event does to the rate *)

Section Transitions.





End Transitions.

Section DebounceWindow.

Variables (tm : Timer) (T v1 : Z).
Hypothesis Hrestore : callback tm = RestoreLimit.



End DebounceWindow.

(** ** Handles are never issued twice *)

Section OwnHandle.

Lemma arms_old_or_new (r r' : Runtime) :
  arms r r' ->
  (nextHandle r <= nextHandle r')%nat /\
  forall tm, In tm (timers r') -> In tm (timers r) \/ (nextHandle r <= handle tm)%nat.
Proof.
  intros (Hle & new & Hnew & Hall). split; [exact Hle|].
  intros tm Hin. rewrite Hnew in Hin. apply in_app_or in Hin.
  destruct Hin as [Hin | Hin]; [now left | right].
  rewrite List.Forall_forall in Hall. apply Hall in Hin. lia.
Qed.

(** Timers are only cancelled, fired, or armed under handles that were
    never issued before. *)
Lemma step_timers (w : World) (e : Event) :
  (nextHandle (runtime w) <= nextHandle (runtime (step w e)))%nat /\
  forall tm, In tm (timers (runtime (step w e))) ->
    In tm (timers (runtime w)) \/ (nextHandle (runtime w) <= handle tm)%nat.
Proof.
  assert (Hcleared : forall h w',
            arms (clearTimeout h (runtime w)) (runtime w') ->
            (nextHandle (runtime w) <= nextHandle (runtime w'))%nat /\
            forall tm, In tm (timers (runtime w')) ->
              In tm (timers (runtime w)) \/ (nextHandle (runtime w) <= handle tm)%nat).
  { intros h w' Harms. destruct (arms_old_or_new _ _ Harms) as [Hle Hin].
    split; [exact Hle|]. intros tm Htm. destruct (Hin tm Htm) as [Hold | Hnew].
    - left. eapply clearTimeout_subset; eassumption.
    - now right. }
  destruct e as [options|d|request| |h|t]; cbn [step].
  - apply arms_old_or_new, requestSlot_arms.
  - unfold reduceLimitTemporary.
    destruct (d <=? 0); [apply arms_old_or_new, arms_refl|].
    destruct (_ <? 1000); [apply arms_old_or_new, arms_refl|].
    destruct (reduceLimitTimeout (limiter w)) as [h|].
    + pose proof (setTimeout_arms RestoreLimit d (clearTimeout h (runtime w))) as Harms.
      destruct (setTimeout RestoreLimit d (clearTimeout h (runtime w))) as [h' r2].
      apply (Hcleared h {| limiter := _; runtime := r2 |}). exact Harms.
    + pose proof (setTimeout_arms RestoreLimit d (runtime w)) as Harms.
      destruct (setTimeout RestoreLimit d (runtime w)) as [h' r2].
      apply arms_old_or_new. exact Harms.
  - apply arms_old_or_new. now apply arms_same.
  - destruct (jobs (runtime w)) as [|[p h|] js]; cbn [runJob].
    + apply arms_old_or_new, arms_refl.
    + unfold resumeRequestSlot. cbn [on_runtime runtime with_jobs promises].
      destruct (promises (runtime w) !! p) as [[k| |msg]|];
        try (apply arms_old_or_new; now apply arms_same).
      apply (Hcleared h). now apply arms_same.
    + destruct (runQueue_advances (on_runtime (with_jobs js) w)) as [_ _ _ _ _ Harms _].
      apply arms_old_or_new. exact Harms.
  - destruct (jobs (runtime w)); [|apply arms_old_or_new, arms_refl].
    destruct (findTimer h (runtime w)) as [tm|]; [|apply arms_old_or_new, arms_refl].
    destruct (due tm <=? clock (runtime w)); [|apply arms_old_or_new, arms_refl].
    apply (Hcleared h).
    destruct (callback tm) as [p| | |]; cbn [runCallback].
    + cbn [on_runtime runtime]. unfold reject.
      destruct (settle_frame p (Rejected "request timeout") (clearTimeout h (runtime w)))
        as (Ht & Hn & _).
      now apply arms_same.
    + apply arms_refl.
    + now apply arms_same.
    + destruct (processQueue_advances (on_runtime (clearTimeout h) w))
        as [_ _ _ _ _ Harms _]. exact Harms.
  - apply arms_old_or_new. now apply arms_same.
Qed.

Variable tm : Timer.

(** A handle is never issued twice: whatever is armed under the handle of
    [tm] is [tm] itself. *)
Lemma own_handle_run (es : list Event) :
  forall w,
    (handle tm < nextHandle (runtime w))%nat ->
    (forall tm', In tm' (timers (runtime w)) -> handle tm' = handle tm -> tm' = tm) ->
    forall tm', In tm' (timers (runtime (run w es))) -> handle tm' = handle tm -> tm' = tm.
Proof.
  induction es as [|e es IH]; intros w Hlt Hown; [exact Hown|].
  change (run w (e :: es)) with (run (step w e) es).
  destruct (step_timers w e) as [Hle Hin].
  apply IH; [lia|].
  intros tm' Htm' Hh. destruct (Hin tm' Htm') as [Hold | Hnew]; [now apply Hown | lia].
Qed.

End OwnHandle.

(** C8, as amended. Whatever happened to the limiter before, an effective
    [reduceLimitTemporary(durationMs)] call schedules one restoration, due
    after the delay node gives a timer of [durationMs] ([durationMs]
    itself up to [2^31 - 1] ms, 1 ms beyond). Whatever happens next, as
    long as this restoration is the one the limiter has on record (it has
    not fired and no later effective reduction has replaced it) its timer
    stays armed; it cannot fire before it is due, and when it fires the
    effective rate is exactly [maxRate], however many reductions preceded,
    and no restoration is left pending. Once it is no longer on record its
    timer is gone for good: a restoration replaced by a later effective
    call never happens, and the rate stays reduced until the restoration
    of the last effective call. *)
Theorem restoration_resets_to_max (t0 N : Z) (w0 : World) (es : list Event) (d : Z)
    (Hcreate : create t0 N = Ok w0)
    (Hd : 0 < d)
    (Heff : 1000 <= clock (runtime (run w0 es))
                    - reduceLimitTimestamp (limiter (run w0 es))) :
  let w := run w0 es in
  exists h w1,
    let tm := {| handle := h; due := clock (runtime w) + timerDelay d;
                 callback := RestoreLimit |} in
    reduceLimitTemporary d w = Ok w1 /\
    reduceLimitTimeout (limiter w1) = Some h /\
    findTimer h (runtime w1) = Some tm /\
    forall es',
      let w2 := run w1 es' in
      (reduceLimitTimeout (limiter w2) = Some h ->
       findTimer h (runtime w2) = Some tm /\
       (clock (runtime w2) < clock (runtime w) + timerDelay d -> step w2 (Fire h) = w2) /\
       (jobs (runtime w2) = [] -> clock (runtime w) + timerDelay d <= clock (runtime w2) ->
        requestsPerSecond (limiter (step w2 (Fire h))) = N /\
        reduceLimitTimeout (limiter (step w2 (Fire h))) = None)) /\
      (reduceLimitTimeout (limiter w2) <> Some h ->
       findTimer h (runtime w2) = None /\ step w2 (Fire h) = w2).
Proof.
  cbv zeta. set (w := run w0 es) in *.
  assert (Ho : orderly w) by (apply orderly_run; eapply orderly_create; eassumption).
  assert (Ht : tidy (runtime w)) by apply Ho.
  assert (HN : maxRequestsPerSecond (limiter w) = N).
  { subst w. rewrite maxRate_run. revert Hcreate. unfold create, constructor.
    destruct (N <=? 0); [discriminate|]. now intros [= <-]. }
  destruct (reduce_arms_restoration w d (proj1 Ht) Hd Heff)
    as (h & w1 & Hred & Hto & Hfind & Hmax & Hclk & Hjobs).
  exists h, w1. repeat (split; [assumption|]).
  set (tm := {| handle := h; due := clock (runtime w) + timerDelay d;
                callback := RestoreLimit |}) in *.
  assert (Ho1 : orderly w1) by (eapply orderly_reduceLimitTemporary; eassumption).
  assert (Ht1 : tidy (runtime w1)) by apply Ho1.
  destruct (findTimer_In _ _ _ Hfind) as [Hin1 _].
  assert (Hlt1 : (handle tm < nextHandle (runtime w1))%nat).
  { destruct Ht1 as [Hf1 _]. unfold fresh_handles in Hf1.
    rewrite List.Forall_forall in Hf1. apply (Hf1 tm Hin1). }
  assert (Hs1 : scheduled tm w1) by (split; [exact Hlt1 | auto]).
  intros es'. split.
  - intros Hrec.
    destruct (scheduled_run tm eq_refl es' w1 Ht1 Hs1) as [_ Hfind2].
    specialize (Hfind2 Hrec). change (handle tm) with h in Hfind2.
    split; [exact Hfind2|].
    set (w2 := run w1 es') in *. cbn [step]. split.
    + intros Hearly. destruct (jobs (runtime w2)); [|reflexivity].
      rewrite Hfind2. cbn [due tm].
      destruct (Z.leb_spec (clock (runtime w) + timerDelay d) (clock (runtime w2)));
        [lia | reflexivity].
    + intros Hidle Hdue. rewrite Hidle, Hfind2. cbn [due callback tm].
      destruct (Z.leb_spec (clock (runtime w) + timerDelay d) (clock (runtime w2))); [|lia].
      simpl. split; [|reflexivity].
      rewrite <- HN, <- Hmax. subst w2. now rewrite maxRate_run.
  - intros Hrec.
    assert (Hgone : findTimer h (runtime (run w1 es')) = None).
    { destruct (findTimer h (runtime (run w1 es'))) as [tm'|] eqn:Hfind2; [|reflexivity].
      exfalso. apply Hrec.
      destruct (findTimer_In _ _ _ Hfind2) as [Hin2 Hh2].
      assert (Hown : tm' = tm).
      { apply (own_handle_run tm es' w1 Hlt1); [|exact Hin2 | exact Hh2].
        intros tm'' Hin'' Hh''.
        destruct Ho1 as (_ & Huniq & _).
        eapply unique_handle_inj; eassumption. }
      subst tm'.
      destruct (orderly_run es' w1 Ho1) as (_ & _ & [_ Hrecord] & _).
      exact (Hrecord tm Hin2 eq_refl). }
    split; [exact Hgone|]. cbn [step]. rewrite Hgone.
    now destruct (jobs (runtime (run w1 es'))).
Qed.

Lemma restoration_resets_to_max_witness :
  exists w0, create 100000 20 = Ok w0 /\
    exists h w1,
      reduceLimitTemporary 5000
        (run w0 [CallReduceLimitTemporary 3000; Clock 102000]) = Ok w1 /\
      requestsPerSecond (limiter w1) = 16 /\
      requestsPerSecond (limiter
        (run w1 [CallRequestSlot noOptions; Microtask; Clock 107000; Fire h])) = 20.
Proof.
  eexists. split; [reflexivity|].
  match goal with |- context [run ?w0 ?es] =>
    destruct (restoration_resets_to_max 100000 20 w0 es 5000 eq_refl)
      as (h & w1 & Hred & Hto & _ & Hfire);
      [lia | vm_compute; discriminate |]
  end.
  exists h, w1. split; [exact Hred|].
  vm_compute in Hred. injection Hred as <-.
  vm_compute in Hto. injection Hto as <-.
  split; [reflexivity|].
  destruct (Hfire [CallRequestSlot noOptions; Microtask; Clock 107000]) as [Hon _].
  apply Hon; [reflexivity | reflexivity | vm_compute; discriminate].
Defined.

(** C8 as stated fails for an effective call that is followed by another
    one before its duration has elapsed. A limiter of rate 20 is reduced
    for 3000 ms at time 100000 (rate 18) and for 5000 ms at time 102000
    (rate 16). When the first duration has elapsed, at 103500, the first
    timer is gone and nothing is restored: the rate is 16, not 20, until
    the second restoration at 107000. *)
Lemma replaced_restoration_never_happens :
  exists w0, create 100000 20 = Ok w0 /\
    let w := run w0 [CallReduceLimitTemporary 3000; Clock 102000;
                     CallReduceLimitTemporary 5000; Clock 103500] in
    findTimer 1%nat (runtime w) = None /\
    step w (Fire 1%nat) = w /\
    requestsPerSecond (limiter w) = 16 /\
    maxRequestsPerSecond (limiter w) = 20 /\
    requestsPerSecond (limiter (run w [Clock 107000; Fire 2%nat])) = 20.
Proof.
  eexists. split; [reflexivity|]. cbv zeta. repeat split; reflexivity.
Qed.



(** In every run, the limiter has a restoration on record exactly when a
    restoration timer is armed, never more than one is armed, and whenever
    the rate is below the maximum one is armed: a reduction cannot outlive
    its restoration, and a replaced restoration never fires. *)
Theorem one_restoration_armed (t N : Z) (w0 : World) (es : list Event)
    (Hcreate : create t N = Ok w0) :
  let w := run w0 es in
  (forall h, reduceLimitTimeout (limiter w) = Some h ->
     exists tm, findTimer h (runtime w) = Some tm /\ callback tm = RestoreLimit) /\
  (forall tm, In tm (timers (runtime w)) -> callback tm = RestoreLimit ->
     reduceLimitTimeout (limiter w) = Some (handle tm)) /\
  (forall tm1 tm2, In tm1 (timers (runtime w)) -> In tm2 (timers (runtime w)) ->
     callback tm1 = RestoreLimit -> callback tm2 = RestoreLimit -> tm1 = tm2) /\
  (requestsPerSecond (limiter w) < N ->
   exists tm, In tm (timers (runtime w)) /\ callback tm = RestoreLimit).
Proof.
  cbv zeta. set (w := run w0 es).
  assert (Ho : orderly w) by (apply orderly_run; eapply orderly_create; eassumption).
  destruct Ho as (_ & Hu & [Hr1 Hr2] & _).
  split; [|split; [|split]].
  - intros h Hrec. destruct (Hr1 h Hrec) as (tm & Hin & Hh & Hcb).
    exists tm. split; [|exact Hcb]. subst h. now apply findTimer_unique.
  - exact Hr2.
  - intros tm1 tm2 H1 H2 Hc1 Hc2. apply (unique_handle_inj (runtime w)); auto.
    pose proof (Hr2 tm1 H1 Hc1). pose proof (Hr2 tm2 H2 Hc2). congruence.
  - intros Hlow.
    destruct (reduceLimitTimeout (limiter w)) as [h|] eqn:Hrec.
    + destruct (Hr1 h eq_refl) as (tm & Hin & _ & Hcb). eauto.
    + exfalso.
      assert (HN : maxRequestsPerSecond (limiter w) = N).
      { subst w. rewrite maxRate_run. revert Hcreate. unfold create, constructor.
        destruct (N <=? 0); [discriminate|]. now intros [= <-]. }
      assert (Hfull : requestsPerSecond (limiter w) = maxRequestsPerSecond (limiter w)).
      { subst w. apply full_unless_scheduled_run; [|exact Hrec].
        revert Hcreate. unfold create, constructor.
        destruct (N <=? 0); [discriminate|]. now intros [= <-]. }
      lia.
Qed.

Lemma one_restoration_armed_witness :
  exists w0, create 100000 20 = Ok w0 /\
    let w := run w0 [CallReduceLimitTemporary 5000; Clock 102000;
                     CallReduceLimitTemporary 7000] in
    exists tm, In tm (timers (runtime w)) /\ callback tm = RestoreLimit.
Proof.
  eexists. split; [reflexivity|]. cbv zeta.
  match goal with |- context [run ?w0 ?es] =>
    destruct (one_restoration_armed 100000 20 w0 es eq_refl) as (_ & _ & _ & Hlow)
  end.
  apply Hlow. vm_compute. reflexivity.
Defined.

(** In every run, no waiting request is stranded: whenever a lane is
    non-empty the processing flag is set, and whenever the flag is set the
    loop is due to run again (its 50 ms timer is armed, or its continuation
    is queued as a microtask). *)
Theorem no_request_stranded (t N : Z) (w0 : World) (es : list Event)
    (Hcreate : create t N = Ok w0) :
  let w := run w0 es in
  (queueLength (limiter w) <> 0%nat -> isProcessing (limiter w) = true) /\
  (isProcessing (limiter w) = true ->
   (exists tm, In tm (timers (runtime w)) /\ callback tm = WakeQueue) \/
   In ResumeProcessQueue (jobs (runtime w))).
Proof.
  cbv zeta.
  assert (Ho : orderly (run w0 es)) by (apply orderly_run; eapply orderly_create; eassumption).
  destruct Ho as (_ & _ & _ & Ha). exact Ha.
Qed.

Lemma no_request_stranded_witness :
  exists w0, create 100000 1 = Ok w0 /\
    let w := run w0 [CallRequestSlot noOptions; Microtask; CallRequestSlot noOptions] in
    isProcessing (limiter w) = true.
Proof.
  eexists. split; [reflexivity|]. cbv zeta.
  match goal with |- context [run ?w0 ?es] =>
    destruct (no_request_stranded 100000 1 w0 es eq_refl) as [Hflag _]
  end.
  apply Hflag. vm_compute. discriminate.
Defined.

(** ** The scheduler and the lanes *)

Section Scheduler.

Lemma shiftNext_waiting (l l' : Limiter) (q : RequestWaiting) :
  shiftNext l = Some (q, l') ->
  waiting l = q :: waiting l' /\ requestsRunning l' = requestsRunning l.
Proof.
  intros Hs. split; [now apply shiftNext_order|].
  revert Hs. unfold shiftNext.
  destruct (requestsHigh l); [destruct (requestsNormal l);
    [destruct (requestsLow l); [discriminate|]|]|];
    intros [= <- <-]; reflexivity.
Qed.

Lemma waiting_empty (l : Limiter) : queueLength l = 0%nat <-> waiting l = [].
Proof.
  unfold queueLength, waiting.
  destruct (requestsHigh l), (requestsNormal l), (requestsLow l); simpl;
    split; intros H; try reflexivity; try discriminate; lia.
Qed.

Lemma waiting_length (l : Limiter) : length (waiting l) = queueLength l.
Proof. unfold waiting, queueLength. rewrite !length_app. lia. Qed.

(** One pass of the grant loop takes the first [n] waiting requests. *)
Lemma grantSlots_waiting (n : nat) :
  forall w,
    waiting (limiter (grantSlots n w)) = drop n (waiting (limiter w)) /\
    runtime (grantSlots n w) = resolveAll (take n (waiting (limiter w))) (runtime w) /\
    requestsRunning (limiter (grantSlots n w)) = requestsRunning (limiter w).
Proof.
  induction n as [|n IH]; intros w; cbn [grantSlots].
  - rewrite drop_0, take_0. repeat split; reflexivity.
  - destruct (shiftNext (limiter w)) as [[q l']|] eqn:Hs.
    + destruct (shiftNext_waiting _ _ _ Hs) as [Hw Hrun].
      destruct (IH {| limiter := l'; runtime := resolve q (runtime w) |})
        as (Hd & Hr & Hru).
      cbn [limiter runtime] in Hd, Hr, Hru.
      rewrite Hd, Hr, Hru, Hw. repeat split; assumption.
    + apply shiftNext_none, waiting_empty in Hs. rewrite Hs.
      repeat split; reflexivity.
Qed.

(** [getAvailableSlots] looks at the clock, the heap, the running set and
    the rate only. *)
Lemma getAvailableSlots_same (w w' : World) :
  clock (runtime w') = clock (runtime w) ->
  heap (runtime w') = heap (runtime w) ->
  requestsRunning (limiter w') = requestsRunning (limiter w) ->
  requestsPerSecond (limiter w') = requestsPerSecond (limiter w) ->
  fst (getAvailableSlots w') = fst (getAvailableSlots w) /\
  requestsRunning (limiter (snd (getAvailableSlots w')))
    = requestsRunning (limiter (snd (getAvailableSlots w))).
Proof.
  intros Hc Hh Hr Hrate. unfold getAvailableSlots; simpl.
  now rewrite Hc, Hh, Hr, Hrate.
Qed.

Lemma getAvailableSlots_again (w : World) :
  fst (getAvailableSlots (snd (getAvailableSlots w))) = fst (getAvailableSlots w).
Proof.
  unfold getAvailableSlots; simpl. now rewrite filter_twice.
Qed.

Lemma getAvailableSlots_frame (w : World) :
  runtime (snd (getAvailableSlots w)) = runtime w /\
  waiting (limiter (snd (getAvailableSlots w))) = waiting (limiter w) /\
  requestsHigh (limiter (snd (getAvailableSlots w))) = requestsHigh (limiter w) /\
  requestsNormal (limiter (snd (getAvailableSlots w))) = requestsNormal (limiter w) /\
  requestsLow (limiter (snd (getAvailableSlots w))) = requestsLow (limiter w) /\
  isProcessing (limiter (snd (getAvailableSlots w))) = isProcessing (limiter w) /\
  requestsPerSecond (limiter (snd (getAvailableSlots w))) = requestsPerSecond (limiter w).
Proof. repeat split; reflexivity. Qed.

Lemma resolveAll_app (qs1 qs2 : list RequestWaiting) (r : Runtime) :
  resolveAll (qs1 ++ qs2) r = resolveAll qs2 (resolveAll qs1 r).
Proof. apply fold_left_app. Qed.

Lemma resolveAll_frame (qs : list RequestWaiting) :
  forall r, clock (resolveAll qs r) = clock r /\ heap (resolveAll qs r) = heap r /\
            timers (resolveAll qs r) = timers r /\
            nextHandle (resolveAll qs r) = nextHandle r /\
            outcomes (resolveAll qs r) = outcomes r.
Proof.
  induction qs as [|q qs IH]; intros r; [repeat split; reflexivity|].
  cbn [resolveAll fold_left]. destruct (IH (resolve q r)) as (Hc & Hh & Ht & Hn & Ho).
  unfold resolveAll in *. rewrite Hc, Hh, Ht, Hn, Ho.
  unfold resolve, settle.
  destruct (promises r !! promise q) as [[[h|]| |msg]|]; repeat split; reflexivity.
Qed.

(** With a free slot the loop does not stop before the lanes are empty:
    every waiting request is resolved, in the order of [waiting]. *)
Lemma queueLoop_drains (fuel : nat) :
  forall w,
    (queueLength (limiter w) < fuel)%nat ->
    0 < fst (getAvailableSlots w) ->
    exists w',
      queueLoop fuel w = Some w' /\
      queueLength (limiter w') = 0%nat /\
      isProcessing (limiter w') = false /\
      promises (runtime w') = promises (resolveAll (waiting (limiter w)) (runtime w)) /\
      jobs (runtime w') = jobs (resolveAll (waiting (limiter w)) (runtime w)).
Proof.
  induction fuel as [|fuel IH]; intros w Hfuel Hfree; [lia|].
  rewrite queueLoop_unfold.
  destruct (Nat.eqb_spec (queueLength (limiter w)) 0) as [Hz | Hnz].
  - eexists. split; [reflexivity|].
    apply waiting_empty in Hz as Hw. rewrite Hw.
    unfold finish, setImmediate; simpl. repeat split; assumption.
  - destruct (Z.eqb_spec (fst (getAvailableSlots w)) 0) as [Hzero | _]; [lia|].
    set (n := Z.to_nat (fst (getAvailableSlots w))).
    set (w1 := snd (getAvailableSlots w)).
    destruct (getAvailableSlots_frame w) as (Hr1 & Hw1 & _).
    destruct (grantSlots_waiting n w1) as (Hdrop & Hrun & Hrunning).
    fold w1 in Hr1, Hw1.
    assert (Hlt : (queueLength (limiter (grantSlots n w1)) < fuel)%nat).
    { assert (queueLength (limiter (grantSlots n w1)) < queueLength (limiter w1))%nat.
      { apply grantSlots_length_lt; [subst n; lia|].
        unfold w1. rewrite getAvailableSlots_lanes. lia. }
      unfold w1 in *. rewrite getAvailableSlots_lanes in *. lia. }
    assert (Hfree2 : 0 < fst (getAvailableSlots (grantSlots n w1))).
    { destruct (grantSlots_advances n w1) as [Hrate Hclk Hheap _ _ _ _].
      unfold rateOf in Hrate. injection Hrate as _ _ Hrps _ _.
      destruct (getAvailableSlots_same w1 (grantSlots n w1) Hclk Hheap Hrunning Hrps)
        as [Hsame _].
      rewrite Hsame. unfold w1. rewrite getAvailableSlots_again. exact Hfree. }
    destruct (IH (grantSlots n w1) Hlt Hfree2) as (w' & Hloop & Hq & Hp & Hps & Hjobs).
    exists w'. split; [exact Hloop|]. split; [exact Hq|]. split; [exact Hp|].
    rewrite Hdrop, Hrun, Hw1, Hr1 in Hps, Hjobs.
    rewrite <- resolveAll_app, take_drop in Hps, Hjobs. split; assumption.
Qed.

(** [processQueue] when it starts the loop: it grants nothing when no slot
    is free, and everything as soon as one is. *)
Lemma processQueue_full (w : World) :
  queueLength (limiter w) <> 0%nat -> isProcessing (limiter w) = false ->
  fst (getAvailableSlots w) = 0 ->
  requestsHigh (limiter (processQueue w)) = requestsHigh (limiter w) /\
  requestsNormal (limiter (processQueue w)) = requestsNormal (limiter w) /\
  requestsLow (limiter (processQueue w)) = requestsLow (limiter w) /\
  isProcessing (limiter (processQueue w)) = true /\
  promises (runtime (processQueue w)) = promises (runtime w) /\
  jobs (runtime (processQueue w)) = jobs (runtime w).
Proof.
  intros Hq Hidle Hfull. unfold processQueue.
  destruct (Nat.eqb_spec (queueLength (limiter w)) 0) as [|_]; [contradiction|].
  rewrite Hidle. unfold runQueue. rewrite queueLoop_unfold.
  cbn [on_limiter limiter].
  destruct (Nat.eqb_spec (queueLength (with_processing true (limiter w))) 0) as [Hz|_];
    [now destruct Hq|].
  assert (Hfst : fst (getAvailableSlots (on_limiter (with_processing true) w)) = 0)
    by exact Hfull.
  rewrite Hfst. cbn. repeat split; reflexivity.
Qed.

Lemma processQueue_free (w : World) :
  queueLength (limiter w) <> 0%nat -> isProcessing (limiter w) = false ->
  0 < fst (getAvailableSlots w) ->
  queueLength (limiter (processQueue w)) = 0%nat /\
  isProcessing (limiter (processQueue w)) = false /\
  promises (runtime (processQueue w))
    = promises (resolveAll (waiting (limiter w)) (runtime w)) /\
  jobs (runtime (processQueue w))
    = jobs (resolveAll (waiting (limiter w)) (runtime w)).
Proof.
  intros Hq Hidle Hfree. unfold processQueue.
  destruct (Nat.eqb_spec (queueLength (limiter w)) 0) as [|_]; [contradiction|].
  rewrite Hidle. unfold runQueue.
  destruct (queueLoop_drains
              (S (queueLength (limiter (on_limiter (with_processing true) w))))
              (on_limiter (with_processing true) w) ltac:(lia) Hfree)
    as (w' & Hloop & Hz & Hp & Hps & Hjobs).
  rewrite Hloop. cbn [default]. repeat split; assumption.
Qed.

(** The loop when it resumes after its 50 ms pause. *)
Lemma runQueue_full (w : World) :
  queueLength (limiter w) <> 0%nat -> fst (getAvailableSlots w) = 0 ->
  requestsHigh (limiter (runQueue w)) = requestsHigh (limiter w) /\
  requestsNormal (limiter (runQueue w)) = requestsNormal (limiter w) /\
  requestsLow (limiter (runQueue w)) = requestsLow (limiter w) /\
  promises (runtime (runQueue w)) = promises (runtime w) /\
  jobs (runtime (runQueue w)) = jobs (runtime w).
Proof.
  intros Hq Hfull. unfold runQueue. rewrite queueLoop_unfold.
  destruct (Nat.eqb_spec (queueLength (limiter w)) 0) as [|_]; [contradiction|].
  rewrite Hfull. cbn. repeat split; reflexivity.
Qed.

Lemma runQueue_free (w : World) :
  0 < fst (getAvailableSlots w) ->
  queueLength (limiter (runQueue w)) = 0%nat /\
  promises (runtime (runQueue w))
    = promises (resolveAll (waiting (limiter w)) (runtime w)) /\
  jobs (runtime (runQueue w))
    = jobs (resolveAll (waiting (limiter w)) (runtime w)).
Proof.
  intros Hfree. unfold runQueue.
  destruct (queueLoop_drains (S (queueLength (limiter w))) w ltac:(lia) Hfree)
    as (w' & Hloop & Hz & _ & Hps & Hjobs).
  rewrite Hloop. cbn [default]. repeat split; assumption.
Qed.

Lemma processQueue_busy (w : World) :
  isProcessing (limiter w) = true \/ queueLength (limiter w) = 0%nat ->
  processQueue w = w.
Proof.
  intros Hbusy. unfold processQueue.
  destruct (Nat.eqb_spec (queueLength (limiter w)) 0); [reflexivity|].
  destruct Hbusy as [-> | Hz]; [reflexivity | contradiction].
Qed.


Lemma resolve_promises (q : RequestWaiting) (r : Runtime) (p : nat) :
  (promises (resolve q r) !! p = promises r !! p /\
   (p <> promise q \/ forall k, promises r !! p <> Some (Pending k))) \/
  (p = promise q /\ promises (resolve q r) !! p = Some Fulfilled /\
   exists k, promises r !! p = Some (Pending k)).
Proof.
  unfold resolve, settle.
  destruct (decide (p = promise q)) as [-> | Hne].
  - destruct (promises r !! promise q) as [[k| |msg]|] eqn:Hq.
    + right. split; [reflexivity|]. split; [|eauto].
      assert (Hlt : (promise q < length (promises r))%nat)
        by (eapply lookup_lt_Some; eassumption).
      destruct k; cbn [promises with_jobs with_promises];
        now apply list_lookup_insert_eq.
    + left. split; [exact Hq|]. right. intros k. discriminate.
    + left. split; [exact Hq|]. right. intros k. discriminate.
    + left. split; [exact Hq|]. right. intros k. discriminate.
  - left. split; [|now left].
    destruct (promises r !! promise q) as [[[h|]| |msg]|];
      cbn [promises with_jobs with_promises]; try reflexivity;
      apply list_lookup_insert_ne; congruence.
Qed.

(** A pending promise whose request is in the list is fulfilled by it. *)
Lemma resolveAll_fulfils (p : nat) (qs : list RequestWaiting) :
  forall r,
    promises r !! p = Some Fulfilled \/
    ((exists k, promises r !! p = Some (Pending k)) /\ In {| promise := p |} qs) ->
    promises (resolveAll qs r) !! p = Some Fulfilled.
Proof.
  induction qs as [|q qs IH]; intros r Hp.
  - destruct Hp as [Hp | [_ []]]. exact Hp.
  - cbn [resolveAll fold_left]. apply IH.
    destruct (resolve_promises q r p) as [[Hsame Hwhy] | (_ & Hnow & _)]; [|now left].
    rewrite Hsame. destruct Hp as [Hp | [Hpend [Hhead | Htail]]].
    + now left.
    + subst q. destruct Hwhy as [Hne | Hno]; [now destruct Hne|].
      destruct Hpend as [k Hk]. now destruct (Hno k).
    + right. split; assumption.
Qed.

Lemma enqueue_lanes (v : JsValue) (q : RequestWaiting) (l : Limiter) :
  (v = JString "high" ->
   requestsHigh (enqueue v q l) = requestsHigh l ++ [q] /\
   requestsNormal (enqueue v q l) = requestsNormal l /\
   requestsLow (enqueue v q l) = requestsLow l) /\
  (v = JString "normal" ->
   requestsHigh (enqueue v q l) = requestsHigh l /\
   requestsNormal (enqueue v q l) = requestsNormal l ++ [q] /\
   requestsLow (enqueue v q l) = requestsLow l) /\
  (v <> JString "high" -> v <> JString "normal" ->
   requestsHigh (enqueue v q l) = requestsHigh l /\
   requestsNormal (enqueue v q l) = requestsNormal l /\
   requestsLow (enqueue v q l) = requestsLow l ++ [q]) /\
  In q (waiting (enqueue v q l)).
Proof.
  unfold enqueue, waiting.
  destruct (strict_eq_string v "high") eqn:Hh.
  - apply strict_eq_string_spec in Hh. subst v. cbn.
    split; [|split; [|split]].
    + intros _. repeat split; reflexivity.
    + intros [=].
    + intros Hne. now destruct Hne.
    + rewrite !in_app_iff. simpl. tauto.
  - destruct (strict_eq_string v "normal") eqn:Hn.
    + apply strict_eq_string_spec in Hn. subst v. cbn.
      split; [|split; [|split]].
      * intros [=].
      * intros _. repeat split; reflexivity.
      * intros _ Hne. now destruct Hne.
      * rewrite !in_app_iff. simpl. tauto.
    + cbn. split; [|split; [|split]].
      * intros ->. discriminate.
      * intros ->. discriminate.
      * intros _ _. repeat split; reflexivity.
      * rewrite !in_app_iff. simpl. tauto.
Qed.

(** [requestSlot] when the loop is already running or no slot is free:
    the request stays where [enqueue] put it and its promise is pending. *)
Lemma requestSlot_waits (options : RequestOptions) (w : World) :
  isProcessing (limiter w) = true \/ fst (getAvailableSlots w) = 0 ->
  let p := fst (requestSlot options w) in
  let w' := snd (requestSlot options w) in
  let l1 := enqueue (js_or (priority options) (JString "normal")) {| promise := p |}
                    (limiter w) in
  requestsHigh (limiter w') = requestsHigh l1 /\
  requestsNormal (limiter w') = requestsNormal l1 /\
  requestsLow (limiter w') = requestsLow l1 /\
  exists h, promiseOf w' p = Some (Pending (Some h)).
Proof.
  intros Hwait. cbv zeta.
  destruct (requestSlot_promise options w) as [Hp _]. rewrite Hp.
  unfold requestSlot, pushRequest, newPromise. cbn [fst snd].
  set (p := length (promises (runtime w))).
  set (l1 := enqueue (js_or (priority options) (JString "normal")) {| promise := p |}
                     (limiter w)).
  set (w1 := {| limiter := l1;
                runtime := with_promises (promises (runtime w) ++ [Pending None])
                                         (runtime w) |}).
  destruct (enqueue_frame (js_or (priority options) (JString "normal"))
              {| promise := p |} (limiter w)) as (Hrate & Hrun & Hproc & Hlen).
  fold l1 in Hrate, Hrun, Hproc, Hlen.
  assert (Hpq : requestsHigh (limiter (processQueue w1)) = requestsHigh l1 /\
                requestsNormal (limiter (processQueue w1)) = requestsNormal l1 /\
                requestsLow (limiter (processQueue w1)) = requestsLow l1 /\
                promises (runtime (processQueue w1))
                  = promises (runtime w) ++ [Pending None]).
  { destruct (isProcessing (limiter w)) eqn:Hbusy.
    - rewrite processQueue_busy by (left; exact Hproc). repeat split; reflexivity.
    - destruct Hwait as [Hwait | Hfull]; [discriminate|].
      assert (Hfull1 : fst (getAvailableSlots w1) = 0).
      { rewrite <- Hfull. apply getAvailableSlots_same; try reflexivity; try exact Hrun.
        unfold rateOf in Hrate. now injection Hrate. }
      destruct (processQueue_full w1) as (Hh & Hn & Hl & _ & Hps & _);
        [simpl; rewrite Hlen; discriminate | exact Hproc | exact Hfull1 |].
      repeat split; assumption. }
  destruct Hpq as (Hh & Hn & Hl & Hps).
  destruct (setTimeout _ _ (runtime (processQueue w1))) as [h r2] eqn:Hset.
  assert (Hps2 : promises r2 = promises (runtime w) ++ [Pending None])
    by (unfold setTimeout in Hset; injection Hset as _ <-; exact Hps).
  cbn [limiter runtime fst snd]. repeat (split; [assumption|]).
  exists h. unfold promiseOf, await. cbn [runtime].
  rewrite Hps2, list_lookup_middle by reflexivity.
  cbn [promises with_promises].
  apply list_lookup_insert_eq. rewrite length_app. simpl. lia.
Qed.

(** [requestSlot] when it starts the loop with a slot free: everything
    that waits is resolved, the new request in its place of the order. *)
Lemma requestSlot_granted (options : RequestOptions) (w : World) :
  isProcessing (limiter w) = false -> 0 < fst (getAvailableSlots w) ->
  let p := fst (requestSlot options w) in
  let w' := snd (requestSlot options w) in
  let l1 := enqueue (js_or (priority options) (JString "normal")) {| promise := p |}
                    (limiter w) in
  let r1 := with_promises (promises (runtime w) ++ [Pending None]) (runtime w) in
  queueLength (limiter w') = 0%nat /\
  promises (runtime w') = promises (resolveAll (waiting l1) r1) /\
  promiseOf w' p = Some Fulfilled /\
  exists h, jobs (runtime w') = jobs (resolveAll (waiting l1) r1) ++ [ResumeRequestSlot p h].
Proof.
  intros Hidle Hfree. cbv zeta.
  destruct (requestSlot_promise options w) as [Hp _]. rewrite Hp.
  unfold requestSlot, pushRequest, newPromise. cbn [fst snd].
  set (p := length (promises (runtime w))).
  set (l1 := enqueue (js_or (priority options) (JString "normal")) {| promise := p |}
                     (limiter w)).
  set (r1 := with_promises (promises (runtime w) ++ [Pending None]) (runtime w)).
  set (w1 := {| limiter := l1; runtime := r1 |}).
  destruct (enqueue_frame (js_or (priority options) (JString "normal"))
              {| promise := p |} (limiter w)) as (Hrate & Hrun & Hproc & Hlen).
  fold l1 in Hrate, Hrun, Hproc, Hlen.
  assert (Hfree1 : 0 < fst (getAvailableSlots w1)).
  { assert (Heq : fst (getAvailableSlots w1) = fst (getAvailableSlots w)).
    { apply getAvailableSlots_same; try reflexivity; try exact Hrun.
      unfold rateOf in Hrate. now injection Hrate. }
    now rewrite Heq. }
  destruct (processQueue_free w1) as (Hz & _ & Hps & Hjobs);
    [simpl; rewrite Hlen; discriminate | simpl; congruence | exact Hfree1 |].
  change (limiter w1) with l1 in Hps, Hjobs. change (runtime w1) with r1 in Hps, Hjobs.
  assert (Hful : promises (resolveAll (waiting l1) r1) !! p = Some Fulfilled).
  { apply resolveAll_fulfils. right. split.
    - exists None. unfold r1. cbn [promises with_promises].
      now apply list_lookup_middle.
    - apply enqueue_lanes. }
  destruct (setTimeout _ _ (runtime (processQueue w1))) as [h r2] eqn:Hset.
  assert (Hr2 : promises r2 = promises (runtime (processQueue w1)) /\
                jobs r2 = jobs (runtime (processQueue w1)))
    by (unfold setTimeout in Hset; injection Hset as _ <-; split; reflexivity).
  destruct Hr2 as [Hps2 Hjobs2].
  cbn [limiter runtime fst snd]. split; [exact Hz|].
  assert (Hawait : await p h r2 = with_jobs (jobs r2 ++ [ResumeRequestSlot p h]) r2)
    by (unfold await; now rewrite Hps2, Hps, Hful).
  unfold promiseOf. cbn [runtime]. rewrite Hawait.
  cbn [promises jobs with_jobs]. rewrite Hps2, Hps, Hjobs2, Hjobs.
  repeat split; [exact Hful|]. now exists h.
Qed.

End Scheduler.

Section Tiers.

(** [requestSlot] uses the priority for the choice of the lane only. *)
Lemma requestSlot_lane_only (options options' : RequestOptions) (w : World) :
  timeoutMs options' = timeoutMs options ->
  (forall q l, enqueue (js_or (priority options') (JString "normal")) q l
               = enqueue (js_or (priority options) (JString "normal")) q l) ->
  requestSlot options' w = requestSlot options w.
Proof.
  intros Ht Hlane. unfold requestSlot, pushRequest, newPromise. cbv iota beta.
  now rewrite Ht, Hlane.
Qed.

Lemma enqueue_unknown (v : JsValue) (q : RequestWaiting) (l : Limiter) :
  v <> JString "high" -> v <> JString "normal" ->
  enqueue v q l = enqueue (JString "low") q l.
Proof.
  intros Hh Hn. unfold enqueue.
  now rewrite (strict_eq_string_false _ _ Hh), (strict_eq_string_false _ _ Hn).
Qed.

Lemma requestSlot_not_rejected (options : RequestOptions) (w : World) (msg : string) :
  promiseOf (snd (requestSlot options w)) (fst (requestSlot options w))
    <> Some (Rejected msg).
Proof.
  destruct (requestSlot_promise options w) as [_ [H | [h H]]]; rewrite H; discriminate.
Qed.

End Tiers.

(** C5. Whatever the three lanes hold, the dequeue of the scheduler
    returns the head of the high lane if there is one, else the head of the
    normal lane, else the head of the low lane, and nothing only when all
    three are empty; a request is pushed at the tail of its lane; dequeuing
    everything yields the high lane, then the normal lane, then the low
    lane, each in the order its requests were pushed. A grant loop of [n]
    rounds resolves the first [n] requests of that sequence, in that order,
    and leaves the others in their lanes. [processQueue] itself does
    nothing while a loop is already running; started on waiting requests,
    it grants none of them when no slot is free and leaves the lanes as
    they are, and as soon as a slot is free it resolves all of them, in
    that same order, and leaves the lanes empty; the loop does the same
    each time it resumes after its 50 ms pause. *)
Theorem dequeue_priority_then_fifo (l : Limiter)
    (q : RequestWaiting) (high normal low : list RequestWaiting)
    (n : nat) (w : World) :
  shiftNext (with_lanes (q :: high) normal low l)
    = Some (q, with_lanes high normal low l) /\
  shiftNext (with_lanes [] (q :: normal) low l)
    = Some (q, with_lanes [] normal low l) /\
  shiftNext (with_lanes [] [] (q :: low) l)
    = Some (q, with_lanes [] [] low l) /\
  shiftNext (with_lanes [] [] [] l) = None /\
  (shiftNext l = None <->
     requestsHigh l = [] /\ requestsNormal l = [] /\ requestsLow l = []) /\
  enqueue (JString "high") q (with_lanes high normal low l)
    = with_lanes (high ++ [q]) normal low l /\
  enqueue (JString "normal") q (with_lanes high normal low l)
    = with_lanes high (normal ++ [q]) low l /\
  enqueue (JString "low") q (with_lanes high normal low l)
    = with_lanes high normal (low ++ [q]) l /\
  shiftMany (queueLength l) l
    = requestsHigh l ++ requestsNormal l ++ requestsLow l /\
  runtime (grantSlots n w)
    = fold_left (fun r q => resolve q r)
        (take n (requestsHigh (limiter w) ++ requestsNormal (limiter w)
                 ++ requestsLow (limiter w)))
        (runtime w) /\
  requestsHigh (limiter (grantSlots n w)) ++ requestsNormal (limiter (grantSlots n w))
    ++ requestsLow (limiter (grantSlots n w))
    = drop n (requestsHigh (limiter w) ++ requestsNormal (limiter w)
              ++ requestsLow (limiter w)) /\
  (isProcessing (limiter w) = true -> processQueue w = w) /\
  (queueLength (limiter w) <> 0%nat -> isProcessing (limiter w) = false ->
   fst (getAvailableSlots w) = 0 ->
   requestsHigh (limiter (processQueue w)) = requestsHigh (limiter w) /\
   requestsNormal (limiter (processQueue w)) = requestsNormal (limiter w) /\
   requestsLow (limiter (processQueue w)) = requestsLow (limiter w) /\
   promises (runtime (processQueue w)) = promises (runtime w) /\
   jobs (runtime (processQueue w)) = jobs (runtime w)) /\
  (queueLength (limiter w) <> 0%nat -> isProcessing (limiter w) = false ->
   0 < fst (getAvailableSlots w) ->
   let granted := fold_left (fun r q => resolve q r)
                    (requestsHigh (limiter w) ++ requestsNormal (limiter w)
                     ++ requestsLow (limiter w))
                    (runtime w) in
   queueLength (limiter (processQueue w)) = 0%nat /\
   promises (runtime (processQueue w)) = promises granted /\
   jobs (runtime (processQueue w)) = jobs granted) /\
  (queueLength (limiter w) <> 0%nat -> fst (getAvailableSlots w) = 0 ->
   requestsHigh (limiter (runQueue w)) = requestsHigh (limiter w) /\
   requestsNormal (limiter (runQueue w)) = requestsNormal (limiter w) /\
   requestsLow (limiter (runQueue w)) = requestsLow (limiter w) /\
   promises (runtime (runQueue w)) = promises (runtime w) /\
   jobs (runtime (runQueue w)) = jobs (runtime w)) /\
  (0 < fst (getAvailableSlots w) ->
   let granted := fold_left (fun r q => resolve q r)
                    (requestsHigh (limiter w) ++ requestsNormal (limiter w)
                     ++ requestsLow (limiter w))
                    (runtime w) in
   queueLength (limiter (runQueue w)) = 0%nat /\
   promises (runtime (runQueue w)) = promises granted /\
   jobs (runtime (runQueue w)) = jobs granted).
Proof.
  repeat lazymatch goal with
         | |- _ /\ _ => split
         end; try reflexivity.
  - split.
    + unfold shiftNext.
      destruct (requestsHigh l); [|discriminate].
      destruct (requestsNormal l); [|discriminate].
      destruct (requestsLow l); [|discriminate]. auto.
    + intros (Hh & Hn & Hl). unfold shiftNext. now rewrite Hh, Hn, Hl.
  - now apply shiftMany_all.
  - now rewrite grantSlots_order, shiftMany_take.
  - apply (grantSlots_waiting n w).
  - intros Hbusy. apply processQueue_busy. now left.
  - intros Hq Hidle Hfull.
    destruct (processQueue_full w Hq Hidle Hfull) as (Hh & Hn & Hl & _ & Hps & Hjobs).
    repeat split; assumption.
  - intros Hq Hidle Hfree. cbv zeta.
    destruct (processQueue_free w Hq Hidle Hfree) as (Hz & _ & Hps & Hjobs).
    repeat split; assumption.
  - intros Hq Hfull. now apply runQueue_full.
  - intros Hfree. cbv zeta. now apply runQueue_free.
Qed.

Lemma dequeue_priority_then_fifo_witness :
  exists w0, create 100000 1 = Ok w0 /\
    let held := run w0 [CallRequestSlot noOptions; Microtask] in
    let pushed := snd (pushRequest (withPriority (JString "high"))
                         (snd (pushRequest (withPriority (JString "low")) held))) in
    requestsHigh (limiter (processQueue pushed)) = [{| promise := 2 |}] /\
    requestsLow (limiter (processQueue pushed)) = [{| promise := 1 |}] /\
    queueLength (limiter (processQueue (step pushed (Clock 165001)))) = 0%nat.
Proof.
  eexists. split; [reflexivity|]. cbv zeta.
  match goal with |- context [processQueue (step ?w ?c)] =>
    pose proof (dequeue_priority_then_fifo (limiter w) {| promise := 0 |} [] [] [] 0 w)
      as (_ & _ & _ & _ & _ & _ & _ & _ & _ & _ & _ & _ & Hfull & _ & _);
    pose proof (dequeue_priority_then_fifo (limiter w) {| promise := 0 |} [] [] [] 0
                  (step w c))
      as (_ & _ & _ & _ & _ & _ & _ & _ & _ & _ & _ & _ & _ & Hfree & _)
  end.
  destruct Hfull as (Hh & _ & Hl & _);
    [vm_compute; discriminate | reflexivity | reflexivity |].
  destruct Hfree as (Hz & _);
    [vm_compute; discriminate | reflexivity | reflexivity |].
  rewrite Hh, Hl, Hz. repeat split; reflexivity.
Defined.

(** C10. A [requestSlot] call whose [options.priority] is truthy and is
    neither ['high'] nor ['normal'] raises no error and behaves exactly as
    a call with priority ['low']. When the scheduling loop is already
    running or no slot is free, the call returns with its request at the
    tail of the low lane, the other lanes untouched, and its promise
    pending; when it starts the loop with a slot free, its request is
    resolved after every request of the high, normal and low lanes, and
    the lanes are empty. A priority falls back to ['normal'] exactly when
    it is falsy (or is ['normal'] already): the call then behaves as one
    with priority ['normal'] and its request waits at the tail of the
    normal lane. *)
Theorem unknown_priority_is_low (options : RequestOptions) (w : World) :
  let p := fst (requestSlot options w) in
  let w' := snd (requestSlot options w) in
  let q := {| promise := p |} in
  let r1 := with_promises (promises (runtime w) ++ [Pending None]) (runtime w) in
  p = length (promises (runtime w)) /\
  (forall msg, promiseOf w' p <> Some (Rejected msg)) /\
  (truthy (priority options) = true ->
   priority options <> JString "high" ->
   priority options <> JString "normal" ->
   requestSlot options w
     = requestSlot {| priority := JString "low"; timeoutMs := timeoutMs options |} w /\
   (isProcessing (limiter w) = true \/ fst (getAvailableSlots w) = 0 ->
    requestsLow (limiter w') = requestsLow (limiter w) ++ [q] /\
    requestsHigh (limiter w') = requestsHigh (limiter w) /\
    requestsNormal (limiter w') = requestsNormal (limiter w) /\
    exists h, promiseOf w' p = Some (Pending (Some h))) /\
   (isProcessing (limiter w) = false -> 0 < fst (getAvailableSlots w) ->
    queueLength (limiter w') = 0%nat /\
    promiseOf w' p = Some Fulfilled /\
    promises (runtime w')
      = promises (fold_left (fun r q => resolve q r)
                    (requestsHigh (limiter w) ++ requestsNormal (limiter w)
                     ++ requestsLow (limiter w) ++ [q]) r1))) /\
  (truthy (priority options) = false ->
   requestSlot options w
     = requestSlot {| priority := JString "normal"; timeoutMs := timeoutMs options |} w /\
   (isProcessing (limiter w) = true \/ fst (getAvailableSlots w) = 0 ->
    requestsNormal (limiter w') = requestsNormal (limiter w) ++ [q] /\
    requestsHigh (limiter w') = requestsHigh (limiter w) /\
    requestsLow (limiter w') = requestsLow (limiter w) /\
    exists h, promiseOf w' p = Some (Pending (Some h)))) /\
  (js_or (priority options) (JString "normal") = JString "normal" <->
   truthy (priority options) = false \/ priority options = JString "normal").
Proof.
  cbv zeta. split; [apply requestSlot_promise|].
  split; [intros msg; apply requestSlot_not_rejected|].
  split; [|split].
  - intros Ht Hh Hn.
    assert (Hprio : js_or (priority options) (JString "normal") = priority options)
      by (unfold js_or; now rewrite Ht).
    split; [|split].
    + symmetry. apply requestSlot_lane_only; [reflexivity|].
      intros q l. cbn [priority]. rewrite Hprio.
      symmetry. now apply enqueue_unknown.
    + intros Hwait.
      destruct (requestSlot_waits options w Hwait) as (Hhigh & Hnormal & Hlow & Hpend).
      rewrite Hprio in Hhigh, Hnormal, Hlow.
      destruct (enqueue_lanes (priority options)
                  {| promise := fst (requestSlot options w) |} (limiter w))
        as (_ & _ & Hunknown & _).
      destruct (Hunknown Hh Hn) as (Eh & En & El).
      rewrite Hhigh, Hnormal, Hlow, Eh, En, El. repeat split. exact Hpend.
    + intros Hidle Hfree.
      destruct (requestSlot_granted options w Hidle Hfree) as (Hz & Hps & Hful & _).
      rewrite Hprio in Hps.
      destruct (enqueue_lanes (priority options)
                  {| promise := fst (requestSlot options w) |} (limiter w))
        as (_ & _ & Hunknown & _).
      destruct (Hunknown Hh Hn) as (Eh & En & El).
      unfold waiting, resolveAll in Hps. rewrite Eh, En, El in Hps.
      repeat split; assumption.
  - intros Hf.
    assert (Hprio : js_or (priority options) (JString "normal") = JString "normal")
      by (unfold js_or; now rewrite Hf).
    split.
    + symmetry. apply requestSlot_lane_only; [reflexivity|].
      intros q l. cbn [priority]. now rewrite Hprio.
    + intros Hwait.
      destruct (requestSlot_waits options w Hwait) as (Hhigh & Hnormal & Hlow & Hpend).
      rewrite Hprio in Hhigh, Hnormal, Hlow.
      destruct (enqueue_lanes (JString "normal")
                  {| promise := fst (requestSlot options w) |} (limiter w))
        as (_ & Hnorm & _).
      destruct (Hnorm eq_refl) as (Eh & En & El).
      rewrite Hhigh, Hnormal, Hlow, Eh, En, El. repeat split. exact Hpend.
  - unfold js_or. destruct (truthy (priority options)) eqn:Ht; split.
    + intros ->. now right.
    + intros [|]; [discriminate | assumption].
    + now left.
    + reflexivity.
Qed.

Lemma unknown_priority_is_low_witness :
  exists w0, create 100000 1 = Ok w0 /\
    let held := run w0 [CallRequestSlot noOptions; Microtask] in
    requestsLow (limiter (snd (requestSlot (withPriority (JString "urgent")) held)))
      = [{| promise := 1 |}] /\
    requestsNormal (limiter (snd (requestSlot (withPriority (JString "")) held)))
      = [{| promise := 1 |}].
Proof.
  eexists. split; [reflexivity|]. cbv zeta.
  match goal with |- context [requestSlot (withPriority (JString "urgent")) ?w] =>
    destruct (unknown_priority_is_low (withPriority (JString "urgent")) w)
      as (_ & _ & Hlow & _);
    destruct (unknown_priority_is_low (withPriority (JString "")) w)
      as (_ & _ & _ & Hnormal & _)
  end.
  destruct Hlow as (_ & Hwait & _); [reflexivity | discriminate | discriminate |].
  destruct (Hwait (or_intror eq_refl)) as (Hl & _).
  destruct Hnormal as (_ & Hwait'); [reflexivity|].
  destruct (Hwait' (or_intror eq_refl)) as (Hn & _).
  rewrite Hl, Hn. split; reflexivity.
Defined.

(** C6, as amended. [requestSlot] does not validate the priority. A call
    that passes an options object, whatever its priority, creates a new
    promise that is never rejected when the call returns: when the
    scheduling loop is already running or no slot is free the request
    waits at the tail of the high lane for ['high'], of the normal lane for
    ['normal'] or a falsy value, of the low lane for anything else; when
    the call starts the loop with a slot free it is granted at once. In
    every run the only error such a call ever fails with is the timeout;
    there is no [InvalidArgument]. A call that omits the options object is
    rejected with the [TypeError] of the property access, which is no
    validation of the priority either. *)
Theorem priority_not_validated (t N : Z) (w0 : World) (es : list Event)
    (options : RequestOptions) (Hcreate : create t N = Ok w0) :
  let w := run w0 es in
  let p := fst (requestSlot options w) in
  let w' := snd (requestSlot options w) in
  let q := {| promise := p |} in
  callRequestSlot (Some options) w = Ok (requestSlot options w) /\
  p = length (promises (runtime w)) /\
  (forall msg, promiseOf w' p <> Some (Rejected msg)) /\
  (isProcessing (limiter w) = true \/ fst (getAvailableSlots w) = 0 ->
   (exists h, promiseOf w' p = Some (Pending (Some h))) /\
   (priority options = JString "high" ->
    requestsHigh (limiter w') = requestsHigh (limiter w) ++ [q] /\
    requestsNormal (limiter w') = requestsNormal (limiter w) /\
    requestsLow (limiter w') = requestsLow (limiter w)) /\
   (priority options = JString "normal" \/ truthy (priority options) = false ->
    requestsHigh (limiter w') = requestsHigh (limiter w) /\
    requestsNormal (limiter w') = requestsNormal (limiter w) ++ [q] /\
    requestsLow (limiter w') = requestsLow (limiter w)) /\
   (truthy (priority options) = true ->
    priority options <> JString "high" -> priority options <> JString "normal" ->
    requestsHigh (limiter w') = requestsHigh (limiter w) /\
    requestsNormal (limiter w') = requestsNormal (limiter w) /\
    requestsLow (limiter w') = requestsLow (limiter w) ++ [q])) /\
  (isProcessing (limiter w) = false -> 0 < fst (getAvailableSlots w) ->
   queueLength (limiter w') = 0%nat /\ promiseOf w' p = Some Fulfilled) /\
  (forall p' msg, promiseOf w p' = Some (Rejected msg) -> msg = "request timeout") /\
  (forall p' msg, In (p', Failed msg) (outcomes (runtime w)) -> msg = "request timeout") /\
  callRequestSlot None w
    = Throw "TypeError: Cannot read properties of undefined (reading 'priority')".
Proof.
  cbv zeta. split; [reflexivity|]. split; [apply requestSlot_promise|].
  split; [intros msg; apply requestSlot_not_rejected|].
  split; [|split; [|split; [|split; [|reflexivity]]]].
  - intros Hwait.
    destruct (requestSlot_waits options (run w0 es) Hwait)
      as (Hhigh & Hnormal & Hlow & Hpend).
    split; [exact Hpend|]. rewrite Hhigh, Hnormal, Hlow.
    split; [|split].
    + intros Hp. unfold js_or. rewrite Hp. cbn [truthy String.eqb negb].
      apply enqueue_lanes. reflexivity.
    + intros Hp.
      assert (Hprio : js_or (priority options) (JString "normal") = JString "normal").
      { unfold js_or. destruct Hp as [-> | ->]; reflexivity. }
      rewrite Hprio. apply enqueue_lanes. reflexivity.
    + intros Ht Hh Hn. unfold js_or. rewrite Ht. now apply enqueue_lanes.
  - intros Hidle Hfree.
    destruct (requestSlot_granted options (run w0 es) Hidle Hfree) as (Hz & _ & Hful & _).
    split; assumption.
  - assert (Ht : timeout_only (runtime (run w0 es))).
    { apply timeout_only_run. revert Hcreate. unfold create.
      destruct (constructor N); [|discriminate]. intros [= <-].
      split; [intros p msg; simpl; rewrite lookup_nil; discriminate | intros p msg []]. }
    apply Ht.
  - assert (Ht : timeout_only (runtime (run w0 es))).
    { apply timeout_only_run. revert Hcreate. unfold create.
      destruct (constructor N); [|discriminate]. intros [= <-].
      split; [intros p msg; simpl; rewrite lookup_nil; discriminate | intros p msg []]. }
    apply Ht.
Qed.

Lemma priority_not_validated_witness :
  exists w0, create 100000 1 = Ok w0 /\
    let held := run w0 [CallRequestSlot noOptions; Microtask] in
    requestsLow (limiter (snd (requestSlot (withPriority (JNumber 7)) held)))
      = [{| promise := 1 |}].
Proof.
  eexists. split; [reflexivity|]. cbv zeta.
  match goal with |- context [requestSlot ?o (run ?w0 ?es)] =>
    destruct (priority_not_validated 100000 1 w0 es o eq_refl)
      as (_ & _ & _ & Hwait & _)
  end.
  destruct (Hwait (or_intror eq_refl)) as (_ & _ & _ & Hlow).
  destruct (Hlow eq_refl ltac:(discriminate) ltac:(discriminate)) as (_ & _ & Hl).
  rewrite Hl. reflexivity.
Defined.

(** ** [ApiCallDeduplicator] *)

Section Deduplicator.

Import ApiCallDeduplicator.

Lemma dedup_settle_frame (c : nat) (p : Promise) (s : State) :
  clock (settle c p s) = clock s /\
  requests (settle c p s) = requests s /\
  running (settle c p s) = running s /\
  timers (settle c p s) = timers s /\
  nextHandle (settle c p s) = nextHandle s /\
  jobs (settle c p s) = jobs s /\
  started (settle c p s) = started s /\
  length (calls (settle c p s)) = length (calls s).
Proof.
  unfold settle. destruct (calls s !! c) as [[|v|e]|]; simpl; repeat split; auto.
  apply length_insert.
Qed.

Lemma dedup_settle_same (c : nat) (p : Promise) (s : State) :
  calls s !! c = Some Pending -> calls (settle c p s) !! c = Some p.
Proof.
  intros Hc. unfold settle. rewrite Hc. simpl.
  apply list_lookup_insert_eq. eapply lookup_lt_Some; eassumption.
Qed.

Lemma dedup_settle_other (c : nat) (p : Promise) (s : State) (i : nat) :
  i <> c -> calls (settle c p s) !! i = calls s !! i.
Proof.
  intros Hne. unfold settle.
  destruct (calls s !! c) as [[|v|e]|]; simpl; try reflexivity.
  apply list_lookup_insert_ne. congruence.
Qed.

Lemma dedup_settle_noop (c : nat) (p : Promise) (s : State) :
  calls s !! c <> Some Pending -> settle c p s = s.
Proof.
  intros Hc. unfold settle. destruct (calls s !! c) as [[|v|e]|]; congruence.
Qed.

(** A settled promise is left alone by [resolve] and [reject]. *)
Lemma dedup_settle_final (c : nat) (p q : Promise) (s : State) (i : nat) :
  calls s !! i = Some q -> q <> Pending -> calls (settle c p s) !! i = Some q.
Proof.
  intros Hi Hq. destruct (decide (i = c)) as [-> | Hne].
  - rewrite dedup_settle_noop; [exact Hi | congruence].
  - now rewrite dedup_settle_other.
Qed.

(** What rejecting every request of the map does to the promises. *)
Lemma rejectAll_spec (e : Reason) (s : State) (m : gmap string nat) :
  let s' := map_fold (fun _ c acc => settle c (Rejected e) acc) s m in
  clock s' = clock s /\ requests s' = requests s /\ running s' = running s /\
  timers s' = timers s /\ nextHandle s' = nextHandle s /\ jobs s' = jobs s /\
  started s' = started s /\ length (calls s') = length (calls s) /\
  forall i,
    ((exists k, m !! k = Some i) -> calls s !! i = Some Pending ->
     calls s' !! i = Some (Rejected e)) /\
    ((forall k, m !! k <> Some i) -> calls s' !! i = calls s !! i) /\
    (calls s' !! i = calls s !! i \/ calls s' !! i = Some (Rejected e)) /\
    (forall q, calls s !! i = Some q -> q <> Pending -> calls s' !! i = Some q).
Proof.
  cbv zeta.
  apply (map_fold_weak_ind
           (fun s' m =>
              clock s' = clock s /\ requests s' = requests s /\ running s' = running s /\
              timers s' = timers s /\ nextHandle s' = nextHandle s /\ jobs s' = jobs s /\
              started s' = started s /\ length (calls s') = length (calls s) /\
              forall i,
                ((exists k, m !! k = Some i) -> calls s !! i = Some Pending ->
                 calls s' !! i = Some (Rejected e)) /\
                ((forall k, m !! k <> Some i) -> calls s' !! i = calls s !! i) /\
                (calls s' !! i = calls s !! i \/ calls s' !! i = Some (Rejected e)) /\
                (forall q, calls s !! i = Some q -> q <> Pending ->
                           calls s' !! i = Some q))).
  - repeat split; auto. intros [k Hk]. now rewrite lookup_empty in Hk.
  - intros k c m' acc Hfree (Hc & Hr & Hru & Ht & Hn & Hj & Hst & Hl & Hcalls).
    destruct (dedup_settle_frame c (Rejected e) acc)
      as (Hc' & Hr' & Hru' & Ht' & Hn' & Hj' & Hst' & Hl').
    split; [congruence|]. split; [congruence|]. split; [congruence|].
    split; [congruence|]. split; [congruence|]. split; [congruence|].
    split; [congruence|]. split; [congruence|].
    intros i. destruct (Hcalls i) as (Hrej & Hsame & Hcases & Hfin).
    split; [|split; [|split]].
    + intros [k' Hk'] Hpend.
      destruct (decide (i = c)) as [-> | Hne].
      * destruct Hcases as [Hkeep | Hdone].
        -- apply dedup_settle_same. congruence.
        -- rewrite dedup_settle_noop; [exact Hdone | congruence].
      * rewrite dedup_settle_other by exact Hne. apply Hrej; [|exact Hpend].
        exists k'. destruct (decide (k = k')) as [<- | Hkk].
        -- rewrite lookup_insert_eq in Hk'. congruence.
        -- now rewrite lookup_insert_ne in Hk'.
    + intros Hnone.
      assert (Hne : i <> c).
      { intros ->. apply (Hnone k). apply lookup_insert_eq. }
      rewrite dedup_settle_other by exact Hne. apply Hsame.
      intros k' Hk'. apply (Hnone k'). rewrite lookup_insert_ne; [exact Hk'|].
      intros <-. congruence.
    + destruct (decide (i = c)) as [-> | Hne].
      * destruct (calls acc !! c) as [[|v|e']|] eqn:Hq.
        -- right. now apply dedup_settle_same.
        -- rewrite dedup_settle_noop by congruence. rewrite Hq. exact Hcases.
        -- rewrite dedup_settle_noop by congruence. rewrite Hq. exact Hcases.
        -- rewrite dedup_settle_noop by congruence. rewrite Hq. exact Hcases.
      * rewrite dedup_settle_other by exact Hne. exact Hcases.
    + intros q Hq Hsettled. apply dedup_settle_final; [|exact Hsettled].
      now apply Hfin.
Qed.

Lemma dedup_key_nonempty (k : string) : k <> "" -> String.eqb k "" = false.
Proof. intros Hk. now apply String.eqb_neq. Qed.

Lemma timeoutRequest_frame (k : string) (tmo : option Z) (s : State) :
  let '(h, s') := timeoutRequest k tmo s in
  clock s' = clock s /\ requests s' = requests s /\ calls s' = calls s /\
  running s' = running s /\ jobs s' = jobs s /\ started s' = started s /\
  match h with
  | None => timers s' = timers s /\ nextHandle s' = nextHandle s
  | Some h =>
      exists ms, tmo = Some ms /\ 0 < ms /\ h = nextHandle s /\
      timers s' = timers s ++ [{| handle := h; due := clock s + timerDelay ms;
                                  key := k |}] /\
      nextHandle s' = S h
  end.
Proof.
  unfold timeoutRequest. destruct tmo as [ms|]; [|repeat split; reflexivity].
  destruct (ms <=? 0) eqn:Hms; [repeat split; reflexivity|].
  apply Z.leb_gt in Hms. simpl. repeat split; try reflexivity.
  exists ms. repeat split; auto.
Qed.

Lemma clearTimeoutRequest_frame (h : option nat) (s : State) :
  clock (clearTimeoutRequest h s) = clock s /\
  requests (clearTimeoutRequest h s) = requests s /\
  calls (clearTimeoutRequest h s) = calls s /\
  running (clearTimeoutRequest h s) = running s /\
  jobs (clearTimeoutRequest h s) = jobs s /\
  started (clearTimeoutRequest h s) = started s /\
  nextHandle (clearTimeoutRequest h s) = nextHandle s /\
  (forall tm, In tm (timers (clearTimeoutRequest h s)) ->
     In tm (timers s) /\ Some (handle tm) <> h).
Proof.
  destruct h as [h|]; simpl.
  - do 7 (split; [reflexivity|]). intros tm Hin.
    apply filter_In in Hin. destruct Hin as [Hin Hne]. split; [exact Hin|].
    intros [= Heq]. rewrite Heq, Nat.eqb_refl in Hne. discriminate.
  - do 7 (split; [reflexivity|]). intros tm Hin. split; [exact Hin | discriminate].
Qed.

(** The state after a request for a key that is not in the map. *)
Lemma request_fresh (k : string) (task : Task) (tmo : option Z) (s : State) :
  k <> "" -> requests s !! k = None ->
  exists h s2,
    timeoutRequest k tmo
      (with_requests (<[k := length (calls s)]> (requests s))
         (with_calls (calls s ++ [Pending]) s)) = (h, s2) /\
    request (JString k) task tmo s =
      Ok (length (calls s),
          let s3 := with_started (started s2 ++ [k]) s2 in
          match task with
          | ReturnsValue v =>
              with_jobs (jobs s3 ++ [ThenJob (length (calls s)) k h (Fulfils v)]) s3
          | ReturnsPromise =>
              with_running (running s3 ++ [{| call := length (calls s); taskKey := k;
                                              timeoutId := h |}]) s3
          | Throws e =>
              let s5 := clearTimeoutRequest h (settle (length (calls s)) (Rejected e) s3) in
              with_requests (delete k (requests s5)) s5
          end).
Proof.
  intros Hk Hfree. unfold request. rewrite (dedup_key_nonempty k Hk), Hfree.
  cbv zeta.
  destruct (timeoutRequest k tmo _) as [h s2] eqn:Ht.
  exists h, s2. split; [reflexivity|]. destruct task; reflexivity.
Qed.


(** While a call is in flight its key is shared. A request for a key that
    is not in the map, with a task that does not throw, creates the next
    promise of the table, leaves it pending, records the key and invokes
    the task once; a second request for the same key made right after it
    returns the same promise and changes nothing: no second task is
    started, no second timeout is armed, whatever task and options it
    carries. *)
Theorem in_flight_request_is_shared
    (s : State) (k : string) (task task' : Task) (tmo tmo' : option Z) :
  k <> "" -> requests s !! k = None -> (forall e, task <> Throws e) ->
  exists s1,
    request (JString k) task tmo s = Ok (length (calls s), s1) /\
    calls s1 = calls s ++ [Pending] /\
    requests s1 = <[k := length (calls s)]> (requests s) /\
    isRequestInProgress k s1 = true /\
    started s1 = started s ++ [k] /\
    request (JString k) task' tmo' s1 = Ok (length (calls s), s1).
Proof.
  intros Hk Hfree Htask.
  destruct (request_fresh k task tmo s Hk Hfree) as (h & s2 & Ht & Hreq).
  pose proof (timeoutRequest_frame k tmo
                (with_requests (<[k := length (calls s)]> (requests s))
                   (with_calls (calls s ++ [Pending]) s))) as Hf.
  rewrite Ht in Hf. destruct Hf as (_ & Hr & Hc & _ & _ & Hst & _).
  simpl in Hr, Hc, Hst.
  eexists. split; [exact Hreq|].
  assert (Hshape :
    forall s1, requests s1 = requests s2 -> calls s1 = calls s2 ->
               started s1 = started s2 ++ [k] ->
      calls s1 = calls s ++ [Pending] /\
      requests s1 = <[k := length (calls s)]> (requests s) /\
      isRequestInProgress k s1 = true /\
      started s1 = started s ++ [k] /\
      request (JString k) task' tmo' s1 = Ok (length (calls s), s1)).
  { intros s1 Hr1 Hc1 Hst1.
    assert (Hin : requests s1 !! k = Some (length (calls s)))
      by (rewrite Hr1, Hr; apply lookup_insert_eq).
    repeat split; try congruence.
    - unfold isRequestInProgress. rewrite Hin. apply bool_decide_eq_true. eauto.
    - unfold request. now rewrite (dedup_key_nonempty k Hk), Hin. }
  destruct task as [v| |e]; [| |now destruct (Htask e)]; apply Hshape; reflexivity.
Qed.

Lemma in_flight_request_is_shared_witness :
  exists s1,
    request (JString "a") ReturnsPromise (Some 500) (init 0) = Ok (0%nat, s1) /\
    request (JString "a") (ReturnsValue (JNumber 1)) None s1 = Ok (0%nat, s1) /\
    started s1 = ["a"%string].
Proof.
  destruct (in_flight_request_is_shared (init 0) "a" ReturnsPromise
              (ReturnsValue (JNumber 1)) (Some 500) None)
    as (s1 & H1 & _ & _ & _ & H4 & H5).
  - discriminate.
  - reflexivity.
  - discriminate.
  - exists s1. repeat split; assumption.
Defined.

(** A task that throws synchronously: [request] does not throw, it returns
    a promise already rejected with the thrown value; the key is not left
    in the map, no timer armed by the request stays armed, and no reaction
    is queued. *)
Theorem synchronous_throw_rejects
    (s : State) (k : string) (e : Reason) (tmo : option Z) :
  k <> "" -> requests s !! k = None ->
  exists s1,
    request (JString k) (Throws e) tmo s = Ok (length (calls s), s1) /\
    calls s1 = calls s ++ [Rejected e] /\
    requests s1 = requests s /\
    isRequestInProgress k s1 = false /\
    (forall tm, In tm (timers s1) -> In tm (timers s)) /\
    jobs s1 = jobs s /\ running s1 = running s /\
    started s1 = started s ++ [k].
Proof.
  intros Hk Hfree.
  destruct (request_fresh k (Throws e) tmo s Hk Hfree) as (h & s2 & Ht & Hreq).
  pose proof (timeoutRequest_frame k tmo
                (with_requests (<[k := length (calls s)]> (requests s))
                   (with_calls (calls s ++ [Pending]) s))) as Hf.
  rewrite Ht in Hf. destruct Hf as (_ & Hr & Hc & Hru & Hj & Hst & Htm).
  simpl in Hr, Hc, Hru, Hj, Hst, Htm.
  eexists. split; [exact Hreq|]. cbv zeta.
  set (s3 := with_started (started s2 ++ [k]) s2).
  set (s4 := settle (length (calls s)) (Rejected e) s3).
  destruct (dedup_settle_frame (length (calls s)) (Rejected e) s3)
    as (_ & Hr4 & Hru4 & Ht4 & _ & Hj4 & Hst4 & _).
  destruct (clearTimeoutRequest_frame h s4)
    as (_ & Hr5 & Hc5 & Hru5 & Hj5 & Hst5 & _ & Ht5).
  fold s4 in Hr4, Hru4, Ht4, Hj4, Hst4.
  assert (Hcalls4 : calls s4 = calls s ++ [Rejected e]).
  { unfold s4, settle. simpl. rewrite Hc.
    rewrite list_lookup_middle by reflexivity. simpl.
    rewrite insert_app_r_alt by lia. now rewrite Nat.sub_diag. }
  assert (Hreqs : delete k (requests (clearTimeoutRequest h s4)) = requests s).
  { rewrite Hr5, Hr4. simpl. rewrite Hr. now apply delete_insert_id. }
  simpl. repeat split.
  - now rewrite Hc5.
  - exact Hreqs.
  - unfold isRequestInProgress. simpl. rewrite Hreqs, Hfree.
    apply bool_decide_eq_false. intros [x Hx]. discriminate.
  - intros tm Hin. apply Ht5 in Hin. destruct Hin as [Hin Hne].
    rewrite Ht4 in Hin. simpl in Hin.
    destruct h as [h|].
    + destruct Htm as (ms & _ & _ & _ & Htm & _). rewrite Htm in Hin.
      apply in_app_or in Hin. destruct Hin as [Hin | [<- | []]]; [exact Hin|].
      now destruct Hne.
    + destruct Htm as [Htm _]. now rewrite Htm in Hin.
  - now rewrite Hj5, Hj4.
  - now rewrite Hru5, Hru4.
  - rewrite Hst5, Hst4. simpl. now rewrite Hst.
Qed.

Lemma synchronous_throw_rejects_witness :
  exists s1,
    request (JString "a") (Throws (ErrorOf "boom")) (Some 500) (init 0) = Ok (0%nat, s1) /\
    calls s1 = [Rejected (ErrorOf "boom")] /\ timers s1 = [].
Proof.
  destruct (synchronous_throw_rejects (init 0) "a" (ErrorOf "boom") (Some 500))
    as (s1 & H1 & H2 & _ & _ & H5 & _).
  - discriminate.
  - reflexivity.
  - exists s1. repeat split; try assumption.
    destruct (timers s1) as [|tm tms]; [reflexivity|].
    destruct (H5 tm (or_introl eq_refl)).
Defined.


(** [clearAllRequests] with a non-empty reason empties the map and rejects
    with [Error(reason)] every pending promise that was in it; promises
    outside the map and settled promises are left as they were. The timers
    armed for the cleared requests, the tasks in flight and the queued
    reactions are all left in place. *)
Theorem clear_all_rejects_pending (s : State) (msg : string) :
  msg <> "" ->
  exists s1,
    clearAllRequests (JString msg) s = Ok s1 /\
    requests s1 = ∅ /\
    (forall k c, requests s !! k = Some c -> calls s !! c = Some Pending ->
                 calls s1 !! c = Some (Rejected (ErrorOf msg))) /\
    (forall c, (forall k, requests s !! k <> Some c) -> calls s1 !! c = calls s !! c) /\
    (forall c q, calls s !! c = Some q -> q <> Pending -> calls s1 !! c = Some q) /\
    timers s1 = timers s /\ running s1 = running s /\ jobs s1 = jobs s.
Proof.
  intros Hmsg. unfold clearAllRequests. rewrite (dedup_key_nonempty msg Hmsg).
  eexists. split; [reflexivity|].
  destruct (rejectAll_spec (ErrorOf msg) s (requests s))
    as (_ & _ & Hru & Ht & _ & Hj & _ & _ & Hcalls).
  simpl. repeat split; try assumption.
  - intros k c Hk Hpend. destruct (Hcalls c) as (Hrej & _). apply Hrej; eauto.
  - intros c Hnone. destruct (Hcalls c) as (_ & Hsame & _). now apply Hsame.
  - intros c q Hq Hsettled. destruct (Hcalls c) as (_ & _ & _ & Hfin). now apply Hfin.
Qed.

Lemma clear_all_rejects_pending_witness :
  exists s1,
    clearAllRequests (JString "shutdown")
      (run (init 0) [CallRequest (JString "a") ReturnsPromise None]) = Ok s1 /\
    requests s1 = ∅ /\ calls s1 !! 0%nat = Some (Rejected (ErrorOf "shutdown")).
Proof.
  destruct (clear_all_rejects_pending
              (run (init 0) [CallRequest (JString "a") ReturnsPromise None]) "shutdown")
    as (s1 & H1 & H2 & H3 & _).
  - discriminate.
  - exists s1. repeat split; try assumption.
    apply (H3 "a"%string 0%nat); reflexivity.
Defined.

Lemma request_final (k : JsValue) (task : Task) (tmo : option Z) (s s' : State)
    (c' c : nat) (q : Promise) :
  request k task tmo s = Ok (c', s') ->
  calls s !! c = Some q -> q <> Pending -> calls s' !! c = Some q.
Proof.
  intros Hreq Hq Hsettled. unfold request in Hreq.
  destruct k as [| |b|n|k]; try discriminate.
  destruct (String.eqb k ""); [discriminate|].
  destruct (requests s !! k) as [c0|] eqn:Hk.
  { injection Hreq as _ <-. exact Hq. }
  cbv zeta in Hreq.
  pose proof (timeoutRequest_frame k tmo
                (with_requests (<[k := length (calls s)]> (requests s))
                   (with_calls (calls s ++ [Pending]) s))) as Hf.
  destruct (timeoutRequest k tmo _) as [h s2].
  destruct Hf as (_ & _ & Hc & _). simpl in Hc.
  assert (Hq2 : calls s2 !! c = Some q) by (rewrite Hc; now apply lookup_app_l_Some).
  destruct task as [v| |e]; injection Hreq as _ <-; simpl; try exact Hq2.
  destruct (clearTimeoutRequest_frame h
              (settle (length (calls s)) (Rejected e)
                 (with_started (started s2 ++ [k]) s2))) as (_ & _ & Hc5 & _).
  rewrite Hc5. now apply dedup_settle_final.
Qed.

Lemma step_final (s : State) (ev : Event) (c : nat) (q : Promise) :
  calls s !! c = Some q -> q <> Pending -> calls (step s ev) !! c = Some q.
Proof.
  intros Hq Hsettled. destruct ev as [k task tmo|reason|c0 outcome| |h|t]; simpl.
  - destruct (request k task tmo s) as [[c' s']|msg] eqn:Hreq; [|exact Hq].
    eapply request_final; eassumption.
  - unfold clearAllRequests. destruct reason as [| |b|n|msg]; try exact Hq.
    destruct (String.eqb msg ""); [exact Hq|]. simpl.
    destruct (rejectAll_spec (ErrorOf msg) s (requests s))
      as (_ & _ & _ & _ & _ & _ & _ & _ & Hcalls).
    destruct (Hcalls c) as (_ & _ & _ & Hfin). now apply Hfin.
  - unfold taskSettles. destruct (find _ (running s)); [simpl|]; exact Hq.
  - destruct (jobs s) as [|j js]; [exact Hq|].
    destruct j as [c1 k h [v|e]|c1 k h [e|]|k h]; simpl.
    + now apply dedup_settle_final.
    + exact Hq.
    + now apply dedup_settle_final.
    + exact Hq.
    + destruct (clearTimeoutRequest_frame h (with_jobs js s)) as (_ & _ & Hc5 & _).
      now rewrite Hc5.
  - destruct (jobs s); [|exact Hq].
    destruct (findTimer h s) as [tm|]; [|exact Hq].
    destruct (due tm <=? clock s); [|exact Hq].
    unfold timeoutFires. destruct (requests (clearTimeout h s) !! key tm); [|exact Hq].
    simpl. now apply dedup_settle_final.
  - exact Hq.
Qed.

Lemma run_final (s : State) (es : list Event) (c : nat) (q : Promise) :
  calls s !! c = Some q -> q <> Pending -> calls (run s es) !! c = Some q.
Proof.
  revert s. induction es as [|ev es IH]; intros s Hq Hsettled; [exact Hq|].
  simpl. apply IH; [|exact Hsettled]. now apply step_final.
Qed.

(** A promise handed out by [request] settles at most once: once it is
    fulfilled or rejected, no later request, [clearAllRequests], timeout,
    task outcome or reaction changes it. *)
Theorem settled_promise_is_final (s : State) (es : list Event) (c : nat) (q : Promise) :
  calls s !! c = Some q -> q <> Pending -> calls (run s es) !! c = Some q.
Proof. apply run_final. Qed.

Lemma settled_promise_is_final_witness :
  calls (run (run (init 0) [CallRequest (JString "a") (ReturnsValue (JNumber 1)) (Some 500);
                            Microtask])
           [Clock 1000; Fire 1; CallClearAllRequests (JString "stop")]) !! 0%nat
  = Some (Fulfilled (JNumber 1)).
Proof.
  apply (settled_promise_is_final
           (run (init 0) [CallRequest (JString "a") (ReturnsValue (JNumber 1)) (Some 500);
                          Microtask])).
  - reflexivity.
  - discriminate.
Defined.

Lemma NoDup_map_filter {A B : Type} (f : A -> B) (p : A -> bool) (l : list A) :
  NoDup (map f l) -> NoDup (map f (List.filter p l)).
Proof.
  induction l as [|a l IH]; simpl; intros Hnd; [constructor|].
  apply NoDup_cons in Hnd. destruct Hnd as [Hnotin Hnd].
  destruct (p a); simpl; [|now apply IH].
  apply NoDup_cons. split; [|now apply IH].
  intros Hin. apply Hnotin. apply list_elem_of_In. apply list_elem_of_In in Hin.
  apply in_map_iff in Hin. destruct Hin as (x & Hx & Hin).
  apply filter_In in Hin. apply in_map_iff. exists x. tauto.
Qed.

Lemma wellformed_init (t : Z) : wellformed (init t).
Proof. repeat split; simpl; constructor. Qed.

Lemma wellformed_settle (c : nat) (p : Promise) (s : State) :
  wellformed s -> wellformed (settle c p s).
Proof.
  intros (Ha & Hd & Hb).
  destruct (dedup_settle_frame c p s) as (_ & _ & Hru & Ht & Hn & _ & _ & Hl).
  unfold wellformed. rewrite Hru, Ht, Hn, Hl. auto.
Qed.

Lemma wellformed_clearTimeoutRequest (h : option nat) (s : State) :
  wellformed s -> wellformed (clearTimeoutRequest h s).
Proof.
  intros (Ha & Hd & Hb).
  destruct (clearTimeoutRequest_frame h s) as (_ & _ & Hc & Hru & _ & _ & Hn & Ht).
  unfold wellformed. rewrite Hru, Hc, Hn. repeat split; auto.
  rewrite List.Forall_forall in *. intros tm Hin. apply Hb. now apply Ht.
Qed.

Lemma wellformed_frame (s s' : State) :
  length (calls s') = length (calls s) -> running s' = running s ->
  timers s' = timers s -> nextHandle s' = nextHandle s ->
  wellformed s -> wellformed s'.
Proof.
  intros Hl Hru Ht Hn (Ha & Hd & Hb). unfold wellformed.
  rewrite Hl, Hru, Ht, Hn. auto.
Qed.

Lemma wellformed_timeoutRequest (k : string) (tmo : option Z) (s : State) :
  wellformed s -> wellformed (snd (timeoutRequest k tmo s)).
Proof.
  intros Hwf. assert (Hwf' := Hwf). destruct Hwf' as (Ha & Hd & Hb).
  pose proof (timeoutRequest_frame k tmo s) as Hf.
  destruct (timeoutRequest k tmo s) as [h s']. simpl.
  destruct Hf as (_ & _ & Hc & Hru & _ & _ & Htm).
  destruct h as [h|].
  - destruct Htm as (ms & _ & _ & -> & Ht & Hn).
    unfold wellformed. rewrite Hc, Hru, Ht, Hn. repeat split; auto.
    apply List.Forall_app. split.
    + eapply List.Forall_impl; [|exact Hb]. simpl. intros; lia.
    + constructor; [simpl; lia | constructor].
  - destruct Htm as [Ht Hn]. apply (wellformed_frame s s'); auto. now rewrite Hc.
Qed.

Lemma wellformed_request (k : JsValue) (task : Task) (tmo : option Z)
    (s s' : State) (c : nat) :
  request k task tmo s = Ok (c, s') -> wellformed s -> wellformed s'.
Proof.
  intros Hreq Hwf. unfold request in Hreq.
  destruct k as [| |b|n|k]; try discriminate.
  destruct (String.eqb k ""); [discriminate|].
  destruct (requests s !! k) as [c0|] eqn:Hk.
  { injection Hreq as _ <-. exact Hwf. }
  cbv zeta in Hreq.
  set (s1 := with_requests (<[k := length (calls s)]> (requests s))
               (with_calls (calls s ++ [Pending]) s)) in *.
  assert (Hwf1 : wellformed s1).
  { destruct Hwf as (Ha & Hd & Hb). unfold wellformed, s1. simpl.
    repeat split; auto. rewrite length_app. simpl.
    eapply List.Forall_impl; [|exact Ha]. simpl. intros; lia. }
  pose proof (wellformed_timeoutRequest k tmo s1 Hwf1) as Hwf2.
  pose proof (timeoutRequest_frame k tmo s1) as Hf.
  destruct (timeoutRequest k tmo s1) as [h s2]. simpl in Hwf2.
  destruct Hf as (_ & _ & Hc & Hru & _). simpl in Hc, Hru.
  assert (Hwf3 : wellformed (with_started (started s2 ++ [k]) s2))
    by (eapply wellformed_frame; [| | | |exact Hwf2]; reflexivity).
  destruct task as [v| |e]; injection Hreq as _ <-.
  - eapply wellformed_frame; [| | | |exact Hwf3]; reflexivity.
  - destruct Hwf2 as (Ha & Hd & Hb). unfold wellformed. simpl.
    split; [|split; [|exact Hb]].
    + apply List.Forall_app. split; [exact Ha|].
      constructor; [|constructor]. simpl. rewrite Hc, length_app. simpl. lia.
    + rewrite map_app. simpl. apply NoDup_app. split; [exact Hd|]. split.
      * intros x Hin Hx. apply list_elem_of_singleton in Hx. subst x.
        apply list_elem_of_In, in_map_iff in Hin. destruct Hin as (r & Hr & Hin).
        rewrite Hru in Hin. destruct Hwf as (Ha0 & _).
        rewrite List.Forall_forall in Ha0. apply Ha0 in Hin. lia.
      * apply NoDup_singleton.
  - eapply wellformed_frame;
      [| | | |apply wellformed_clearTimeoutRequest, wellformed_settle; exact Hwf3];
      reflexivity.
Qed.

Lemma wellformed_step (s : State) (ev : Event) : wellformed s -> wellformed (step s ev).
Proof.
  intros Hwf. destruct ev as [k task tmo|reason|c0 outcome| |h|t]; simpl.
  - destruct (request k task tmo s) as [[c' s']|msg] eqn:Hreq; [|exact Hwf].
    eapply wellformed_request; eassumption.
  - unfold clearAllRequests. destruct reason as [| |b|n|msg]; try exact Hwf.
    destruct (String.eqb msg ""); [exact Hwf|].
    destruct (rejectAll_spec (ErrorOf msg) s (requests s))
      as (_ & _ & Hru & Ht & Hn & _ & _ & Hl & _).
    apply (wellformed_frame s); auto.
  - unfold taskSettles. destruct (find _ (running s)); [|exact Hwf].
    destruct Hwf as (Ha & Hd & Hb). unfold wellformed. simpl.
    split; [|split; [|exact Hb]].
    + rewrite List.Forall_forall in *. intros r0 Hin. apply filter_In in Hin.
      apply Ha. tauto.
    + now apply NoDup_map_filter.
  - destruct (jobs s) as [|j js]; [exact Hwf|].
    assert (Hwf1 : wellformed (with_jobs js s))
      by (apply (wellformed_frame s); auto).
    destruct j as [c1 k h [v|e]|c1 k h [e|]|k h]; simpl.
    + apply (wellformed_frame (settle c1 (Fulfilled v) (with_jobs js s))); auto.
      now apply wellformed_settle.
    + apply (wellformed_frame (with_jobs js s)); auto.
    + apply (wellformed_frame (settle c1 (Rejected e) (with_jobs js s))); auto.
      now apply wellformed_settle.
    + apply (wellformed_frame (with_jobs js s)); auto.
    + apply (wellformed_frame (clearTimeoutRequest h (with_jobs js s))); auto.
      now apply wellformed_clearTimeoutRequest.
  - destruct (jobs s); [|exact Hwf].
    destruct (findTimer h s) as [tm|]; [|exact Hwf].
    destruct (due tm <=? clock s); [|exact Hwf].
    assert (Hwf1 : wellformed (clearTimeout h s))
      by (apply (wellformed_clearTimeoutRequest (Some h)); exact Hwf).
    unfold timeoutFires.
    destruct (requests (clearTimeout h s) !! key tm) as [c|]; [|exact Hwf1].
    apply (wellformed_frame
             (settle c (Rejected (ErrorOf "Call timed out")) (clearTimeout h s))); auto.
    now apply wellformed_settle.
  - apply (wellformed_frame s); auto.
Qed.

Lemma wellformed_run (s : State) (es : list Event) :
  wellformed s -> wellformed (run s es).
Proof.
  revert s. induction es as [|ev es IH]; intros s Hwf; [exact Hwf|].
  simpl. apply IH. now apply wellformed_step.
Qed.

Lemma backed_frame (s s' : State) :
  requests s' = requests s -> running s' = running s -> jobs s' = jobs s ->
  backed s -> backed s'.
Proof.
  intros Hr Hru Hj Hb. unfold backed. rewrite Hr, Hru, Hj. exact Hb.
Qed.

(** Deleting a key keeps the other entries backed. *)
Lemma backed_delete (s s' : State) (k : string) :
  requests s' = delete k (requests s) ->
  (forall r, In r (running s) -> taskKey r <> k -> In r (running s')) ->
  (forall j, In j (jobs s) -> jobKey j <> k -> In j (jobs s')) ->
  backed s -> backed s'.
Proof.
  intros Hr Hru Hj Hb k' c Hk'. rewrite Hr in Hk'.
  apply lookup_delete_Some in Hk'. destruct Hk' as [Hne Hk'].
  destruct (Hb k' c Hk') as [(r & Hin & Hkey) | (j & Hin & Hkey)].
  - left. exists r. split; [|exact Hkey]. apply Hru; congruence.
  - right. exists j. split; [|exact Hkey]. apply Hj; congruence.
Qed.

Lemma backed_request (k : JsValue) (task : Task) (tmo : option Z)
    (s s' : State) (c : nat) :
  request k task tmo s = Ok (c, s') -> backed s -> backed s'.
Proof.
  intros Hreq Hb. unfold request in Hreq.
  destruct k as [| |b|n|k]; try discriminate.
  destruct (String.eqb k ""); [discriminate|].
  destruct (requests s !! k) as [c0|] eqn:Hk.
  { injection Hreq as _ <-. exact Hb. }
  cbv zeta in Hreq.
  pose proof (timeoutRequest_frame k tmo
                (with_requests (<[k := length (calls s)]> (requests s))
                   (with_calls (calls s ++ [Pending]) s))) as Hf.
  destruct (timeoutRequest k tmo _) as [h s2].
  destruct Hf as (_ & Hr & _ & Hru & Hj & _). simpl in Hr, Hru, Hj.
  destruct task as [v| |e]; injection Hreq as _ <-.
  - intros k' c' Hk'. simpl in Hk'. rewrite Hr in Hk'. simpl.
    destruct (decide (k = k')) as [<- | Hne].
    + right. eexists. split; [apply in_or_app; right; left; reflexivity | reflexivity].
    + rewrite lookup_insert_ne in Hk' by exact Hne.
      destruct (Hb k' c' Hk') as [(r & Hin & Hkey) | (j & Hin & Hkey)].
      * left. exists r. rewrite Hru. tauto.
      * right. exists j. rewrite Hj. split; [apply in_or_app; tauto | exact Hkey].
  - intros k' c' Hk'. simpl in Hk'. rewrite Hr in Hk'. simpl.
    destruct (decide (k = k')) as [<- | Hne].
    + left. eexists. split; [apply in_or_app; right; left; reflexivity | reflexivity].
    + rewrite lookup_insert_ne in Hk' by exact Hne.
      destruct (Hb k' c' Hk') as [(r & Hin & Hkey) | (j & Hin & Hkey)].
      * left. exists r. rewrite Hru. split; [apply in_or_app; tauto | exact Hkey].
      * right. exists j. rewrite Hj. tauto.
  - set (s3 := with_started (started s2 ++ [k]) s2).
    destruct (dedup_settle_frame (length (calls s)) (Rejected e) s3)
      as (_ & Hr4 & Hru4 & _ & _ & Hj4 & _).
    destruct (clearTimeoutRequest_frame h (settle (length (calls s)) (Rejected e) s3))
      as (_ & Hr5 & _ & Hru5 & Hj5 & _).
    intros k' c' Hk'. simpl in Hk'. rewrite Hr5, Hr4 in Hk'. simpl in Hk'.
    rewrite Hr in Hk'. rewrite delete_insert_id in Hk' by exact Hk.
    simpl. rewrite Hru5, Hru4, Hj5, Hj4. simpl. rewrite Hru, Hj.
    exact (Hb k' c' Hk').
Qed.

Lemma find_call_unique (rs : list Running) (c : nat) (r r' : Running) :
  NoDup (map call rs) ->
  find (fun r => Nat.eqb (call r) c) rs = Some r ->
  In r' rs -> call r' = c -> r' = r.
Proof.
  induction rs as [|a rs IH]; simpl; intros Hnd Hfind Hin Hc; [discriminate|].
  apply NoDup_cons in Hnd. destruct Hnd as [Hnotin Hnd].
  destruct (Nat.eqb (call a) c) eqn:Ha.
  - injection Hfind as <-. apply Nat.eqb_eq in Ha.
    destruct Hin as [<- | Hin]; [reflexivity|].
    exfalso. apply Hnotin. apply list_elem_of_In, in_map_iff.
    exists r'. split; [congruence | exact Hin].
  - destruct Hin as [<- | Hin]; [|now apply IH].
    apply Nat.eqb_neq in Ha. congruence.
Qed.

Lemma backed_step (s : State) (ev : Event) :
  wellformed s -> backed s -> backed (step s ev).
Proof.
  intros Hwf Hb. destruct ev as [k task tmo|reason|c0 outcome| |h|t]; simpl.
  - destruct (request k task tmo s) as [[c' s']|msg] eqn:Hreq; [|exact Hb].
    eapply backed_request; eassumption.
  - unfold clearAllRequests. destruct reason as [| |b|n|msg]; try exact Hb.
    destruct (String.eqb msg ""); [exact Hb|].
    intros k c Hk. simpl in Hk. now rewrite lookup_empty in Hk.
  - unfold taskSettles.
    destruct (find _ (running s)) as [r|] eqn:Hfind; [|exact Hb].
    intros k c Hk. simpl in Hk. simpl.
    destruct (Hb k c Hk) as [(r' & Hin & Hkey) | (j & Hin & Hkey)].
    + destruct (Nat.eqb (call r') c0) eqn:Hc.
      * right. apply Nat.eqb_eq in Hc.
        destruct Hwf as (_ & Hd & _).
        rewrite (find_call_unique _ _ _ _ Hd Hfind Hin Hc) in Hkey.
        eexists. split; [apply in_or_app; right; left; reflexivity | exact Hkey].
      * left. exists r'. split; [|exact Hkey]. apply filter_In. now rewrite Hc.
    + right. exists j. split; [apply in_or_app; tauto | exact Hkey].
  - destruct (jobs s) as [|j js] eqn:Hjobs; [exact Hb|].
    assert (Hpass : forall s' j',
              requests s' = requests s -> running s' = running s ->
              jobs s' = js ++ [j'] -> jobKey j' = jobKey j -> backed s').
    { intros s' j' Hr Hru Hj Hkey k c Hk. rewrite Hr in Hk. rewrite Hru, Hj.
      destruct (Hb k c Hk) as [(r & Hin & Hkr) | (j0 & Hin & Hkj)].
      - left. eauto.
      - right. rewrite Hjobs in Hin. destruct Hin as [<- | Hin].
        + exists j'. split; [apply in_or_app; right; left; reflexivity | congruence].
        + exists j0. split; [apply in_or_app; tauto | exact Hkj]. }
    destruct j as [c1 k h [v|e]|c1 k h [e|]|k h]; simpl.
    + destruct (dedup_settle_frame c1 (Fulfilled v) (with_jobs js s))
        as (_ & Hr & Hru & _ & _ & Hj & _).
      eapply Hpass; simpl; [exact Hr | exact Hru | now rewrite Hj | reflexivity].
    + eapply Hpass; simpl; reflexivity.
    + destruct (dedup_settle_frame c1 (Rejected e) (with_jobs js s))
        as (_ & Hr & Hru & _ & _ & Hj & _).
      eapply Hpass; simpl; [exact Hr | exact Hru | now rewrite Hj | reflexivity].
    + eapply Hpass; simpl; reflexivity.
    + destruct (clearTimeoutRequest_frame h (with_jobs js s))
        as (_ & Hr & _ & Hru & Hj & _).
      apply (backed_delete s _ k); simpl; auto.
      * now rewrite Hr.
      * intros r Hin _. now rewrite Hru.
      * intros j Hin Hne. rewrite Hj. simpl. rewrite Hjobs in Hin.
        destruct Hin as [<- | Hin]; [now destruct Hne | exact Hin].
  - destruct (jobs s); [|exact Hb].
    destruct (findTimer h s) as [tm|]; [|exact Hb].
    destruct (due tm <=? clock s); [|exact Hb].
    unfold timeoutFires.
    destruct (requests (clearTimeout h s) !! key tm) as [c|]; [|exact Hb].
    destruct (dedup_settle_frame c (Rejected (ErrorOf "Call timed out")) (clearTimeout h s))
      as (_ & Hr & Hru & _ & _ & Hj & _).
    apply (backed_delete s _ (key tm)); cbn [with_requests requests running jobs].
    + reflexivity.
    + intros r Hin _. now rewrite Hru.
    + intros j Hin _. now rewrite Hj.
    + exact Hb.
  - exact Hb.
Qed.

Lemma backed_run (s : State) (es : list Event) :
  wellformed s -> backed s -> backed (run s es).
Proof.
  revert s. induction es as [|ev es IH]; intros s Hwf Hb; [exact Hb|].
  simpl. apply IH; [now apply wellformed_step | now apply backed_step].
Qed.

(** No key stays in the map without its cleanup ahead: in every run, each
    entry of [requests] has its task still in flight or a reaction of its
    chain still queued, so that once every task has settled and the
    microtask queue has drained the map is empty. *)
Theorem every_entry_has_its_cleanup_ahead (t : Z) (es : list Event) :
  backed (run (init t) es) /\
  (running (run (init t) es) = [] -> jobs (run (init t) es) = [] ->
   requests (run (init t) es) = ∅).
Proof.
  assert (Hb : backed (run (init t) es)).
  { apply backed_run; [apply wellformed_init|].
    intros k c Hk. simpl in Hk. now rewrite lookup_empty in Hk. }
  split; [exact Hb|]. intros Hru Hj.
  apply map_empty. intros k. destruct (requests (run (init t) es) !! k) as [c|] eqn:Hk;
    [|reflexivity].
  destruct (Hb k c Hk) as [(r & Hin & _) | (j & Hin & _)].
  - rewrite Hru in Hin. destruct Hin.
  - rewrite Hj in Hin. destruct Hin.
Qed.


Lemma snoc_fresh {A : Type} (f : A -> nat) (l : list A) (x : A) (n : nat) :
  f x = n -> Forall (fun a => (f a < n)%nat) l ->
  find (fun a => Nat.eqb (f a) n) (l ++ [x]) = Some x /\
  List.filter (fun a => negb (Nat.eqb (f a) n)) (l ++ [x]) = l.
Proof.
  intros Hx. induction l as [|a l IH]; intros Hall; simpl.
  - now rewrite Hx, Nat.eqb_refl.
  - apply Forall_cons in Hall. destruct Hall as [Ha Hall].
    destruct (IH Hall) as [Hfind Hfilter].
    assert (Hne : Nat.eqb (f a) n = false) by (apply Nat.eqb_neq; lia).
    rewrite Hne. simpl. now rewrite Hfilter.
Qed.

Lemma settle_last (cs : list Promise) (p : Promise) (s : State) :
  calls s = cs ++ [Pending] ->
  settle (length cs) p s = with_calls (cs ++ [p]) s.
Proof.
  intros Hc. unfold settle. rewrite Hc.
  rewrite list_lookup_middle by reflexivity.
  rewrite insert_app_r_alt by lia. now rewrite Nat.sub_diag.
Qed.

(** The three reactions of the chain, run one after the other. *)
Lemma chain_run (s1 : State) (c : nat) (k : string) (h : option nat)
    (outcome : Settled) :
  jobs s1 = [ThenJob c k h outcome] ->
  run s1 [Microtask; Microtask; Microtask] =
    with_requests (delete k (requests s1))
      (clearTimeoutRequest h
         (with_jobs []
            (settle c match outcome with
                      | Fulfils v => Fulfilled v
                      | Rejects e => Rejected e
                      end s1))).
Proof.
  intros Hj. destruct s1 as [clk reqs cs rn tms nh js st].
  simpl in Hj. subst js.
  unfold run. cbn [fold_left]. destruct outcome as [v|e].
  - unfold step at 3. cbn [jobs with_jobs runJob].
    unfold settle. cbn [calls with_jobs].
    destruct (cs !! c) as [[|v'|e']|];
      cbn [jobs with_jobs with_calls app runJob step clock requests calls running
           timers nextHandle started];
      destruct h; reflexivity.
  - unfold step at 3. cbn [jobs with_jobs app runJob].
    unfold step at 2. cbn [jobs with_jobs runJob].
    unfold settle. cbn [calls with_jobs].
    destruct (cs !! c) as [[|v'|e']|];
      cbn [jobs with_jobs with_calls app runJob step clock requests calls running
           timers nextHandle started];
      destruct h; reflexivity.
Qed.

Lemma taskSettles_last (s1 : State) (rs : list Running) (c : nat) (k : string)
    (h : option nat) (outcome : Settled) :
  running s1 = rs ++ [{| call := c; taskKey := k; timeoutId := h |}] ->
  Forall (fun r => (call r < c)%nat) rs ->
  taskSettles c outcome s1 =
    with_jobs (jobs s1 ++ [ThenJob c k h outcome]) (with_running rs s1).
Proof.
  intros Hru Hall. unfold taskSettles. rewrite Hru.
  destruct (snoc_fresh call rs {| call := c; taskKey := k; timeoutId := h |} c
              eq_refl Hall) as [Hfind Hfilter].
  now rewrite Hfind, Hfilter.
Qed.

(** Clearing the timeout of a request that was the last to arm one. *)
Lemma clearTimeoutRequest_last (s s0 : State) (k : string) (tmo : option Z)
    (h : option nat) (s2 : State) :
  Forall (fun tm => (handle tm < nextHandle s)%nat) (timers s) ->
  timeoutRequest k tmo s = (h, s2) -> timers s0 = timers s2 ->
  timers (clearTimeoutRequest h s0) = timers s.
Proof.
  intros Hb Ht Hs0. pose proof (timeoutRequest_frame k tmo s) as Hf.
  rewrite Ht in Hf. destruct Hf as (_ & _ & _ & _ & _ & _ & Htm).
  destruct h as [h|]; simpl; rewrite Hs0.
  - destruct Htm as (ms & _ & _ & -> & -> & _). now apply (snoc_fresh handle).
  - now destruct Htm.
Qed.

Lemma round_trip_value (s : State) (k : string) (tmo : option Z) (v : JsValue) :
  wellformed s -> k <> "" -> requests s !! k = None -> jobs s = [] ->
  let s' := run s [CallRequest (JString k) (ReturnsValue v) tmo;
                   Microtask; Microtask; Microtask] in
  calls s' = calls s ++ [Fulfilled v] /\ requests s' = requests s /\
  timers s' = timers s /\ jobs s' = [] /\ running s' = running s.
Proof.
  intros (_ & _ & Hb) Hk Hfree Hjobs. cbv zeta.
  destruct (request_fresh k (ReturnsValue v) tmo s Hk Hfree) as (h & s2 & Ht & Hreq).
  pose proof (timeoutRequest_frame k tmo
                (with_requests (<[k := length (calls s)]> (requests s))
                   (with_calls (calls s ++ [Pending]) s))) as Hf.
  rewrite Ht in Hf. destruct Hf as (_ & Hr & Hc & Hru & Hj & _ & _).
  simpl in Hr, Hc, Hru, Hj.
  change (run s (CallRequest (JString k) (ReturnsValue v) tmo ::
                 [Microtask; Microtask; Microtask]))
    with (run (step s (CallRequest (JString k) (ReturnsValue v) tmo))
              [Microtask; Microtask; Microtask]).
  unfold step at 1 2 3 4 5. rewrite Hreq. cbv zeta.
  rewrite (chain_run _ (length (calls s)) k h (Fulfils v))
    by (simpl; now rewrite Hj, Hjobs).
  rewrite (settle_last (calls s)) by exact Hc.
  match goal with
  | |- context [clearTimeoutRequest h ?s0] =>
      destruct (clearTimeoutRequest_frame h s0) as (_ & Hr5 & Hc5 & Hru5 & Hj5 & _ & _ & _);
      pose proof (clearTimeoutRequest_last
                    (with_requests (<[k := length (calls s)]> (requests s))
                       (with_calls (calls s ++ [Pending]) s))
                    s0 k tmo h s2 Hb Ht eq_refl) as Htimers
  end.
  cbn [calls requests timers jobs running with_requests].
  rewrite Hc5, Hru5, Hj5, Htimers. simpl. rewrite Hr, Hru.
  repeat split; try reflexivity. now apply delete_insert_id.
Qed.

Lemma round_trip_promise (s : State) (k : string) (tmo : option Z) (t' : Z)
    (outcome : Settled) :
  wellformed s -> k <> "" -> requests s !! k = None -> jobs s = [] ->
  let s' := run s [CallRequest (JString k) ReturnsPromise tmo; Clock t';
                   TaskSettles (length (calls s)) outcome;
                   Microtask; Microtask; Microtask] in
  calls s' = calls s ++ [match outcome with
                         | Fulfils v => Fulfilled v
                         | Rejects e => Rejected e
                         end] /\
  requests s' = requests s /\ timers s' = timers s /\ jobs s' = [] /\
  running s' = running s.
Proof.
  intros (Ha & _ & Hb) Hk Hfree Hjobs. cbv zeta.
  destruct (request_fresh k ReturnsPromise tmo s Hk Hfree) as (h & s2 & Ht & Hreq).
  pose proof (timeoutRequest_frame k tmo
                (with_requests (<[k := length (calls s)]> (requests s))
                   (with_calls (calls s ++ [Pending]) s))) as Hf.
  rewrite Ht in Hf. destruct Hf as (_ & Hr & Hc & Hru & Hj & _ & _).
  simpl in Hr, Hc, Hru, Hj.
  change (run s (CallRequest (JString k) ReturnsPromise tmo :: Clock t' ::
                 TaskSettles (length (calls s)) outcome ::
                 [Microtask; Microtask; Microtask]))
    with (run (step (step (step s (CallRequest (JString k) ReturnsPromise tmo))
                          (Clock t'))
                    (TaskSettles (length (calls s)) outcome))
              [Microtask; Microtask; Microtask]).
  assert (Hstep1 : step s (CallRequest (JString k) ReturnsPromise tmo) =
                   with_running
                     (running s2 ++ [{| call := length (calls s); taskKey := k;
                                        timeoutId := h |}])
                     (with_started (started s2 ++ [k]) s2)).
  { unfold step. now rewrite Hreq. }
  rewrite Hstep1. cbn [step].
  rewrite (taskSettles_last _ (running s2) (length (calls s)) k h outcome);
    [|reflexivity | now rewrite Hru].
  rewrite (chain_run _ (length (calls s)) k h outcome)
    by (simpl; now rewrite Hj, Hjobs).
  rewrite (settle_last (calls s)) by exact Hc.
  match goal with
  | |- context [clearTimeoutRequest h ?s0] =>
      destruct (clearTimeoutRequest_frame h s0) as (_ & Hr5 & Hc5 & Hru5 & Hj5 & _ & _ & _);
      pose proof (clearTimeoutRequest_last
                    (with_requests (<[k := length (calls s)]> (requests s))
                       (with_calls (calls s ++ [Pending]) s))
                    s0 k tmo h s2 Hb Ht eq_refl) as Htimers
  end.
  cbn [calls requests timers jobs running with_requests].
  rewrite Hc5, Hru5, Hj5, Htimers. simpl. rewrite Hr, Hru.
  repeat split; try reflexivity. now apply delete_insert_id.
Qed.

(** The round trip of one call, in any state a run can reach with the
    microtask queue drained and the key free, when nothing else happens to
    the deduplicator meanwhile; in particular the timeout of the request
    does not fire before the task has settled. A task returning the plain
    value [v] fulfils the promise with [v] after three microtasks; a task
    returning a promise that settles later, at any clock reading, settles
    the call's promise the same way, three microtasks after that. Either
    way the key is free again afterwards, the timeout armed by the request
    is cleared, and nothing else of the state has changed. *)
Theorem request_round_trip (t : Z) (es : list Event) (k : string) (tmo : option Z) :
  k <> "" ->
  requests (run (init t) es) !! k = None ->
  jobs (run (init t) es) = [] ->
  (forall v,
     let s' := run (run (init t) es)
                 [CallRequest (JString k) (ReturnsValue v) tmo;
                  Microtask; Microtask; Microtask] in
     calls s' = calls (run (init t) es) ++ [Fulfilled v] /\
     requests s' = requests (run (init t) es) /\
     timers s' = timers (run (init t) es) /\
     jobs s' = [] /\ running s' = running (run (init t) es)) /\
  (forall t' outcome,
     let s' := run (run (init t) es)
                 [CallRequest (JString k) ReturnsPromise tmo; Clock t';
                  TaskSettles (length (calls (run (init t) es))) outcome;
                  Microtask; Microtask; Microtask] in
     calls s' = calls (run (init t) es) ++
                [match outcome with
                 | Fulfils v => Fulfilled v
                 | Rejects e => Rejected e
                 end] /\
     requests s' = requests (run (init t) es) /\
     timers s' = timers (run (init t) es) /\
     jobs s' = [] /\ running s' = running (run (init t) es)).
Proof.
  intros Hk Hfree Hjobs.
  assert (Hwf : wellformed (run (init t) es))
    by (apply wellformed_run, wellformed_init).
  split.
  - intros v. now apply round_trip_value.
  - intros t' outcome. now apply round_trip_promise.
Qed.

Lemma request_round_trip_witness :
  calls (run (run (init 0) [CallRequest (JString "a") ReturnsPromise None])
           [CallRequest (JString "b") ReturnsPromise (Some 500); Clock 300;
            TaskSettles 1 (Rejects (ErrorOf "503"));
            Microtask; Microtask; Microtask])
  = [Pending; Rejected (ErrorOf "503")].
Proof.
  destruct (request_round_trip 0 [CallRequest (JString "a") ReturnsPromise None]
              "b" (Some 500)) as [_ H].
  - discriminate.
  - reflexivity.
  - reflexivity.
  - destruct (H 300 (Rejects (ErrorOf "503"))) as [Hc _]. exact Hc.
Defined.


Lemma request_timed (s : State) (k : string) (ms : Z) :
  k <> "" -> requests s !! k = None -> 0 < ms ->
  step s (CallRequest (JString k) ReturnsPromise (Some ms)) =
    with_running
      (running s ++ [{| call := length (calls s); taskKey := k;
                        timeoutId := Some (nextHandle s) |}])
      (with_started (started s ++ [k])
         (with_timers
            (timers s ++ [{| handle := nextHandle s; due := clock s + timerDelay ms;
                             key := k |}])
            (S (nextHandle s))
            (with_requests (<[k := length (calls s)]> (requests s))
               (with_calls (calls s ++ [Pending]) s)))).
Proof.
  intros Hk Hfree Hms. unfold step, request, timeoutRequest.
  rewrite (dedup_key_nonempty k Hk), Hfree.
  assert (Hle : (ms <=? 0) = false) by (apply Z.leb_gt; exact Hms).
  rewrite Hle. reflexivity.
Qed.

(** The state once the timeout of a request has fired. *)
Lemma timed_out_state (s : State) (k : string) (ms t' : Z) :
  wellformed s -> k <> "" -> requests s !! k = None -> jobs s = [] ->
  0 < ms -> clock s + timerDelay ms <= t' ->
  run s [CallRequest (JString k) ReturnsPromise (Some ms); Clock t';
         Fire (nextHandle s)] =
    with_clock t'
      (with_running
         (running s ++ [{| call := length (calls s); taskKey := k;
                           timeoutId := Some (nextHandle s) |}])
         (with_started (started s ++ [k])
            (with_timers (timers s) (S (nextHandle s))
               (with_calls (calls s ++ [Rejected (ErrorOf "Call timed out")]) s)))).
Proof.
  intros (_ & _ & Hb) Hk Hfree Hjobs Hms Hdue.
  unfold run. cbn [fold_left]. rewrite (request_timed s k ms Hk Hfree Hms).
  destruct s as [clk reqs cs rn tms nh js st]. simpl in Hb, Hfree, Hjobs, Hdue.
  subst js.
  destruct (snoc_fresh handle tms {| handle := nh; due := clk + timerDelay ms; key := k |} nh
              eq_refl Hb) as [Hfind Hfilter].
  cbn [step with_running with_started with_timers with_requests with_calls with_clock
       jobs findTimer timers clock running calls requests nextHandle started].
  unfold findTimer.
  cbn [with_running with_started with_timers with_requests with_calls with_clock
       timers].
  rewrite Hfind. cbn [due].
  pose proof (timerDelay_bounds ms) as [Hdelay _].
  assert (Hle : (clk + timerDelay ms <=? Z.max t' clk) = true) by (apply Z.leb_le; lia).
  rewrite Hle. unfold timeoutFires, clearTimeout.
  cbn [with_running with_started with_timers with_requests with_calls with_clock
       jobs timers clock running calls requests nextHandle started key].
  rewrite lookup_insert_eq.
  rewrite (settle_last cs) by reflexivity.
  rewrite Hfilter. rewrite delete_insert_id by exact Hfree.
  rewrite Z.max_l by lia. reflexivity.
Qed.


Lemma fire_early (s : State) (k : string) (ms t' : Z) :
  wellformed s -> k <> "" -> requests s !! k = None -> jobs s = [] ->
  0 < ms -> t' < clock s + timerDelay ms ->
  run s [CallRequest (JString k) ReturnsPromise (Some ms); Clock t';
         Fire (nextHandle s)] =
  run s [CallRequest (JString k) ReturnsPromise (Some ms); Clock t'].
Proof.
  intros (_ & _ & Hb) Hk Hfree Hjobs Hms Hearly.
  unfold run. cbn [fold_left]. rewrite (request_timed s k ms Hk Hfree Hms).
  destruct s as [clk reqs cs rn tms nh js st]. simpl in Hb, Hfree, Hjobs, Hearly.
  subst js.
  destruct (snoc_fresh handle tms {| handle := nh; due := clk + timerDelay ms; key := k |} nh
              eq_refl Hb) as [Hfind _].
  cbn [step with_running with_started with_timers with_requests with_calls with_clock
       jobs findTimer timers clock running calls requests nextHandle started].
  unfold findTimer.
  cbn [with_running with_started with_timers with_requests with_calls with_clock
       timers].
  rewrite Hfind. cbn [due].
  pose proof (timerDelay_bounds ms) as [Hdelay _].
  assert (Hle : (clk + timerDelay ms <=? Z.max t' clk) = false) by (apply Z.leb_gt; lia).
  now rewrite Hle.
Qed.

(** The timeout of a call whose task has not settled, when nothing else
    has happened to the deduplicator since the request. The timer is due
    after the delay node gives it ([timeout] itself up to [2^31 - 1] ms,
    1 ms beyond); before that it cannot fire. When it fires, the promise
    is rejected with [Error('Call timed out')], the key is removed from
    the map and the timer is gone; the task itself is not cancelled and
    stays in flight, and whatever happens later, its own outcome included,
    the promise stays rejected with the timeout. *)
Theorem timeout_rejects_call (t : Z) (es : list Event) (k : string) (ms : Z) :
  k <> "" ->
  requests (run (init t) es) !! k = None ->
  jobs (run (init t) es) = [] ->
  0 < ms ->
  (forall t', t' < clock (run (init t) es) + timerDelay ms ->
     run (run (init t) es)
       [CallRequest (JString k) ReturnsPromise (Some ms); Clock t';
        Fire (nextHandle (run (init t) es))] =
     run (run (init t) es)
       [CallRequest (JString k) ReturnsPromise (Some ms); Clock t']) /\
  (forall t', clock (run (init t) es) + timerDelay ms <= t' ->
     let s2 := run (run (init t) es)
                 [CallRequest (JString k) ReturnsPromise (Some ms); Clock t';
                  Fire (nextHandle (run (init t) es))] in
     calls s2 = calls (run (init t) es) ++ [Rejected (ErrorOf "Call timed out")] /\
     requests s2 = requests (run (init t) es) /\
     timers s2 = timers (run (init t) es) /\
     running s2 = running (run (init t) es) ++
                  [{| call := length (calls (run (init t) es)); taskKey := k;
                      timeoutId := Some (nextHandle (run (init t) es)) |}] /\
     forall es',
       calls (run s2 es') !! length (calls (run (init t) es)) =
         Some (Rejected (ErrorOf "Call timed out"))).
Proof.
  intros Hk Hfree Hjobs Hms.
  assert (Hwf : wellformed (run (init t) es))
    by (apply wellformed_run, wellformed_init).
  split.
  - intros t' Hearly. now apply fire_early.
  - intros t' Hdue. cbv zeta.
    rewrite (timed_out_state _ k ms t' Hwf Hk Hfree Hjobs Hms Hdue).
    cbn [calls requests timers running with_clock with_running with_started
         with_timers with_calls].
    repeat split. intros es'. apply run_final; [|discriminate].
    cbn [calls with_clock with_running with_started with_timers with_calls].
    now apply list_lookup_middle.
Qed.

Lemma timeout_rejects_call_witness :
  calls (run (init 0)
           [CallRequest (JString "a") ReturnsPromise (Some 500); Clock 500; Fire 1;
            TaskSettles 0 (Fulfils (JNumber 7)); Microtask; Microtask; Microtask])
    !! 0%nat
  = Some (Rejected (ErrorOf "Call timed out")).
Proof.
  destruct (timeout_rejects_call 0 [] "a" 500) as [_ H].
  - discriminate.
  - reflexivity.
  - reflexivity.
  - lia.
  - destruct (H 500 ltac:(vm_compute; discriminate)) as (_ & _ & _ & _ & Hfin).
    exact (Hfin [TaskSettles 0%nat (Fulfils (JNumber 7)); Microtask; Microtask; Microtask]).
Defined.

Lemma find_filter_middle {A : Type} (f : A -> nat) (l : list A) (x y : A) (n : nat) :
  f x = n -> f y <> n -> Forall (fun a => (f a < n)%nat) l ->
  find (fun a => Nat.eqb (f a) n) (l ++ [x; y]) = Some x /\
  List.filter (fun a => negb (Nat.eqb (f a) n)) (l ++ [x; y]) = l ++ [y].
Proof.
  intros Hx Hy. induction l as [|a l IH]; intros Hall; simpl.
  - rewrite Hx, Nat.eqb_refl. simpl.
    assert (Hne : Nat.eqb (f y) n = false) by now apply Nat.eqb_neq.
    now rewrite Hne.
  - apply Forall_cons in Hall. destruct Hall as [Ha Hall].
    destruct (IH Hall) as [Hfind Hfilter].
    assert (Hne : Nat.eqb (f a) n = false) by (apply Nat.eqb_neq; lia).
    rewrite Hne. simpl. now rewrite Hfilter.
Qed.

(** The cleanup of a call that timed out removes the entry of the call
    that took its key. *)
Lemma stale_cleanup (s : State) (k : string) (ms t' : Z) (tmo2 : option Z)
    (outcome : Settled) :
  wellformed s -> k <> "" -> requests s !! k = None -> jobs s = [] ->
  0 < ms -> clock s + ms <= t' ->
  let s' := run s [CallRequest (JString k) ReturnsPromise (Some ms); Clock t';
                   Fire (nextHandle s);
                   CallRequest (JString k) ReturnsPromise tmo2;
                   TaskSettles (length (calls s)) outcome;
                   Microtask; Microtask; Microtask] in
  calls s' = calls s ++ [Rejected (ErrorOf "Call timed out"); Pending] /\
  (exists h2, In {| call := S (length (calls s)); taskKey := k; timeoutId := h2 |}
                 (running s')) /\
  requests s' = requests s.
Proof.
  intros Hwf Hk Hfree Hjobs Hms Hdue. cbv zeta.
  change (run s [CallRequest (JString k) ReturnsPromise (Some ms); Clock t';
                 Fire (nextHandle s);
                 CallRequest (JString k) ReturnsPromise tmo2;
                 TaskSettles (length (calls s)) outcome;
                 Microtask; Microtask; Microtask])
    with (run (step (step
                 (run s [CallRequest (JString k) ReturnsPromise (Some ms); Clock t';
                         Fire (nextHandle s)])
                 (CallRequest (JString k) ReturnsPromise tmo2))
                 (TaskSettles (length (calls s)) outcome))
              [Microtask; Microtask; Microtask]).
  assert (Hdue' : clock s + timerDelay ms <= t')
    by (pose proof (timerDelay_bounds ms) as [_ Hle]; specialize (Hle Hms); lia).
  rewrite (timed_out_state s k ms t' Hwf Hk Hfree Hjobs Hms Hdue').
  set (s2 := with_clock t' _).
  assert (Hfree2 : requests s2 !! k = None) by exact Hfree.
  destruct (request_fresh k ReturnsPromise tmo2 s2 Hk Hfree2) as (h2 & s3 & Ht & Hreq).
  pose proof (timeoutRequest_frame k tmo2
                (with_requests (<[k := length (calls s2)]> (requests s2))
                   (with_calls (calls s2 ++ [Pending]) s2))) as Hf.
  rewrite Ht in Hf. destruct Hf as (_ & Hr & Hc & Hru & Hj & _ & _).
  cbn [requests calls running jobs with_requests with_calls] in Hr, Hc, Hru, Hj.
  assert (Hlen2 : length (calls s2) = S (length (calls s))).
  { unfold s2. cbn [calls with_clock with_running with_started with_timers with_calls].
    rewrite length_app. simpl. lia. }
  assert (Hstep : step s2 (CallRequest (JString k) ReturnsPromise tmo2) =
                  with_running
                    (running s3 ++ [{| call := S (length (calls s)); taskKey := k;
                                       timeoutId := h2 |}])
                    (with_started (started s3 ++ [k]) s3)).
  { unfold step. rewrite Hreq. cbv zeta. now rewrite Hlen2. }
  rewrite Hstep. cbn [step].
  destruct Hwf as (Ha & _ & _).
  destruct (find_filter_middle call (running s)
              {| call := length (calls s); taskKey := k;
                 timeoutId := Some (nextHandle s) |}
              {| call := S (length (calls s)); taskKey := k; timeoutId := h2 |}
              (length (calls s)) eq_refl ltac:(simpl; lia) Ha) as [Hfind Hfilter].
  assert (Hru3 : running s3 ++ [{| call := S (length (calls s)); taskKey := k;
                                   timeoutId := h2 |}] =
                 running s ++ [{| call := length (calls s); taskKey := k;
                                  timeoutId := Some (nextHandle s) |};
                               {| call := S (length (calls s)); taskKey := k;
                                  timeoutId := h2 |}]).
  { rewrite Hru. unfold s2. cbn [running with_clock with_running].
    now rewrite <- app_assoc. }
  assert (Hsettle : forall s4,
            running s4 = running s3 ++ [{| call := S (length (calls s)); taskKey := k;
                                           timeoutId := h2 |}] ->
            taskSettles (length (calls s)) outcome s4 =
              with_jobs (jobs s4 ++ [ThenJob (length (calls s)) k
                                       (Some (nextHandle s)) outcome])
                (with_running (running s ++ [{| call := S (length (calls s));
                                                taskKey := k; timeoutId := h2 |}]) s4)).
  { intros s4 Hs4. unfold taskSettles. rewrite Hs4, Hru3, Hfind, Hfilter. reflexivity. }
  rewrite Hsettle by reflexivity.
  rewrite (chain_run _ (length (calls s)) k (Some (nextHandle s)) outcome).
  2:{ cbn [jobs with_jobs with_running with_started]. rewrite Hj. unfold s2.
      cbn [jobs with_clock with_running with_started with_timers with_calls].
      now rewrite Hjobs. }
  match goal with
  | |- context [clearTimeoutRequest ?h ?s0] =>
      destruct (clearTimeoutRequest_frame h s0) as (_ & Hr5 & Hc5 & Hru5 & _)
  end.
  cbn [calls requests running with_requests].
  rewrite Hc5, Hru5.
  assert (Hcalls : calls s3 = calls s ++ [Rejected (ErrorOf "Call timed out"); Pending]).
  { rewrite Hc. unfold s2.
    cbn [calls with_clock with_running with_started with_timers with_calls].
    now rewrite <- app_assoc. }
  split; [|split].
  - cbn [calls with_jobs]. rewrite dedup_settle_noop.
    + exact Hcalls.
    + cbn [calls with_jobs with_running with_started]. rewrite Hcalls.
      rewrite list_lookup_middle by reflexivity. destruct outcome; discriminate.
  - exists h2. cbn [running with_jobs].
    destruct (dedup_settle_frame (length (calls s))
                match outcome with
                | Fulfils v => Fulfilled v
                | Rejects e => Rejected e
                end
                (with_jobs
                   (jobs (with_running
                            (running s3 ++ [{| call := S (length (calls s)); taskKey := k;
                                               timeoutId := h2 |}])
                            (with_started (started s3 ++ [k]) s3)) ++
                    [ThenJob (length (calls s)) k (Some (nextHandle s)) outcome])
                   (with_running
                      (running s ++ [{| call := S (length (calls s)); taskKey := k;
                                        timeoutId := h2 |}])
                      (with_running
                         (running s3 ++ [{| call := S (length (calls s)); taskKey := k;
                                            timeoutId := h2 |}])
                         (with_started (started s3 ++ [k]) s3)))))
      as (_ & _ & Hru4 & _).
    rewrite Hru4. cbn [running with_jobs with_running].
    apply in_or_app. right. left. reflexivity.
  - cbn [requests with_jobs with_running with_started]. rewrite Hr.
    rewrite Hlen2. now apply delete_insert_id.
Qed.


(** The cleanup of the chain deletes by key, not by call. When a call has
    timed out, a second request for the same key has started a new call,
    and the task of the first call then settles, its [finally] reaction
    removes the entry of the second call: the second call is still
    pending with its task in flight, yet [isRequestInProgress] answers
    [false] and a third request for the key is given a new promise
    instead of the one in flight. *)
Theorem stale_cleanup_frees_newer_call
    (t : Z) (es : list Event) (k : string) (ms t' : Z) (tmo2 : option Z)
    (outcome : Settled) :
  k <> "" ->
  requests (run (init t) es) !! k = None ->
  jobs (run (init t) es) = [] ->
  0 < ms -> clock (run (init t) es) + ms <= t' ->
  let s' := run (run (init t) es)
              [CallRequest (JString k) ReturnsPromise (Some ms); Clock t';
               Fire (nextHandle (run (init t) es));
               CallRequest (JString k) ReturnsPromise tmo2;
               TaskSettles (length (calls (run (init t) es))) outcome;
               Microtask; Microtask; Microtask] in
  calls s' = calls (run (init t) es) ++
             [Rejected (ErrorOf "Call timed out"); Pending] /\
  (exists h2, In {| call := S (length (calls (run (init t) es))); taskKey := k;
                    timeoutId := h2 |} (running s')) /\
  isRequestInProgress k s' = false /\
  forall task3 tmo3, exists s'',
    request (JString k) task3 tmo3 s' =
      Ok (S (S (length (calls (run (init t) es)))), s'').
Proof.
  intros Hk Hfree Hjobs Hms Hdue.
  assert (Hwf : wellformed (run (init t) es))
    by (apply wellformed_run, wellformed_init).
  destruct (stale_cleanup _ k ms t' tmo2 outcome Hwf Hk Hfree Hjobs Hms Hdue)
    as (Hcalls & Hrunning & Hreqs).
  cbv zeta. split; [exact Hcalls|]. split; [exact Hrunning|].
  assert (Hfree' : requests
            (run (run (init t) es)
               [CallRequest (JString k) ReturnsPromise (Some ms); Clock t';
                Fire (nextHandle (run (init t) es));
                CallRequest (JString k) ReturnsPromise tmo2;
                TaskSettles (length (calls (run (init t) es))) outcome;
                Microtask; Microtask; Microtask]) !! k = None)
    by (rewrite Hreqs; exact Hfree).
  split.
  - unfold isRequestInProgress. rewrite Hfree'.
    apply bool_decide_eq_false. intros [x Hx]. discriminate.
  - intros task3 tmo3.
    destruct (request_fresh k task3 tmo3 _ Hk Hfree') as (h3 & s3 & _ & Hreq).
    eexists. rewrite Hreq. rewrite Hcalls, length_app. simpl.
    rewrite Nat.add_comm. reflexivity.
Qed.

Lemma stale_cleanup_frees_newer_call_witness :
  isRequestInProgress "a"
    (run (init 0)
       [CallRequest (JString "a") ReturnsPromise (Some 500); Clock 500; Fire 1;
        CallRequest (JString "a") ReturnsPromise None;
        TaskSettles 0 (Fulfils (JNumber 7));
        Microtask; Microtask; Microtask]) = false.
Proof.
  destruct (stale_cleanup_frees_newer_call 0 [] "a" 500 500 None (Fulfils (JNumber 7)))
    as (_ & _ & H & _).
  - discriminate.
  - reflexivity.
  - reflexivity.
  - lia.
  - simpl. lia.
  - exact H.
Defined.

End Deduplicator.
